(** * Resonance discovery backend: queue store, wishlist log, match scorer

    A shallow embedding of
    - [backend/discovery/shared/queue.py]      (the lock-guarded queue file),
    - [backend/discovery/shared/wishlist.py]   (the append-only wishlist),
    - [backend/discovery/slskd_downloader.py]  (wishlist parser, album scorer,
                                                download loop),
    - [backend/api/services/queue_manager.py]  (review API service),
    - [backend/discovery/lb_fetch.py]          (drain of the approved list),
    - [backend/api/middleware/auth.py]         (authentication middleware),
    followed by the properties of these functions. *)

From Stdlib Require Import ZArith NArith List Ascii String Lia.
From stdpp Require Import base option list gmap.
Import ListNotations.
Local Open Scope Z_scope.

(** ** Python strings

    A Python [str] is a sequence of Unicode code points.  Text files are
    read and written as [str].  The files are UTF-8 text; the codec is the
    identity on every [str] it can encode and is left out, but it cannot
    encode a surrogate (code points D800 to DFFF, which a [str] may hold,
    for instance after [json.loads] of an escaped lone surrogate): writing
    such a text raises [UnicodeEncodeError]. *)

Abbreviation pystr := (list N).

(** A literal of the source, whose characters are all ASCII. *)
Definition py (s : string) : pystr :=
  map N_of_ascii (list_ascii_of_string s).

Definition ch_quote : N := 34%N.      (* double quote *)
Definition ch_backslash : N := 92%N.  (* backslash *)
Definition ch_slash : N := 47%N.      (* slash *)
Definition ch_space : N := 32%N.      (* space *)
Definition ch_lf : N := 10%N.         (* line feed *)
Definition ch_cr : N := 13%N.         (* carriage return *)

(** [str.isspace] for one character: the code points Python treats as
    whitespace in [str.strip()]. *)
Definition isspace (c : N) : bool :=
  ((9 <=? c) && (c <=? 13) || (28 <=? c) && (c <=? 32)
   || (c =? 133) || (c =? 160) || (c =? 5760)
   || (8192 <=? c) && (c <=? 8202)
   || (c =? 8232) || (c =? 8233) || (c =? 8239) || (c =? 8287)
   || (c =? 12288))%N.

Definition str_eqb (a b : pystr) : bool := bool_decide (a = b).

Definition is_surrogate (c : N) : bool := ((55296 <=? c) && (c <=? 57343))%N.

(** The text can be encoded in UTF-8. *)
Definition encodable (s : pystr) : bool :=
  forallb (fun c => negb (is_surrogate c)) s.

(** [s.startswith(p)] *)
Fixpoint startswith (p s : pystr) : bool :=
  match p, s with
  | [], _ => true
  | _ :: _, [] => false
  | a :: p', b :: s' => (a =? b)%N && startswith p' s'
  end.

(** [s.endswith(p)] *)
Definition endswith (p s : pystr) : bool := startswith (rev p) (rev s).

(** [sub in s] *)
Fixpoint contains (sub s : pystr) : bool :=
  startswith sub s ||
  match s with
  | [] => false
  | _ :: s' => contains sub s'
  end.

(** [s.replace(old, new)] for a non-empty [old]: occurrences are taken from
    left to right and do not overlap; [skip] counts the characters of a
    matched occurrence that are still to be passed over. *)
Fixpoint replace_from (old new : pystr) (skip : nat) (s : pystr) : pystr :=
  match s with
  | [] => []
  | c :: s' =>
      match skip with
      | S k => replace_from old new k s'
      | O => if startswith old s
             then new ++ replace_from old new (length old - 1) s'
             else c :: replace_from old new 0 s'
      end
  end.

Definition replace (old new s : pystr) : pystr := replace_from old new 0 s.

(** [s.split(sep)] for a non-empty [sep]; [cur] is the part being read, in
    reverse. *)
Fixpoint split_from (sep : pystr) (skip : nat) (cur s : pystr) : list pystr :=
  match s with
  | [] => [rev cur]
  | c :: s' =>
      match skip with
      | S k => split_from sep k cur s'
      | O => if startswith sep s
             then rev cur :: split_from sep (length sep - 1) [] s'
             else split_from sep 0 (c :: cur) s'
      end
  end.

Definition split (sep s : pystr) : list pystr := split_from sep 0 [] s.

(** [s.split(sep, 1)] when [sep in s]: the text before and after the first
    occurrence; [None] when there is no occurrence (Python then returns the
    one-element list [[s]]). *)
Fixpoint split_once (sep s : pystr) : option (pystr * pystr) :=
  if startswith sep s then Some ([], drop (length sep) s)
  else match s with
       | [] => None
       | c :: s' =>
           match split_once sep s' with
           | Some (a, b) => Some (c :: a, b)
           | None => None
           end
       end.

(** [sep.join(parts)] *)
Fixpoint join (sep : pystr) (parts : list pystr) : pystr :=
  match parts with
  | [] => []
  | [p] => p
  | p :: rest => p ++ sep ++ join sep rest
  end.

(** [parts[:-1]] *)
Definition all_but_last {A} (l : list A) : list A := removelast l.

Fixpoint lstrip (s : pystr) : pystr :=
  match s with
  | c :: s' => if isspace c then lstrip s' else s
  | [] => []
  end.

Definition rstrip (s : pystr) : pystr := rev (lstrip (rev s)).

(** [s.strip()] *)
Definition strip (s : pystr) : pystr := rstrip (lstrip s).

(** Iterating a file opened in text mode ([for line in f]): universal
    newlines end a line at LF, CR or CR LF, and every line but possibly the
    last is handed over with a final LF.  [cur] is the line being read, in
    reverse; [after_cr] tells that the previous character was a CR, so that
    a following LF belongs to the same line end. *)
Fixpoint lines_from (after_cr : bool) (cur s : pystr) : list pystr :=
  match s with
  | [] => match cur with [] => [] | _ => [rev cur] end
  | c :: s' =>
      if (c =? ch_lf)%N then
        if after_cr then lines_from false cur s'
        else rev (ch_lf :: cur) :: lines_from false [] s'
      else if (c =? ch_cr)%N then
        rev (ch_lf :: cur) :: lines_from true [] s'
      else lines_from false (c :: cur) s'
  end.

Definition file_lines (content : pystr) : list pystr :=
  lines_from false [] content.


(** ** Queue items

    The queue file is JSON; an item is a JSON object, a Python [dict] with
    string keys.  The value of a key is null, a boolean, a number, a string
    or a list of such values; a float is kept as [m * 2^e].  (An object as
    the value of a key is left out; like a list it cannot be hashed.) *)

#[local] Set Warnings "-register-all".
Inductive value : Type :=
| VNone
| VBool (b : bool)
| VInt (n : Z)
| VFloat (m e : Z)
| VStr (s : pystr)
| VList (l : list value).

Abbreviation item := (gmap pystr value).

(** Python truth value ([not v] is its negation). *)
Definition truthy (v : value) : bool :=
  match v with
  | VNone => false
  | VBool b => b
  | VInt n => negb (n =? 0)
  | VFloat m _ => negb (m =? 0)
  | VStr s => match s with [] => false | _ => true end
  | VList l => match l with [] => false | _ => true end
  end.

(** [item.get(key, default)] *)
Definition dict_get (it : item) (key : pystr) (dflt : value) : value :=
  default dflt (it !! key).

(** [item.get("mbid")], where an absent key reads as [None]. *)
Definition get_mbid (it : item) : value := dict_get it (py "mbid") VNone.

(** Python cannot hash a list: [set(l)] for a list [l] that holds one, and
    [v in s] for a set [s] and a list [v], raise [TypeError]. *)
Definition hashable (v : value) : bool :=
  match v with
  | VList _ => false
  | _ => true
  end.

(** The number that a bool, an int or a float is, as [m * 2^e]. *)
Definition number_of (v : value) : option (Z * Z) :=
  match v with
  | VBool b => Some (if b then 1 else 0, 0)
  | VInt n => Some (n, 0)
  | VFloat m e => Some (m, e)
  | _ => None
  end.

Definition number_eqb (x y : Z * Z) : bool :=
  let e := Z.min (snd x) (snd y) in
  fst x * 2 ^ (snd x - e) =? fst y * 2 ^ (snd y - e).

(** [a == b]: numbers compare by value across bool, int and float, lists
    element by element, and values of different kinds are unequal. *)
Fixpoint py_eq (a b : value) : bool :=
  match a, b with
  | VNone, VNone => true
  | VStr x, VStr y => str_eqb x y
  | VList x, VList y =>
      (fix all2 (l1 l2 : list value) : bool :=
         match l1, l2 with
         | [], [] => true
         | u :: l1', v :: l2' => py_eq u v && all2 l1' l2'
         | _, _ => false
         end) x y
  | _, _ =>
      match number_of a, number_of b with
      | Some x, Some y => number_eqb x y
      | _, _ => false
      end
  end.

(** [v in mbids] for a list [mbids]: a comparison with each element, no
    hashing. *)
Definition in_list (v : value) (mbids : list value) : bool :=
  existsb (py_eq v) mbids.

(** [set(mbids)]; [None] stands for the [TypeError] of an element that
    cannot be hashed.  The set is kept as the list of its elements: only
    membership is asked of it. *)
Definition set_of (mbids : list value) : option (list value) :=
  if forallb hashable mbids then Some mbids else None.

(** [v in mbid_set]; [None] stands for the [TypeError] of a [v] that cannot
    be hashed, raised whatever the set holds.  Equal values have equal
    hashes, so a hashable [v] is a member when it equals an element. *)
Definition in_set (v : value) (mbid_set : list value) : option bool :=
  if hashable v then Some (existsb (py_eq v) mbid_set) else None.

(** ** The queue and the state of a process

    [queue] is the dict of three lists that [load_queue] returns and that
    [DEFAULT_QUEUE] is. *)

Record queue : Type := Queue {
  pending : list item;
  approved : list item;
  rejected : list pystr
}.

Definition empty_queue : queue := Queue [] [] [].

(** What pending_queue.json holds: no file, only whitespace, text that
    [json.loads] rejects, or a JSON object in which each of the three keys
    may be missing and otherwise holds a list, of objects under pending and
    approved, of strings under rejected.  (Text that is JSON of another
    shape, or bytes that are not UTF-8, make [locked_queue] or its caller
    raise; such files are not part of this type.) *)
Inductive qfile : Type :=
| FMissing
| FBlank
| FCorrupt
| FStored (p a : option (list item)) (r : option (list pystr)).

(** The state a call runs in: the module-level [DEFAULT_QUEUE] of the
    running process (a dict holding three list objects that live as long as
    the process), the queue file and the wishlist file ([None]: no file). *)
Record world : Type := World {
  DEFAULT_QUEUE : queue;
  queue_file : qfile;
  wishlist_file : option pystr
}.

Definition set_default (d : queue) (w : world) : world :=
  World d (queue_file w) (wishlist_file w).
Definition set_queue_file (f : qfile) (w : world) : world :=
  World (DEFAULT_QUEUE w) f (wishlist_file w).
Definition set_wishlist_file (c : option pystr) (w : world) : world :=
  World (DEFAULT_QUEUE w) (queue_file w) c.

(** A freshly started process: [DEFAULT_QUEUE] is as the module defines
    it. *)
Definition fresh_process (f : qfile) (wl : option pystr) : world :=
  World empty_queue f wl.

(** A list object reachable from the dict that [locked_queue] yields: either
    the very list that [DEFAULT_QUEUE] holds under the same key
    ([DEFAULT_QUEUE.copy()] is a shallow copy), or a list of its own. *)
Inductive lref (A : Type) : Type :=
| Shared
| Own (l : list A).
Arguments Shared {A}.
Arguments Own {A} l.

Record qdict : Type := QDict {
  q_pending : lref item;
  q_approved : lref item;
  q_rejected : lref pystr
}.

Definition deref {A} (shared : list A) (r : lref A) : list A :=
  match r with
  | Shared => shared
  | Own l => l
  end.

(** [lst.append(x)] through a reference: appending to a shared list changes
    the list of [DEFAULT_QUEUE]. *)
Definition list_append {A} (r : lref A) (shared : list A) (x : A)
  : lref A * list A :=
  match r with
  | Shared => (Shared, shared ++ [x])
  | Own l => (Own (l ++ [x]), shared)
  end.

(** [DEFAULT_QUEUE.copy()] *)
Definition default_copy : qdict := QDict Shared Shared Shared.

(** The lists a dict denotes, given the lists of [DEFAULT_QUEUE]. *)
Definition resolve (d : queue) (q : qdict) : queue :=
  Queue (deref (pending d) (q_pending q))
        (deref (approved d) (q_approved q))
        (deref (rejected d) (q_rejected q)).

(** [json.dumps(queue)] *)
Definition json_dumps (d : queue) (q : qdict) : qfile :=
  let v := resolve d q in
  FStored (Some (pending v)) (Some (approved v)) (Some (rejected v)).

(** [json.loads(content)] followed by the loop that adds the missing keys
    with an empty list. *)
Definition json_loads_filled (p a : option (list item))
  (r : option (list pystr)) : qdict :=
  QDict (Own (default [] p)) (Own (default [] a)) (Own (default [] r)).

Inductive outcome (R : Type) : Type :=
| Ret (r : R)
| Raised.
Arguments Ret {R} r.
Arguments Raised {R}.

Inductive lock_mode : Type := ModeR | ModeW.

(** [with locked_queue(mode) as queue: body].  The body gets the dict and
    may change it, the lists of [DEFAULT_QUEUE] and the files; when it ends
    without an exception (also by [return]) and the mode is ['w'], the dict
    is written back.  An exception of the body leaves the file as it was.
    (The [FileNotFoundError] branch needs the file to vanish between the
    existence test and [open]; a single process never gets there.) *)
Definition locked_queue {R} (mode : lock_mode)
  (body : qdict -> world -> outcome R * qdict * world) (w : world)
  : outcome R * world :=
  let w1 :=
    match queue_file w with
    | FMissing => set_queue_file (json_dumps (DEFAULT_QUEUE w) default_copy) w
    | _ => w
    end in
  let q :=
    match queue_file w1 with
    | FStored p a r => json_loads_filled p a r
    | _ => default_copy
    end in
  let '(res, q', w2) := body q w1 in
  match res, mode with
  | Ret _, ModeW =>
      (res, set_queue_file (json_dumps (DEFAULT_QUEUE w2) q') w2)
  | _, _ => (res, w2)
  end.

Definition load_queue (w : world) : outcome queue * world :=
  locked_queue ModeR
    (fun q w => (Ret (resolve (DEFAULT_QUEUE w) q), q, w)) w.

Definition add_pending (entry : item) (w : world) : outcome unit * world :=
  locked_queue ModeW
    (fun q w =>
       let d := DEFAULT_QUEUE w in
       let '(r, sh) := list_append (q_pending q) (pending d) entry in
       (Ret tt,
        QDict r (q_approved q) (q_rejected q),
        set_default (Queue sh (approved d) (rejected d)) w)) w.

(** A [for] loop whose body may raise: whether the loop ended by an
    exception, and the state it ended in (after an exception, the state
    before the round that raised). *)
Fixpoint for_loop {St A : Type} (body : St -> A -> outcome St) (l : list A)
  (st : St) : outcome unit * St :=
  match l with
  | [] => (Ret tt, st)
  | x :: l' =>
      match body st x with
      | Ret st' => for_loop body l' st'
      | Raised => (Raised, st)
      end
  end.

(** A block under [with locked_queue(...)] that works on the dict and on
    the lists of [DEFAULT_QUEUE] only. *)
Definition on_dict {R} (block : qdict -> queue -> outcome R * qdict * queue)
  (q : qdict) (w : world) : outcome R * qdict * world :=
  let '(res, q', d') := block q (DEFAULT_QUEUE w) in
  (res, q', set_default d' w).

(** One round of the loop of [approve_items]: [ar] is the list object
    [approved], [ash] the list of [DEFAULT_QUEUE] it may be.  The membership
    test comes first and raises for an item whose mbid is a list. *)
Definition approve_step (mbid_set : list value)
  (st : lref item * list item * nat * list item) (it : item)
  : outcome (lref item * list item * nat * list item) :=
  let '(ar, ash, approved_count, new_pending) := st in
  match in_set (get_mbid it) mbid_set with
  | None => Raised
  | Some true =>
      let '(ar', ash') := list_append ar ash it in
      Ret (ar', ash', S approved_count, new_pending)
  | Some false => Ret (ar, ash, approved_count, new_pending ++ [it])
  end.

(** The block of [approve_items].  When the loop raises, the two
    assignments to the dict are not reached; what was appended to
    [approved] before stays appended. *)
Definition approve_block (mbid_set : list value) (q : qdict) (d : queue)
  : outcome nat * qdict * queue :=
  let '(res, (ar, ash, approved_count, new_pending)) :=
    for_loop (approve_step mbid_set)
      (deref (pending d) (q_pending q))
      (q_approved q, approved d, O, []) in
  let d' := Queue (pending d) ash (rejected d) in
  match res with
  | Ret _ =>
      (Ret approved_count, QDict (Own new_pending) ar (q_rejected q), d')
  | Raised => (Raised, q, d')
  end.

(** [approve_items(mbids)].  The review API passes a list of strings,
    [approve_all] whatever the pending items hold under mbid. *)
Definition approve_items (mbids : list value) (w : world)
  : outcome nat * world :=
  match set_of mbids with
  | None => (Raised, w)
  | Some mbid_set => locked_queue ModeW (on_dict (approve_block mbid_set)) w
  end.

(** One round of the loop of [reject_items].  [mbid_set] is a set of
    strings ([mbids] is the list of [str] of a RejectRequest): a string is a
    member or not, a list cannot be hashed, and a value of another kind is
    hashable and equal to no string. *)
Definition reject_step (mbid_set : gset pystr)
  (st : gset pystr * nat * list item) (it : item)
  : outcome (gset pystr * nat * list item) :=
  let '(rej, rejected_count, new_pending) := st in
  match get_mbid it with
  | VStr item_mbid =>
      if bool_decide (item_mbid ∈ mbid_set)
      then Ret (rej ∪ {[item_mbid]}, S rejected_count, new_pending)
      else Ret (rej, rejected_count, new_pending ++ [it])
  | VList _ => Raised
  | _ => Ret (rej, rejected_count, new_pending ++ [it])
  end.

(** The block of [reject_items].  [list(rejected)] lists a set in an order
    Python does not specify; [elements] is one such order. *)
Definition reject_block (mbid_set : gset pystr) (q : qdict) (d : queue)
  : outcome nat * qdict * queue :=
  let '(res, (rej, rejected_count, new_pending)) :=
    for_loop (reject_step mbid_set)
      (deref (pending d) (q_pending q))
      (list_to_set (deref (rejected d) (q_rejected q)), O, []) in
  match res with
  | Ret _ =>
      (Ret rejected_count,
       QDict (Own new_pending) (q_approved q) (Own (elements rej)), d)
  | Raised => (Raised, q, d)
  end.

Definition reject_items (mbids : list pystr) (w : world)
  : outcome nat * world :=
  let mbid_set : gset pystr := list_to_set mbids in
  locked_queue ModeW (on_dict (reject_block mbid_set)) w.

Definition get_rejected_mbids (w : world) : outcome (gset pystr) * world :=
  locked_queue ModeR
    (fun q w =>
       (Ret (list_to_set (deref (rejected (DEFAULT_QUEUE w)) (q_rejected q))),
        q, w)) w.

(** ** The wishlist file (wishlist.py) *)

(** [_escape_quotes] *)
Definition _escape_quotes (text : pystr) : pystr :=
  replace [ch_quote] [ch_backslash; ch_quote] text.

(** The line both writers build:
    [prefix + quote + artist_escaped + ' - ' + title_escaped + quote + LF]. *)
Definition wishlist_line (artist title : pystr) (is_album : bool) : pystr :=
  let artist_escaped := _escape_quotes artist in
  let title_escaped := _escape_quotes title in
  let prefix := if is_album then py "a:" else [] in
  prefix ++ [ch_quote] ++ artist_escaped ++ py " - " ++ title_escaped
         ++ [ch_quote] ++ [ch_lf].

(** [open(wishlist_path, 'a')] under [locked_wishlist('a')]: opening for
    append creates a missing file. *)
Definition open_append (w : world) : world :=
  set_wishlist_file (Some (default [] (wishlist_file w))) w.

(** [f.write(line)] on the file opened for append.  The line is encoded as
    a whole before any of it is buffered: a line that cannot be encoded
    raises [UnicodeEncodeError] and adds nothing.  What was written before
    reaches the file when the [with] block is left, also by an exception. *)
Definition wishlist_write (line : pystr) (w : world) : outcome unit * world :=
  if encodable line
  then (Ret tt,
        set_wishlist_file (Some (default [] (wishlist_file w) ++ line)) w)
  else (Raised, w).

Definition append_to_wishlist (artist title : pystr) (is_album : bool)
  (w : world) : outcome unit * world :=
  wishlist_write (wishlist_line artist title is_album) (open_append w).

(** What the loop of [process_approved_to_wishlist] does with one item.  An
    item whose artist or title is falsy is skipped; [_escape_quotes] calls
    [text.replace], which only a [str] has, so a truthy value of another
    type raises [AttributeError]. *)
Inductive item_action : Type :=
| Skip
| WriteLine (line : pystr)
| Fail.

Definition item_line (it : item) : item_action :=
  let artist := dict_get it (py "artist") (VStr []) in
  let '(title, is_album) :=
    match it !! py "album" with
    | Some t => (t, true)
    | None => (dict_get it (py "title") (VStr []), false)
    end in
  if negb (truthy artist) || negb (truthy title) then Skip
  else match artist, title with
       | VStr a, VStr t => WriteLine (wishlist_line a t is_album)
       | _, _ => Fail
       end.

(** The loop itself; an exception ends it, the lines written so far staying
    in the file. *)
Fixpoint process_items (approved_items : list item) (count : nat)
  (w : world) : outcome nat * world :=
  match approved_items with
  | [] => (Ret count, w)
  | it :: rest =>
      match item_line it with
      | Skip => process_items rest count w
      | WriteLine line =>
          match wishlist_write line w with
          | (Ret _, w') => process_items rest (S count) w'
          | (Raised, w') => (Raised, w')
          end
      | Fail => (Raised, w)
      end
  end.

Definition process_approved_to_wishlist (approved_items : list item)
  (w : world) : outcome nat * world :=
  match approved_items with
  | [] => (Ret O, w)
  | _ => process_items approved_items O (open_append w)
  end.

(** ** The review service (queue_manager.py) and the drain (lb_fetch.py) *)

(** Sequencing of two calls: an exception of the first is the result. *)
Definition bind {A B} (m : outcome A * world)
  (k : A -> world -> outcome B * world) : outcome B * world :=
  match m with
  | (Ret a, w) => k a w
  | (Raised, w) => (Raised, w)
  end.

(** [QueueManager.approve] *)
Definition QueueManager_approve (mbids : list value) (w : world)
  : outcome nat * world :=
  bind (load_queue w) (fun queue w =>
  let to_approve :=
    List.filter (fun i => in_list (get_mbid i) mbids) (pending queue) in
  bind (approve_items mbids w) (fun count w =>
  if (0 <? count)%nat
  then bind (process_approved_to_wishlist to_approve w)
            (fun _ w => (Ret count, w))
  else (Ret count, w))).

(** [process_approved_queue] *)
Definition process_approved_queue (w : world) : outcome nat * world :=
  locked_queue ModeW
    (fun q w =>
       let approved_l := deref (approved (DEFAULT_QUEUE w)) (q_approved q) in
       match approved_l with
       | [] => (Ret O, q, w)
       | _ =>
           match process_approved_to_wishlist approved_l w with
           | (Ret count, w') =>
               (Ret count, QDict (q_pending q) (Own []) (q_rejected q), w')
           | (Raised, w') => (Raised, q, w')
           end
       end) w.

(** ** The downloader (slskd_downloader.py) *)

(** The dict that [parse_wishlist] builds for a line. *)
Record wl_item : Type := WlItem {
  wl_artist : pystr;
  wl_title : pystr;
  wl_is_album : bool;
  wl_raw : pystr
}.

(** [line[1:-1]] *)
Definition slice_1_m1 (line : pystr) : pystr := removelast (drop 1 line).

(** The body of the loop of [parse_wishlist] for one line of the file:
    [None] when the line adds no item. *)
Definition parse_line (line0 : pystr) : option wl_item :=
  let line := strip line0 in
  match line with
  | [] => None
  | _ =>
      let is_album := startswith (py "a:") line in
      let line := if is_album then drop 2 line else line in
      let line :=
        if startswith [ch_quote] line && endswith [ch_quote] line
        then slice_1_m1 line else line in
      let line := replace [ch_backslash; ch_quote] [ch_quote] line in
      if contains (py " - ") line then
        match split_once (py " - ") line with
        | Some (artist, title) =>
            Some (WlItem (strip artist) (strip title) is_album line)
        | None => None
        end
      else None
  end.

Definition parse_wishlist (w : world) : list wl_item :=
  match wishlist_file w with
  | None => []
  | Some content => omap parse_line (file_lines content)
  end.

(** The loop of [main] over the parsed items.  What the search and the
    transfer request of the [i]-th item give is outside the program:
    [attempt i item] tells whether a download was queued for it.  The loop
    returns the downloaded set, [queued_count] and the items it searched
    for, with their positions. *)
Fixpoint download_loop (attempt : nat -> wl_item -> bool) (i : nat)
  (items : list wl_item) (downloaded : gset pystr) (queued_count : nat)
  (searched : list (nat * wl_item))
  : gset pystr * nat * list (nat * wl_item) :=
  match items with
  | [] => (downloaded, queued_count, searched)
  | it :: rest =>
      let key := wl_raw it in
      if bool_decide (key ∈ downloaded)
      then download_loop attempt (S i) rest downloaded queued_count searched
      else if attempt i it
      then download_loop attempt (S i) rest (downloaded ∪ {[key]})
             (S queued_count) (searched ++ [(i, it)])
      else download_loop attempt (S i) rest downloaded queued_count
             (searched ++ [(i, it)])
  end.

Definition main_loop (attempt : nat -> wl_item -> bool) (w : world)
  (downloaded : gset pystr) : gset pystr * nat * list (nat * wl_item) :=
  download_loop attempt O (parse_wishlist w) downloaded O [].

(** *** The album scorer ([search_album], from the responses on)

    A search response and its files, each key read with the default the
    code gives to [get]. *)
Record sfile : Type := SFile {
  filename : pystr;
  size : Z
}.

Record response : Type := Response {
  username : pystr;
  files : list sfile;
  uploadSpeed : Z;
  hasFreeUploadSlot : bool
}.

Record best_match : Type := BestMatch {
  bm_username : pystr;
  bm_directory : pystr;
  bm_files : list sfile;
  bm_all_files : list sfile;
  bm_score : Z
}.

(** The directory of a file: the path up to its last separator. *)
Definition dir_of (filepath : pystr) : pystr :=
  if contains [ch_backslash] filepath
  then join [ch_backslash] (all_but_last (split [ch_backslash] filepath))
  else join [ch_slash] (all_but_last (split [ch_slash] filepath)).

(** [directories[dir_path].append(f)], with a new empty list for a new key;
    a dict keeps its keys in the order of their first insertion. *)
Fixpoint dir_add (directories : list (pystr * list sfile)) (dir_path : pystr)
  (f : sfile) : list (pystr * list sfile) :=
  match directories with
  | [] => [(dir_path, [f])]
  | (k, fs) :: rest =>
      if str_eqb k dir_path then (k, fs ++ [f]) :: rest
      else (k, fs) :: dir_add rest dir_path f
  end.

Definition group_by_directory (fs : list sfile) : list (pystr * list sfile) :=
  fold_left (fun dirs f => dir_add dirs (dir_of (filename f)) f) fs [].

Definition album_extensions : list pystr :=
  [py ".mp3"; py ".flac"; py ".m4a"; py ".ogg"; py ".wav"].

Section Scorer.

(** [str.lower] follows the Unicode case tables, which the program does not
    contain: the scorer is modelled for any lowering function. *)
Variable lower : pystr -> pystr.

Variables artist album : pystr.
Variable min_files : Z.

Definition is_audio (f : sfile) : bool :=
  existsb (fun ext => endswith ext (lower (filename f))) album_extensions.

Definition is_flac (f : sfile) : bool :=
  endswith (py ".flac") (lower (filename f)).

(** Lines 149 to 173: the score of one directory. *)
Definition directory_score (resp : response) (dir_path : pystr)
  (audio_files : list sfile) : Z :=
  let score := 0 in
  let score := score + Z.of_nat (length audio_files) * 10 in
  let flac_count := Z.of_nat (length (List.filter is_flac audio_files)) in
  let score := score + flac_count * 5 in
  let dir_lower := lower dir_path in
  let score := if contains (lower artist) dir_lower then score + 50 else score in
  let score := if contains (lower album) dir_lower then score + 50 else score in
  let upload_speed := uploadSpeed resp in
  let score := if 1000000 <? upload_speed then score + 20 else score in
  let score := if hasFreeUploadSlot resp then score + 30 else score in
  score.

(** The body of the inner loop; the state is [(best_match, best_score)]. *)
Definition directory_step (resp : response)
  (st : option best_match * Z) (d : pystr * list sfile)
  : option best_match * Z :=
  let '(dir_path, dir_files) := d in
  let audio_files := List.filter is_audio dir_files in
  if Z.of_nat (length audio_files) <? min_files then st
  else
    let score := directory_score resp dir_path audio_files in
    if snd st <? score
    then (Some (BestMatch (username resp) dir_path audio_files dir_files score),
          score)
    else st.

(** The body of the outer loop. *)
Definition response_step (st : option best_match * Z) (resp : response)
  : option best_match * Z :=
  match files resp with
  | [] => st
  | fs => fold_left (directory_step resp) (group_by_directory fs) st
  end.

(** [search_album], given the responses that the search returned. *)
Definition search_album (responses : list response) : option best_match :=
  match responses with
  | [] => None
  | _ => fst (fold_left response_step responses (None, 0))
  end.

(** The directories the two loops visit, in the order of the visit, with
    the response each belongs to: the ones that pass the test on
    [min_files] are the surviving ones. *)
Definition visited (responses : list response)
  : list (response * (pystr * list sfile)) :=
  flat_map (fun resp => map (pair resp) (group_by_directory (files resp)))
           responses.

Definition survives (c : response * (pystr * list sfile)) : bool :=
  negb (Z.of_nat (length (List.filter is_audio (snd (snd c)))) <? min_files).

Definition surviving (responses : list response)
  : list (response * (pystr * list sfile)) :=
  List.filter survives (visited responses).

Definition score_of (c : response * (pystr * list sfile)) : Z :=
  directory_score (fst c) (fst (snd c)) (List.filter is_audio (snd (snd c))).

Definition match_of (c : response * (pystr * list sfile)) : best_match :=
  BestMatch (username (fst c)) (fst (snd c))
            (List.filter is_audio (snd (snd c))) (snd (snd c)) (score_of c).

(** One visit of the two loops, as a step over the visited directories. *)
Definition candidate_step (st : option best_match * Z)
  (c : response * (pystr * list sfile)) : option best_match * Z :=
  directory_step (fst c) st (snd c).

(** The closed form of the score that the specification gives. *)
Definition score_formula (c : response * (pystr * list sfile)) : Z :=
  let audio_files := List.filter is_audio (snd (snd c)) in
  let dir_lower := lower (fst (snd c)) in
  10 * Z.of_nat (length audio_files)
  + 5 * Z.of_nat (length (List.filter is_flac audio_files))
  + (if contains (lower artist) dir_lower then 50 else 0)
  + (if contains (lower album) dir_lower then 50 else 0)
  + (if 1000000 <? uploadSpeed (fst c) then 20 else 0)
  + (if hasFreeUploadSlot (fst c) then 30 else 0).

End Scorer.

(** [str.lower] on the ASCII letters, for the examples. *)
Definition ascii_lower (s : pystr) : pystr :=
  map (fun c => if ((65 <=? c) && (c <=? 90))%N then (c + 32)%N else c) s.

(** ** Notions used to state the properties *)

(** The unescaping and the separator of [parse_wishlist]. *)
Abbreviation unescape := (replace [ch_backslash; ch_quote] [ch_quote]).
Abbreviation sep := (py " - ").

(** The queue that a [load_queue] in state [w] returns. *)
Definition current_queue (w : world) : queue :=
  match queue_file w with
  | FStored p a r => Queue (default [] p) (default [] a) (default [] r)
  | _ => DEFAULT_QUEUE w
  end.

(** The item carries the mbid [m]. *)
Definition has_mbid (m : pystr) (it : item) : Prop := get_mbid it = VStr m.

(** The item carries an mbid of the set of strings [s]. *)
Definition mbid_in (s : gset pystr) (it : item) : bool :=
  match get_mbid it with
  | VStr m => bool_decide (m ∈ s)
  | _ => false
  end.

(** Every item of the list has a hashable mbid: none, null, a boolean, a
    number or a string, and not a list. *)
Definition mbids_hashable (l : list item) : bool :=
  forallb (fun it => hashable (get_mbid it)) l.

(** The loop of [process_approved_to_wishlist] passes the item: it skips
    it, or writes a line that can be encoded. *)
Definition writable (it : item) : bool :=
  match item_line it with
  | Skip => true
  | WriteLine line => encodable line
  | Fail => false
  end.

(** The text of a wishlist line once decoded: the line stripped, its album
    prefix and surrounding quotes taken off, its escapes undone. *)
Definition decoded_text (line0 : pystr) : pystr :=
  let line := strip line0 in
  let line := if startswith (py "a:") line then drop 2 line else line in
  let line :=
    if startswith [ch_quote] line && endswith [ch_quote] line
    then slice_1_m1 line else line in
  unescape line.

(** The lines that the loop of [process_approved_to_wishlist] writes for a
    list of items, and their number. *)
Definition lines_of (items : list item) : pystr :=
  flat_map (fun it => match item_line it with
                      | WriteLine line => line
                      | _ => []
                      end) items.

Definition written_count (items : list item) : nat :=
  length (List.filter (fun it => match item_line it with
                                 | WriteLine _ => true
                                 | _ => false
                                 end) items).

(** The text holds no line feed and no carriage return. *)
Definition no_line_break (s : pystr) : bool :=
  forallb (fun c => negb ((c =? ch_lf) || (c =? ch_cr))%N) s.

(** The mbids, where they are strings, of a list of items. *)
Definition str_mbids (l : list item) : list pystr :=
  omap (fun it => match get_mbid it with VStr m => Some m | _ => None end) l.

(** Several appends through one reference. *)
Definition list_extend {A} (r : lref A) (shared : list A) (xs : list A)
  : lref A * list A :=
  match r with
  | Shared => (Shared, shared ++ xs)
  | Own l => (Own (l ++ xs), shared)
  end.

(** The queue operations of a producer and of the review step. *)
Inductive queue_op : Type :=
| OpAddPending (entry : item)
| OpApprove (mbids : list pystr)
| OpReject (mbids : list pystr).

Definition run_op (o : queue_op) (w : world) : world :=
  match o with
  | OpAddPending entry => snd (add_pending entry w)
  | OpApprove mbids => snd (approve_items (map VStr mbids) w)
  | OpReject mbids => snd (reject_items mbids w)
  end.

Definition run_ops (ops : list queue_op) (w : world) : world :=
  fold_left (fun w o => run_op o w) ops w.

(** No mbid is carried both by a pending and by an approved item. *)
Definition pending_approved_disjoint (q : queue) : Prop :=
  forall m x y, x ∈ pending q -> y ∈ approved q ->
                has_mbid m x -> has_mbid m y -> False.

(** What a sequence of operations keeps: no mbid both pending and approved, and a
    stored file unless nothing is pending. *)
Definition disjoint_and_stored (w : world) : Prop :=
  pending_approved_disjoint (current_queue w)
  /\ ((exists p a r, queue_file w = FStored p a r)
      \/ pending (current_queue w) = []).

(** Every [add_pending] of the sequence is given an entry whose mbid is not
    the mbid of an item approved at that moment. *)
Fixpoint adds_guarded (ops : list queue_op) (w : world) : Prop :=
  match ops with
  | [] => True
  | o :: rest =>
      match o with
      | OpAddPending entry =>
          forall m y, has_mbid m entry ->
                      y ∈ approved (current_queue w) -> ~ has_mbid m y
      | _ => True
      end /\ adds_guarded rest (run_op o w)
  end.

(** ** Further functions of the sources *)

(** *** The rest of the review service (queue_manager.py) *)

(** [QueueManager.reject] *)
Definition QueueManager_reject (mbids : list pystr) (w : world)
  : outcome nat * world :=
  reject_items mbids w.

(** The dict of three counts that [QueueManager.get_stats] returns. *)
Record stats : Type := Stats {
  st_pending : nat;
  st_approved : nat;
  st_rejected : nat
}.

(** [QueueManager.get_stats] *)
Definition QueueManager_get_stats (w : world) : outcome stats * world :=
  bind (load_queue w) (fun queue w =>
  (Ret (Stats (length (pending queue)) (length (approved queue))
              (length (rejected queue))), w)).

(** [i.get("mbid") for i in queue["pending"] if i.get("mbid")]: the
    values under mbid that are truthy, of whatever kind. *)
Definition truthy_mbids (l : list item) : list value :=
  List.filter truthy (map get_mbid l).

(** [QueueManager.approve_all] *)
Definition QueueManager_approve_all (w : world) : outcome nat * world :=
  bind (load_queue w) (fun queue w =>
  let mbids := truthy_mbids (pending queue) in
  QueueManager_approve mbids w).

(** The item carries a truthy value under mbid. *)
Definition has_truthy_mbid (it : item) : bool := truthy (get_mbid it).

(** The text is empty or ends with a line feed. *)
Definition lf_terminated (content : pystr) : bool :=
  match rev content with
  | [] => true
  | c :: _ => (c =? ch_lf)%N
  end.

(** The file lies in the directory [dir_path]. *)
Definition file_in_dir (dir_path : pystr) (f : sfile) : bool :=
  str_eqb dir_path (dir_of (filename f)).

(** The dict [directories] after the files [l] have been put in: its keys
    are distinct, each key holds the files of [l] that lie in it, in their
    order, and every file of [l] has its key. *)
Definition groups_ok (dirs : list (pystr * list sfile)) (l : list sfile)
  : Prop :=
  NoDup (map fst dirs)
  /\ (forall k fs, (k, fs) ∈ dirs ->
        fs = List.filter (file_in_dir k) l /\ fs <> [])
  /\ (forall f, f ∈ l -> dir_of (filename f) ∈ map fst dirs).

(** *** The downloaded set on disk (slskd_downloader.py) *)






(** *** The authentication middleware (api/middleware/auth.py) *)

(** The [type] of [AuthSettings]; pydantic admits these three literals and
    [None]. *)
Inductive auth_kind : Type := Basic | ApiKey | Proxy.

(** [AuthSettings] (api/config.py) *)
Record AuthSettings : Type := {
  auth_enabled : bool;
  auth_type : option auth_kind;
  auth_username : option pystr;
  auth_password : option pystr;
  auth_api_key : option pystr
}.

(** What [dispatch] reads of a request: the path and three headers, each
    absent or with its value. *)
Record request : Type := {
  url_path : pystr;
  h_authorization : option pystr;
  h_x_api_key : option pystr;
  h_remote_user : option pystr
}.

Definition EXCLUDED_PATHS : list pystr :=
  [py "/health"; py "/docs"; py "/openapi.json"; py "/redoc"].

(** [request.headers.get(name, <empty string>)] *)
Definition header_get (h : option pystr) : pystr := default [] h.

(** [value or <empty string>] *)
Definition or_empty (v : option pystr) : pystr :=
  match v with
  | Some (c :: s) => c :: s
  | _ => []
  end.

Definition is_ascii (s : pystr) : bool := forallb (fun c => (c <? 128)%N) s.

(** [secrets.compare_digest] on two [str]: a [TypeError] ([None]) unless
    both are ASCII. *)
Definition compare_digest (a b : pystr) : option bool :=
  if is_ascii a && is_ascii b then Some (str_eqb a b) else None.

(** The 401 response: its status and its WWW-Authenticate header.  The
    JSON body is the same in every response. *)
Record json_response : Type := {
  status_code : Z;
  www_authenticate : option pystr
}.

Definition _unauthorized_response (scheme : option pystr) : json_response :=
  {| status_code := 401;
     www_authenticate :=
       match scheme with
       | Some (c :: s) => Some (c :: s)
       | _ => None
       end |}.

(** What [dispatch] does with a request: hand it on, answer it, or let the
    [TypeError] of [compare_digest] escape. *)
Inductive dispatched : Type :=
| CallNext
| Respond (r : json_response)
| TypeError.

Section Auth.

(** [base64.b64decode(encoded).decode(utf-8)]; [None] is the [ValueError]
    or [UnicodeDecodeError] that [_validate_basic_auth] catches. *)
Variable b64decode_utf8 : pystr -> option pystr.

(** The validators return [None] where the [TypeError] escapes. *)
Definition _validate_basic_auth (s : AuthSettings) (r : request)
  : option bool :=
  let auth_header := header_get (h_authorization r) in
  if negb (startswith (py "Basic ") auth_header) then Some false
  else
    let encoded := drop 6 auth_header in
    match b64decode_utf8 encoded with
    | None => Some false
    | Some decoded =>
        match split_once (py ":") decoded with
        | None => Some false
        | Some (username, password) =>
            let expected_username := or_empty (auth_username s) in
            let expected_password := or_empty (auth_password s) in
            match compare_digest username expected_username with
            | None => None
            | Some username_valid =>
                match compare_digest password expected_password with
                | None => None
                | Some password_valid =>
                    Some (username_valid && password_valid)
                end
            end
        end
    end.

Definition _validate_api_key_auth (s : AuthSettings) (r : request)
  : option bool :=
  let expected_key := or_empty (auth_api_key s) in
  let auth_header := header_get (h_authorization r) in
  let check_header :=
    let api_key_header := header_get (h_x_api_key r) in
    match api_key_header with
    | [] => Some false
    | _ :: _ =>
        match compare_digest api_key_header expected_key with
        | None => None
        | Some true => Some true
        | Some false => Some false
        end
    end in
  if startswith (py "Bearer ") auth_header
  then match compare_digest (drop 7 auth_header) expected_key with
       | None => None
       | Some true => Some true
       | Some false => check_header
       end
  else check_header.

Definition _validate_proxy_auth (r : request) : option bool :=
  match header_get (h_remote_user r) with
  | [] => Some false
  | _ :: _ => Some true
  end.

Definition guard (valid : option bool) (scheme : option pystr) : dispatched :=
  match valid with
  | None => TypeError
  | Some true => CallNext
  | Some false => Respond (_unauthorized_response scheme)
  end.

Definition dispatch (s : AuthSettings) (r : request) : dispatched :=
  if bool_decide (url_path r ∈ EXCLUDED_PATHS) then CallNext
  else if negb (startswith (py "/api/") (url_path r)) then CallNext
  else if negb (auth_enabled s) then CallNext
  else match auth_type s with
       | Some Basic => guard (_validate_basic_auth s r) (Some (py "Basic"))
       | Some ApiKey => guard (_validate_api_key_auth s r) (Some (py "Bearer"))
       | Some Proxy => guard (_validate_proxy_auth r) None
       | None => CallNext
       end.

End Auth.

(** *** Two processes on one queue file (queue.py, [locked_queue])

    [with locked_queue('w') as queue: block] does, in this order:
    [open(queue_path, 'r+')]; [flock(LOCK_EX)]; [f.read()] and the parsing;
    the block; [f.seek(0)] and [f.truncate()], which empties the file at
    once; [json.dump(queue, f)], which goes to the write buffer of the file
    object; [flock(LOCK_UN)]; and, on leaving [with open(...)], the close
    of the file, which is what writes the buffer to the file, at the
    position 0 the file object stands at.  The steps below are the ones
    that touch the file or the lock; what a process does in between is its
    own and joins the step before.  The JSON text of a queue is taken to
    fit the write buffer (8192 bytes); a longer text reaches the file in
    part during [json.dump] and the rest at the close. *)

(** The text of the file, kept by what wrote it: nothing, the JSON text of
    a queue, or the JSON text of a queue written from position 0 over a
    text that was there. *)
Inductive ftext : Type :=
| TEmpty
| TDump (q : queue)
| TOver (q : queue) (below : ftext).

(** A write at position 0 of the text buffered for [q]. *)
Definition write_at_start (q : queue) (t : ftext) : ftext :=
  match t with
  | TEmpty => TDump q
  | _ => TOver q t
  end.

(** The dict that [locked_queue] yields for a file content. *)
Definition read_queue (f : qfile) : qdict :=
  match f with
  | FStored p a r => json_loads_filled p a r
  | _ => default_copy
  end.

Inductive pid : Type := P1 | P2.

(** Where a process stands in [with locked_queue('w') as queue: block]. *)
Inductive stage : Type :=
| AtOpen
| AtLock
| AtRead
| AtTruncate (q : qdict) (count : nat)
| AtUnlock (buffered : queue) (count : nat)
| AtClose (buffered : queue) (count : nat)
| Finished (res : outcome nat).

(** A process: the block it runs, its [DEFAULT_QUEUE], where it stands. *)
Record process : Type := Process {
  p_block : qdict -> queue -> outcome nat * qdict * queue;
  p_default : queue;
  p_stage : stage
}.

Record system : Type := System {
  disk : ftext;
  lock_holder : option pid;
  proc1 : process;
  proc2 : process
}.

Definition get_proc (i : pid) (s : system) : process :=
  match i with
  | P1 => proc1 s
  | P2 => proc2 s
  end.

Definition set_proc (i : pid) (p : process) (s : system) : system :=
  match i with
  | P1 => System (disk s) (lock_holder s) p (proc2 s)
  | P2 => System (disk s) (lock_holder s) (proc1 s) p
  end.

Definition at_stage (st : stage) (p : process) : process :=
  Process (p_block p) (p_default p) st.

Section Interleaving.

(** What the file reads as when one JSON text has been written over
    another, which depends on the two texts; it is left open. *)
Variable overlaid : queue -> ftext -> qfile.

Definition file_of_text (t : ftext) : qfile :=
  match t with
  | TEmpty => FBlank
  | TDump q => FStored (Some (pending q)) (Some (approved q))
                       (Some (rejected q))
  | TOver q below => overlaid q below
  end.

(** One step of process [i]; [None] when it cannot move: it waits for the
    lock, or it has finished.  An exception of the block leaves the
    [with open(...)] block at once: the file is closed, which also gives
    the lock back, and nothing is written. *)
Definition step (i : pid) (s : system) : option system :=
  let p := get_proc i s in
  match p_stage p with
  | AtOpen => Some (set_proc i (at_stage AtLock p) s)
  | AtLock =>
      match lock_holder s with
      | Some _ => None
      | None =>
          Some (set_proc i (at_stage AtRead p)
                  (System (disk s) (Some i) (proc1 s) (proc2 s)))
      end
  | AtRead =>
      let q := read_queue (file_of_text (disk s)) in
      match p_block p q (p_default p) with
      | (Ret count, q', d') =>
          Some (set_proc i (Process (p_block p) d' (AtTruncate q' count)) s)
      | (Raised, _, d') =>
          Some (set_proc i (Process (p_block p) d' (Finished Raised))
                  (System (disk s) None (proc1 s) (proc2 s)))
      end
  | AtTruncate q count =>
      Some (set_proc i
              (at_stage (AtUnlock (resolve (p_default p) q) count) p)
              (System TEmpty (lock_holder s) (proc1 s) (proc2 s)))
  | AtUnlock buffered count =>
      Some (set_proc i (at_stage (AtClose buffered count) p)
              (System (disk s) None (proc1 s) (proc2 s)))
  | AtClose buffered count =>
      Some (set_proc i (at_stage (Finished (Ret count)) p)
              (System (write_at_start buffered (disk s)) (lock_holder s)
                      (proc1 s) (proc2 s)))
  | Finished _ => None
  end.

(** A schedule names the process that moves next; it runs when each named
    process can move at its turn. *)
Fixpoint run (schedule : list pid) (s : system) : option system :=
  match schedule with
  | [] => Some s
  | i :: rest =>
      match step i s with
      | Some s' => run rest s'
      | None => None
      end
  end.

End Interleaving.

(** [approve_items(mbids)] and [reject_items(mbids)] for lists of strings,
    as processes about to enter [locked_queue]. *)
Definition approving (mbids : list pystr) (d : queue) : process :=
  Process (approve_block (map VStr mbids)) d AtOpen.

Definition rejecting (mbids : list pystr) (d : queue) : process :=
  Process (reject_block (list_to_set mbids)) d AtOpen.

(** The first process runs up to its release of the lock; the second
    opens, locks, reads the emptied file and runs its block; the first
    closes; the second truncates, releases the lock and closes. *)
Definition stale_read_schedule : list pid :=
  [P1; P1; P1; P1; P1; P2; P2; P2; P1; P2; P2; P2].

(** Each process runs from its [open] to its close without the other
    moving. *)
Definition first_then_second : list pid :=
  [P1; P1; P1; P1; P1; P1; P2; P2; P2; P2; P2; P2].

Definition second_then_first : list pid :=
  [P2; P2; P2; P2; P2; P2; P1; P1; P1; P1; P1; P1].

(** ** Data of the examples *)

(** An item without a title, and an album item. *)
Definition low_item : item :=
  {[ py "mbid" := VStr (py "m1"); py "artist" := VStr (py "Low") ]}.

Definition trust_item : item :=
  {[ py "mbid" := VStr (py "m1"); py "artist" := VStr (py "Low");
     py "album" := VStr (py "Trust") ]}.

Definition guns_n_roses : pystr := py "Guns N" ++ [ch_quote] ++ py " Roses".

Definition radiohead_line : pystr :=
  py "a:" ++ [ch_quote] ++ py "Radiohead - OK Computer" ++ [ch_quote].

Definition track_names : list string := ["1"; "2"; "3"; "4"; "5"]%string.

(** Five FLAC files in a directory named after artist and album. *)
Definition flac_peer : response :=
  Response (py "alice")
    (map (fun n => SFile (py "Music" ++ [ch_backslash]
                          ++ py "Radiohead OK Computer" ++ [ch_backslash]
                          ++ py n ++ py ".flac") 100)
         track_names)
    0 false.

(** Three MP3 files in an unrelated directory. *)
Definition mp3_peer : response :=
  Response (py "bob")
    (map (fun n => SFile (py "stuff/misc/" ++ py n ++ py ".mp3") 100)
         (take 3 track_names))
    0 false.

(** A directory that holds a cover picture only. *)
Definition cover_peer : response :=
  Response (py "carol") [SFile (py "misc/cover.jpg") 100] 0 false.

(** Two peers with three MP3 files each, in directories that name neither
    artist nor album. *)
Definition tie_first : response :=
  Response (py "alice")
    (map (fun n => SFile (py "a/x/" ++ py n ++ py ".mp3") 100)
         (take 3 track_names))
    0 false.

Definition tie_last : response :=
  Response (py "bob")
    (map (fun n => SFile (py "b/y/" ++ py n ++ py ".mp3") 100)
         (take 3 track_names))
    0 false.

(** An item whose artist is a number. *)
Definition numbered_item : item :=
  {[ py "mbid" := VStr (py "m7"); py "artist" := VInt 7;
     py "album" := VStr (py "Seven") ]}.

(** An item whose mbid is a JSON array, and one whose mbid is a number. *)
Definition list_mbid_item : item :=
  {[ py "mbid" := VList [VStr (py "m2")]; py "artist" := VStr (py "Low");
     py "album" := VStr (py "Double Negative") ]}.

Definition number_mbid_item : item :=
  {[ py "mbid" := VInt 5; py "artist" := VStr (py "Low");
     py "album" := VStr (py "Ones and Sixes") ]}.

(** A second album item, with another mbid. *)
Definition hey_what_item : item :=
  {[ py "mbid" := VStr (py "m2"); py "artist" := VStr (py "Low");
     py "album" := VStr (py "Hey What") ]}.

(** An artist that is a lone surrogate (code point D800), as [json.loads]
    gives it for the escape of that code point. *)
Definition lone_surrogate : pystr := [55296%N].

Definition surrogate_item : item :=
  {[ py "mbid" := VStr (py "m3"); py "artist" := VStr lone_surrogate;
     py "album" := VStr (py "Trust") ]}.

(** An item that carries no mbid. *)
Definition nameless_item : item :=
  {[ py "artist" := VStr (py "Low"); py "album" := VStr (py "Hey What") ]}.

(** The match for the directory of [flac_peer]. *)
Definition flac_match : best_match :=
  match_of ascii_lower (py "Radiohead") (py "OK Computer")
    (flac_peer,
     (py "Music" ++ [ch_backslash] ++ py "Radiohead OK Computer",
      files flac_peer)).

(** Basic credentials as sent, with a decoder that knows this one text. *)
Definition basic_colon_request : request :=
  {| url_path := py "/api/v1/queue";
     h_authorization := Some (py "Basic Og==");
     h_x_api_key := None;
     h_remote_user := None |}.

Definition decode_colon (encoded : pystr) : option pystr :=
  if str_eqb encoded (py "Og==") then Some (py ":") else None.

Definition basic_settings (u p : option pystr) : AuthSettings :=
  {| auth_enabled := true; auth_type := Some Basic;
     auth_username := u; auth_password := p; auth_api_key := None |}.

Definition api_key_settings (k : option pystr) : AuthSettings :=
  {| auth_enabled := true; auth_type := Some ApiKey;
     auth_username := None; auth_password := None; auth_api_key := k |}.

(** A bearer token holding e-acute (code point 233) beside the right
    X-API-Key. *)
Definition accented_bearer_request : request :=
  {| url_path := py "/api/v1/queue";
     h_authorization := Some (py "Bearer " ++ [233%N]);
     h_x_api_key := Some (py "secret");
     h_remote_user := None |}.

(** The credentials of user e-acute with an empty password, and a decoder
    that knows this one text. *)
Definition accented_basic_request : request :=
  {| url_path := py "/api/v1/queue";
     h_authorization := Some (py "Basic w6k6");
     h_x_api_key := None;
     h_remote_user := None |}.

Definition decode_accented (encoded : pystr) : option pystr :=
  if str_eqb encoded (py "w6k6") then Some [233%N; 58%N] else None.

(** * Properties *)

#[local] Set Warnings "-clear-no-such-hyp".

(** ** Membership tests on mbids *)

Lemma py_eq_str_r (v : value) (m : pystr) :
  py_eq v (VStr m) = match v with VStr x => str_eqb x m | _ => false end.
Proof. destruct v; reflexivity. Qed.

Lemma existsb_py_eq_strs (v : value) (mbids : list pystr) :
  existsb (py_eq v) (map VStr mbids)
  = match v with VStr m => bool_decide (m ∈ mbids) | _ => false end.
Proof.
  induction mbids as [|a l IH]; cbn [map existsb].
  - destruct v; reflexivity.
  - rewrite py_eq_str_r, IH. destruct v; try reflexivity.
    unfold str_eqb. rewrite <- bool_decide_or. apply bool_decide_ext.
    rewrite elem_of_cons. reflexivity.
Qed.

Lemma in_list_strs (it : item) (mbids : list pystr) :
  in_list (get_mbid it) (map VStr mbids) = mbid_in (list_to_set mbids) it.
Proof.
  unfold in_list, mbid_in. rewrite existsb_py_eq_strs.
  destruct (get_mbid it); try reflexivity.
  apply bool_decide_ext. symmetry. apply elem_of_list_to_set.
Qed.

Lemma in_set_hashable (v : value) (s : list value) :
  hashable v = true -> in_set v s = Some (in_list v s).
Proof. intros H. unfold in_set, in_list. rewrite H. reflexivity. Qed.

Lemma set_of_strs (mbids : list pystr) :
  set_of (map VStr mbids) = Some (map VStr mbids).
Proof.
  unfold set_of. replace (forallb hashable (map VStr mbids)) with true;
    [reflexivity|].
  symmetry. induction mbids as [|a l IH]; [reflexivity | exact IH].
Qed.

Lemma mbids_hashable_app (l1 l2 : list item) :
  mbids_hashable (l1 ++ l2) = mbids_hashable l1 && mbids_hashable l2.
Proof. apply forallb_app. Qed.

Lemma mbids_hashable_filter (f : item -> bool) (l : list item) :
  mbids_hashable l = true -> mbids_hashable (List.filter f l) = true.
Proof.
  unfold mbids_hashable. rewrite !forallb_forall. intros H x Hx.
  apply List.filter_In in Hx. apply H, Hx.
Qed.

(** The first item whose mbid is a list. *)
Lemma first_unhashable (l : list item) :
  mbids_hashable l = false ->
  exists l1 bad l2,
    l = l1 ++ bad :: l2
    /\ mbids_hashable l1 = true
    /\ hashable (get_mbid bad) = false.
Proof.
  induction l as [|a l IH]; [discriminate|].
  cbn [mbids_hashable forallb]. destruct (hashable (get_mbid a)) eqn:Ea.
  - cbn [andb]. intros H. destruct (IH H) as (l1 & bad & l2 & -> & H1 & H2).
    exists (a :: l1), bad, l2. split; [reflexivity|]. split; [|exact H2].
    cbn [mbids_hashable forallb]. rewrite Ea. exact H1.
  - intros _. exists [], a, l. repeat split. exact Ea.
Qed.

(** ** The queue operations, in terms of the queue a load returns *)

Lemma deref_list_extend {A} (r : lref A) (sh xs : list A) :
  deref (snd (list_extend r sh xs)) (fst (list_extend r sh xs))
  = deref sh r ++ xs.
Proof. destruct r; reflexivity. Qed.

Lemma list_extend_nil {A} (r : lref A) (sh : list A) :
  list_extend r sh [] = (r, sh).
Proof. destruct r; cbn; rewrite app_nil_r; reflexivity. Qed.

Lemma list_extend_cons {A} (r : lref A) (sh : list A) (x : A) (xs : list A) :
  list_extend (fst (list_append r sh x)) (snd (list_append r sh x)) xs
  = list_extend r sh (x :: xs).
Proof. destruct r; cbn; rewrite <- app_assoc; reflexivity. Qed.

Lemma approve_step_hashable (s : list value) (ar : lref item)
  (ash : list item) (n : nat) (np : list item) (it : item) :
  hashable (get_mbid it) = true ->
  approve_step s (ar, ash, n, np) it =
  if in_list (get_mbid it) s
  then Ret (fst (list_append ar ash it), snd (list_append ar ash it), S n, np)
  else Ret (ar, ash, n, np ++ [it]).
Proof.
  intros H. unfold approve_step. rewrite (in_set_hashable _ _ H).
  destruct (in_list (get_mbid it) s); [|reflexivity].
  destruct (list_append ar ash it); reflexivity.
Qed.

Lemma approve_step_unhashable (s : list value)
  (st : lref item * list item * nat * list item) (it : item) :
  hashable (get_mbid it) = false -> approve_step s st it = Raised.
Proof.
  intros H. destruct st as [[[ar ash] n] np]. unfold approve_step, in_set.
  rewrite H. reflexivity.
Qed.

(** The loop of [approve_items] up to an item [stop], where it raises or
    goes on. *)
Lemma approve_loop_prefix (s : list value) (l : list item) :
  mbids_hashable l = true ->
  forall (rest : list item) ar ash n np,
    for_loop (approve_step s) (l ++ rest) (ar, ash, n, np)
    = for_loop (approve_step s) rest
        (list_extend ar ash
           (List.filter (fun it => in_list (get_mbid it) s) l),
         (n + length (List.filter (fun it => in_list (get_mbid it) s) l))%nat,
         np ++ List.filter (fun it => negb (in_list (get_mbid it) s)) l).
Proof.
  induction l as [|it l IH]; intros Hl rest ar ash n np.
  - cbn [app List.filter length]. rewrite list_extend_nil, Nat.add_0_r, app_nil_r.
    reflexivity.
  - cbn [mbids_hashable forallb] in Hl. apply andb_true_iff in Hl as [Hit Hl].
    cbn [app for_loop List.filter]. rewrite (approve_step_hashable _ _ _ _ _ _ Hit).
    destruct (in_list (get_mbid it) s) eqn:E; cbn [negb].
    + rewrite (IH Hl). rewrite list_extend_cons. cbn [length].
      rewrite <- plus_n_Sm. reflexivity.
    + rewrite (IH Hl), <- app_assoc. reflexivity.
Qed.

Lemma approve_loop_hashable (s : list value) (l : list item) :
  mbids_hashable l = true ->
  forall ar ash n np,
    for_loop (approve_step s) l (ar, ash, n, np)
    = (Ret tt,
       (list_extend ar ash
          (List.filter (fun it => in_list (get_mbid it) s) l),
        (n + length (List.filter (fun it => in_list (get_mbid it) s) l))%nat,
        np ++ List.filter (fun it => negb (in_list (get_mbid it) s)) l)).
Proof.
  intros Hl ar ash n np. rewrite <- (app_nil_r l) at 1.
  rewrite (approve_loop_prefix s l Hl). reflexivity.
Qed.

Lemma approve_loop_raises (s : list value) (l1 : list item) (bad : item)
  (l2 : list item) :
  mbids_hashable l1 = true ->
  hashable (get_mbid bad) = false ->
  forall ar ash n np,
    for_loop (approve_step s) (l1 ++ bad :: l2) (ar, ash, n, np)
    = (Raised,
       (list_extend ar ash
          (List.filter (fun it => in_list (get_mbid it) s) l1),
        (n + length (List.filter (fun it => in_list (get_mbid it) s) l1))%nat,
        np ++ List.filter (fun it => negb (in_list (get_mbid it) s)) l1)).
Proof.
  intros Hl Hbad ar ash n np. rewrite (approve_loop_prefix s l1 Hl).
  cbn [for_loop]. rewrite (approve_step_unhashable _ _ _ Hbad). reflexivity.
Qed.

Lemma load_queue_spec (w : world) :
  exists w', load_queue w = (Ret (current_queue w), w')
             /\ current_queue w' = current_queue w
             /\ DEFAULT_QUEUE w' = DEFAULT_QUEUE w
             /\ wishlist_file w' = wishlist_file w.
Proof.
  unfold load_queue, locked_queue, current_queue.
  destruct w as [[dp da dr] f wl]; destruct f as [| | |p a r]; simpl;
    eexists; (split; [reflexivity|]); simpl; auto.
Qed.

(** [approve_items] for any list of hashable values, on a queue whose
    pending items have hashable mbids. *)
Lemma approve_items_values_spec (mbids : list value) (w : world) :
  forallb hashable mbids = true ->
  mbids_hashable (pending (current_queue w)) = true ->
  let sel := fun it => in_list (get_mbid it) mbids in
  let q := current_queue w in
  exists w',
    approve_items mbids w
    = (Ret (length (List.filter sel (pending q))), w')
    /\ queue_file w'
       = FStored (Some (List.filter (fun it => negb (sel it)) (pending q)))
                 (Some (approved q ++ List.filter sel (pending q)))
                 (Some (rejected q))
    /\ wishlist_file w' = wishlist_file w.
Proof.
  intros Hm Hp. cbv zeta. unfold approve_items, set_of. rewrite Hm.
  unfold locked_queue, on_dict, approve_block, current_queue in *.
  destruct w as [[dp da dr] f wl]; destruct f as [| | |p a r];
    cbn [queue_file set_queue_file json_dumps default_copy resolve deref
         json_loads_filled DEFAULT_QUEUE q_pending q_approved q_rejected
         pending approved rejected wishlist_file set_default] in *;
    rewrite (approve_loop_hashable _ _ Hp);
    cbn [list_extend queue_file set_queue_file json_dumps default_copy resolve
         deref json_loads_filled DEFAULT_QUEUE q_pending q_approved q_rejected
         pending approved rejected wishlist_file set_default Nat.add];
    eexists; repeat split.
Qed.

Lemma approve_items_spec (mbids : list pystr) (w : world) :
  mbids_hashable (pending (current_queue w)) = true ->
  let s : gset pystr := list_to_set mbids in
  let q := current_queue w in
  exists w',
    approve_items (map VStr mbids) w
    = (Ret (length (List.filter (mbid_in s) (pending q))), w')
    /\ queue_file w'
       = FStored (Some (List.filter (fun it => negb (mbid_in s it)) (pending q)))
                 (Some (approved q ++ List.filter (mbid_in s) (pending q)))
                 (Some (rejected q))
    /\ wishlist_file w' = wishlist_file w.
Proof.
  intros Hp. cbv zeta.
  destruct (approve_items_values_spec (map VStr mbids) w) as (w' & E & F & W);
    [|exact Hp|].
  { pose proof (set_of_strs mbids) as S. unfold set_of in S.
    destruct (forallb hashable (map VStr mbids)); [reflexivity | discriminate]. }
  cbv zeta in E, F.
  rewrite (List.filter_ext _ (mbid_in (list_to_set mbids))) in E, F
    by (intros a; apply in_list_strs).
  rewrite (List.filter_ext (fun it => negb (in_list (get_mbid it) (map VStr mbids)))
             (fun it => negb (mbid_in (list_to_set mbids) it))) in F
    by (intros a; rewrite in_list_strs; reflexivity).
  exists w'. repeat split; assumption.
Qed.

(** A pending item whose mbid is a list makes [approve_items] raise; a
    stored file, and with it the whole state, is left as it was. *)
Lemma approve_items_raises_stored (mbids : list value) (w : world)
  (p a : option (list item)) (r : option (list pystr)) :
  queue_file w = FStored p a r ->
  mbids_hashable (default [] p) = false ->
  approve_items mbids w = (Raised, w).
Proof.
  intros F Hp. unfold approve_items, set_of.
  destruct (forallb hashable mbids); [|reflexivity].
  destruct (first_unhashable _ Hp) as (l1 & bad & l2 & E & H1 & H2).
  unfold locked_queue, on_dict, approve_block.
  destruct w as [[dp da dr] f wl]. cbn [queue_file] in F. subst f.
  cbn [queue_file set_queue_file json_dumps default_copy resolve deref
       json_loads_filled DEFAULT_QUEUE q_pending q_approved q_rejected
       pending approved rejected wishlist_file set_default].
  rewrite E, (approve_loop_raises _ _ _ _ H1 H2). reflexivity.
Qed.

Lemma add_pending_spec (entry : item) (w : world) :
  let q := current_queue w in
  exists w',
    add_pending entry w = (Ret tt, w')
    /\ queue_file w'
       = FStored (Some (pending q ++ [entry])) (Some (approved q))
                 (Some (rejected q))
    /\ wishlist_file w' = wishlist_file w.
Proof.
  unfold add_pending, locked_queue, current_queue.
  destruct w as [[dp da dr] f wl]; destruct f as [| | |p a r]; simpl;
    eexists; repeat split.
Qed.

Lemma str_mbids_cons (it : item) (l : list item) :
  str_mbids (it :: l) = str_mbids [it] ++ str_mbids l.
Proof. unfold str_mbids. simpl. destruct (get_mbid it); reflexivity. Qed.

Lemma reject_step_hashable (s rej : gset pystr) (n : nat) (np : list item)
  (it : item) :
  hashable (get_mbid it) = true ->
  reject_step s (rej, n, np) it =
  if mbid_in s it
  then Ret (rej ∪ list_to_set (str_mbids [it]), S n, np)
  else Ret (rej, n, np ++ [it]).
Proof.
  unfold reject_step, mbid_in, str_mbids. cbn [omap list_omap].
  destruct (get_mbid it); try reflexivity; [|discriminate].
  intros _. destruct (bool_decide (s0 ∈ s)); [|reflexivity].
  cbn. do 3 f_equal. set_solver.
Qed.

Lemma reject_step_unhashable (s : gset pystr)
  (st : gset pystr * nat * list item) (it : item) :
  hashable (get_mbid it) = false -> reject_step s st it = Raised.
Proof.
  destruct st as [[rej n] np]. unfold reject_step.
  destruct (get_mbid it); try discriminate. reflexivity.
Qed.

Lemma reject_loop_prefix (s : gset pystr) (l : list item) :
  mbids_hashable l = true ->
  forall (rest : list item) (rej : gset pystr) (n : nat) (np : list item),
    for_loop (reject_step s) (l ++ rest) (rej, n, np)
    = for_loop (reject_step s) rest
        (rej ∪ list_to_set (str_mbids (List.filter (mbid_in s) l)),
         (n + length (List.filter (mbid_in s) l))%nat,
         np ++ List.filter (fun it => negb (mbid_in s it)) l).
Proof.
  induction l as [|it l IH]; intros Hl rest rej n np.
  - cbn [app List.filter length str_mbids omap list_omap].
    rewrite Nat.add_0_r, app_nil_r. do 3 f_equal. set_solver.
  - cbn [mbids_hashable forallb] in Hl. apply andb_true_iff in Hl as [Hit Hl].
    cbn [app for_loop List.filter]. rewrite (reject_step_hashable _ _ _ _ _ Hit).
    destruct (mbid_in s it) eqn:E; cbn [negb].
    + rewrite (IH Hl), (str_mbids_cons it (List.filter _ l)). cbn [length].
      rewrite <- plus_n_Sm. do 3 f_equal.
      rewrite list_to_set_app_L. clear. set_solver.
    + rewrite (IH Hl), <- app_assoc. reflexivity.
Qed.

Lemma reject_loop_hashable (s : gset pystr) (l : list item) :
  mbids_hashable l = true ->
  forall (rej : gset pystr) (n : nat) (np : list item),
    for_loop (reject_step s) l (rej, n, np)
    = (Ret tt,
       (rej ∪ list_to_set (str_mbids (List.filter (mbid_in s) l)),
        (n + length (List.filter (mbid_in s) l))%nat,
        np ++ List.filter (fun it => negb (mbid_in s it)) l)).
Proof.
  intros Hl rej n np. rewrite <- (app_nil_r l) at 1.
  rewrite (reject_loop_prefix s l Hl). reflexivity.
Qed.

Lemma reject_loop_raises (s : gset pystr) (l1 : list item) (bad : item)
  (l2 : list item) :
  mbids_hashable l1 = true ->
  hashable (get_mbid bad) = false ->
  forall (rej : gset pystr) (n : nat) (np : list item),
    fst (for_loop (reject_step s) (l1 ++ bad :: l2) (rej, n, np)) = Raised.
Proof.
  intros Hl Hbad rej n np. rewrite (reject_loop_prefix s l1 Hl).
  cbn [for_loop]. rewrite (reject_step_unhashable _ _ _ Hbad). reflexivity.
Qed.

Lemma reject_items_spec (mbids : list pystr) (w : world) :
  mbids_hashable (pending (current_queue w)) = true ->
  let s : gset pystr := list_to_set mbids in
  let q := current_queue w in
  exists w',
    reject_items mbids w
    = (Ret (length (List.filter (mbid_in s) (pending q))), w')
    /\ queue_file w'
       = FStored
           (Some (List.filter (fun it => negb (mbid_in s it)) (pending q)))
           (Some (approved q))
           (Some (elements
                    (list_to_set (rejected q)
                     ∪ list_to_set
                         (str_mbids (List.filter (mbid_in s) (pending q)))
                     : gset pystr)))
    /\ wishlist_file w' = wishlist_file w.
Proof.
  intros Hp. cbv zeta.
  unfold reject_items, locked_queue, on_dict, reject_block, current_queue in *.
  destruct w as [[dp da dr] f wl]; destruct f as [| | |p a r];
    cbn [queue_file set_queue_file json_dumps default_copy resolve deref
         json_loads_filled DEFAULT_QUEUE q_pending q_approved q_rejected
         pending approved rejected wishlist_file set_default] in *;
    rewrite (reject_loop_hashable _ _ Hp);
    cbn [queue_file set_queue_file json_dumps default_copy resolve
         deref json_loads_filled DEFAULT_QUEUE q_pending q_approved q_rejected
         pending approved rejected wishlist_file set_default Nat.add];
    eexists; repeat split.
Qed.

Lemma reject_items_raises_stored (mbids : list pystr) (w : world)
  (p a : option (list item)) (r : option (list pystr)) :
  queue_file w = FStored p a r ->
  mbids_hashable (default [] p) = false ->
  reject_items mbids w = (Raised, w).
Proof.
  intros F Hp.
  destruct (first_unhashable _ Hp) as (l1 & bad & l2 & E & H1 & H2).
  unfold reject_items, locked_queue, on_dict, reject_block.
  destruct w as [[dp da dr] f wl]. cbn [queue_file] in F. subst f.
  cbn [queue_file set_queue_file json_dumps default_copy resolve deref
       json_loads_filled DEFAULT_QUEUE q_pending q_approved q_rejected
       pending approved rejected wishlist_file set_default].
  rewrite E.
  pose proof (reject_loop_raises (list_to_set mbids) l1 bad l2 H1 H2
                (list_to_set (default [] r)) O []) as R.
  destruct (for_loop _ _ _) as [res [[rej n] np]]. cbn [fst] in R. subst res.
  reflexivity.
Qed.

Lemma get_rejected_mbids_spec (w : world) :
  exists w',
    get_rejected_mbids w = (Ret (list_to_set (rejected (current_queue w))), w')
    /\ current_queue w' = current_queue w.
Proof.
  unfold get_rejected_mbids, locked_queue, current_queue.
  destruct w as [[dp da dr] f wl]; destruct f as [| | |p a r]; simpl;
    eexists; (split; [reflexivity|]); simpl; auto.
Qed.

Lemma current_queue_stored (w : world) (p a : list item) (r : list pystr) :
  queue_file w = FStored (Some p) (Some a) (Some r) ->
  current_queue w = Queue p a r.
Proof. unfold current_queue. intros ->. reflexivity. Qed.

Lemma load_queue_fst (w : world) : fst (load_queue w) = Ret (current_queue w).
Proof. destruct (load_queue_spec w) as (w' & -> & _). reflexivity. Qed.

Lemma mbid_in_singleton (m : pystr) (it : item) :
  mbid_in (list_to_set [m]) it = true <-> has_mbid m it.
Proof.
  unfold mbid_in, has_mbid.
  destruct (get_mbid it); try (split; [discriminate | congruence]).
  rewrite bool_decide_eq_true. split.
  - intros H. f_equal. set_solver.
  - intros [= ->]. set_solver.
Qed.

Lemma filter_none {A} (f : A -> bool) (l : list A) :
  (forall y, y ∈ l -> f y = false) ->
  List.filter f l = [] /\ List.filter (fun y => negb (f y)) l = l.
Proof.
  induction l as [|a l IH]; intros H; [split; reflexivity|].
  simpl. rewrite (H a) by (left). simpl.
  destruct IH as [-> ->]; [|split; reflexivity].
  intros y Hy. apply H. right. exact Hy.
Qed.

Lemma filter_one {A} (f : A -> bool) (l1 l2 : list A) (x : A) :
  f x = true ->
  (forall y, y ∈ l1 ++ l2 -> f y = false) ->
  List.filter f (l1 ++ x :: l2) = [x]
  /\ List.filter (fun y => negb (f y)) (l1 ++ x :: l2) = l1 ++ l2.
Proof.
  intros Hx H.
  destruct (filter_none f l1) as [E1 E1'];
    [intros y Hy; apply H, elem_of_app; auto|].
  destruct (filter_none f l2) as [E2 E2'];
    [intros y Hy; apply H, elem_of_app; auto|].
  rewrite !List.filter_app. simpl. rewrite Hx. simpl.
  rewrite E1, E1', E2, E2'. split; reflexivity.
Qed.

Lemma not_has_mbid_false (m : pystr) (it : item) :
  ~ has_mbid m it -> mbid_in (list_to_set [m]) it = false.
Proof.
  intros H. destruct (mbid_in (list_to_set [m]) it) eqn:E; [|reflexivity].
  apply mbid_in_singleton in E. contradiction.
Qed.

Lemma mbids_hashable_remove (l1 l2 : list item) (x : item) :
  mbids_hashable (l1 ++ x :: l2) = true -> mbids_hashable (l1 ++ l2) = true.
Proof.
  rewrite !mbids_hashable_app. cbn [mbids_hashable forallb].
  intros H. apply andb_true_iff in H as [H1 H2].
  apply andb_true_iff in H2 as [_ H2]. rewrite H1. exact H2.
Qed.

(** C1 (as amended).  When the pending list holds exactly one item [x] with
    mbid [m] and every pending item has a hashable mbid,
    [approve_items([m])] returns 1, takes [x] out of pending and appends it,
    unchanged, to approved; a second [approve_items([m])] returns 0 and
    writes the queue file back as it was. *)
Theorem approve_items_moves_the_item (w : world) (q : queue) (m : pystr)
  (x : item) (l1 l2 : list item) :
  fst (load_queue w) = Ret q ->
  pending q = l1 ++ x :: l2 ->
  has_mbid m x ->
  (forall y, y ∈ l1 ++ l2 -> ~ has_mbid m y) ->
  mbids_hashable (pending q) = true ->
  exists w1 w2,
    approve_items [VStr m] w = (Ret 1%nat, w1)
    /\ fst (load_queue w1)
       = Ret (Queue (l1 ++ l2) (approved q ++ [x]) (rejected q))
    /\ approve_items [VStr m] w1 = (Ret 0%nat, w2)
    /\ queue_file w2 = queue_file w1
    /\ fst (load_queue w2) = fst (load_queue w1).
Proof.
  intros Hq Hp Hx Hothers Hh.
  rewrite load_queue_fst in Hq. injection Hq as Hq. subst q.
  destruct (approve_items_spec [m] w Hh) as (w1 & E1 & F1 & _).
  cbv zeta in E1, F1. rewrite Hp in E1, F1, Hh.
  destruct (filter_one (mbid_in (list_to_set [m])) l1 l2 x) as [Ef Ef'].
  { apply mbid_in_singleton, Hx. }
  { intros y Hy. apply not_has_mbid_false, Hothers, Hy. }
  rewrite Ef in E1, F1. rewrite Ef' in F1.
  pose proof (current_queue_stored _ _ _ _ F1) as C1.
  destruct (approve_items_spec [m] w1) as (w2 & E2 & F2 & _).
  { rewrite C1. apply (mbids_hashable_remove l1 l2 x Hh). }
  cbv zeta in E2, F2. rewrite C1 in E2, F2.
  cbn [pending approved rejected] in E2, F2.
  destruct (filter_none (mbid_in (list_to_set [m])) (l1 ++ l2)) as [Eg Eg'].
  { intros y Hy. apply not_has_mbid_false, Hothers, Hy. }
  rewrite Eg in E2, F2. rewrite Eg', app_nil_r in F2.
  exists w1, w2. rewrite !load_queue_fst, C1.
  rewrite (current_queue_stored _ _ _ _ F2).
  repeat split; try assumption. congruence.
Qed.

Lemma approve_items_moves_the_item_witness :
  exists w1 w2,
    approve_items [VStr (py "m1")]
      (fresh_process (FStored (Some [low_item; number_mbid_item]) (Some [])
                              (Some [])) None)
    = (Ret 1%nat, w1)
    /\ fst (load_queue w1)
       = Ret (Queue ([] ++ [number_mbid_item]) ([] ++ [low_item]) [])
    /\ approve_items [VStr (py "m1")] w1 = (Ret 0%nat, w2)
    /\ queue_file w2 = queue_file w1
    /\ fst (load_queue w2) = fst (load_queue w1).
Proof.
  apply (approve_items_moves_the_item
           (fresh_process (FStored (Some [low_item; number_mbid_item])
                                   (Some []) (Some [])) None)
           (Queue [low_item; number_mbid_item] [] []) (py "m1") low_item []
           [number_mbid_item]).
  - reflexivity.
  - reflexivity.
  - vm_compute. reflexivity.
  - cbn [app]. intros y Hy. apply list_elem_of_singleton in Hy. subst y.
    vm_compute. discriminate.
  - vm_compute. reflexivity.
Defined.

(** C1, the claim as first stated fails: with one pending item of mbid
    [m1] and a second pending item whose mbid is a JSON array, the
    membership test raises [TypeError] at the second item;
    [approve_items([m1])] returns no count and the queue stays as it was,
    the first item still pending. *)
Lemma approve_items_raises_on_list_mbid :
  let w := fresh_process
             (FStored (Some [low_item; list_mbid_item]) (Some []) (Some []))
             None in
  fst (load_queue w) = Ret (Queue [low_item; list_mbid_item] [] [])
  /\ has_mbid (py "m1") low_item
  /\ ~ has_mbid (py "m1") list_mbid_item
  /\ approve_items [VStr (py "m1")] w = (Raised, w).
Proof.
  cbv zeta. split; [reflexivity|]. split; [vm_compute; reflexivity|].
  split; [vm_compute; discriminate|]. reflexivity.
Qed.

Lemma list_to_set_single (m : pystr) :
  (list_to_set [m] : gset pystr) = {[m]}.
Proof. set_solver. Qed.

Lemma str_mbids_single (m : pystr) (it : item) :
  has_mbid m it -> str_mbids [it] = [m].
Proof. unfold has_mbid, str_mbids. intros H. simpl. rewrite H. reflexivity. Qed.

Lemma rejected_mbids_of_matches (m : pystr) (l : list item) :
  (list_to_set (str_mbids (List.filter (mbid_in (list_to_set [m])) l))
     : gset pystr)
  = if existsb (mbid_in (list_to_set [m])) l then {[m]} else ∅.
Proof.
  induction l as [|it l IH]; [reflexivity|].
  cbn [List.filter existsb].
  destruct (mbid_in (list_to_set [m]) it) eqn:E; [|exact IH].
  rewrite str_mbids_cons, list_to_set_app_L, IH.
  apply mbid_in_singleton in E. rewrite (str_mbids_single m it E).
  cbn [orb]. clear. destruct (existsb _ l); set_solver.
Qed.

Lemma existsb_has_mbid (m : pystr) (l : list item) :
  existsb (mbid_in (list_to_set [m])) l = true
  <-> exists y, y ∈ l /\ has_mbid m y.
Proof.
  rewrite existsb_exists. split.
  - intros (y & Hy & E). exists y. split.
    + apply list_elem_of_In, Hy.
    + apply mbid_in_singleton, E.
  - intros (y & Hy & E). exists y. split.
    + apply list_elem_of_In, Hy.
    + apply mbid_in_singleton, E.
Qed.

Lemma filter_length_split {A} (f : A -> bool) (l : list A) :
  length l
  = (length (List.filter (fun y => negb (f y)) l)
     + length (List.filter f l))%nat.
Proof.
  induction l as [|a l IH]; [reflexivity|].
  simpl. destruct (f a); simpl; lia.
Qed.

(** C2 (as amended).  On a queue in which every pending item has a hashable
    mbid, after [reject_items([m])] no pending item carries [m], the
    other pending items and the approved list are as before, the count
    returned is the number of pending items taken out, and the rejected set
    is the old one, to which [m] alone is added when some pending item
    carried it: the set holds mbid strings and depends on the removed items
    through their mbid only.  So [m] is rejected afterwards exactly when it
    was the mbid of a pending item or rejected before. *)
Theorem reject_items_effect (w : world) (q : queue) (m : pystr) :
  fst (load_queue w) = Ret q ->
  mbids_hashable (pending q) = true ->
  exists n w1 q1 rej,
    reject_items [m] w = (Ret n, w1)
    /\ fst (load_queue w1) = Ret q1
    /\ fst (get_rejected_mbids w1) = Ret rej
    /\ pending q1
       = List.filter (fun it => negb (mbid_in (list_to_set [m]) it)) (pending q)
    /\ (forall y, y ∈ pending q1 -> ~ has_mbid m y)
    /\ approved q1 = approved q
    /\ length (pending q) = (length (pending q1) + n)%nat
    /\ rej = list_to_set (rejected q)
             ∪ (if existsb (mbid_in (list_to_set [m])) (pending q)
                then {[m]} else ∅)
    /\ (m ∈ rej <->
        (exists y, y ∈ pending q /\ has_mbid m y) \/ m ∈ rejected q).
Proof.
  intros Hq Hh. rewrite load_queue_fst in Hq. injection Hq as Hq. subst q.
  destruct (reject_items_spec [m] w Hh) as (w1 & E1 & F1 & _).
  cbv zeta in E1, F1.
  pose proof (current_queue_stored _ _ _ _ F1) as C1.
  destruct (get_rejected_mbids_spec w1) as (w2 & G & _).
  rewrite C1 in G. cbn [rejected] in G.
  rewrite list_to_set_elements_L, rejected_mbids_of_matches in G.
  eexists _, w1, _, _.
  rewrite !load_queue_fst, G, C1.
  split; [exact E1|].
  split; [reflexivity|]. split; [reflexivity|].
  cbn [pending approved rejected fst].
  split; [reflexivity|]. split.
  { intros y Hy Hm. apply list_elem_of_In, List.filter_In in Hy.
    destruct Hy as [_ Hy]. apply mbid_in_singleton in Hm.
    rewrite Hm in Hy. discriminate. }
  split; [reflexivity|]. split; [apply filter_length_split|].
  split; [reflexivity|].
  rewrite elem_of_union, elem_of_list_to_set, <- existsb_has_mbid.
  destruct (existsb _ (pending (current_queue w))); set_solver.
Qed.

Lemma reject_items_effect_witness :
  exists n w1 q1 rej,
    reject_items [py "m1"]
      (fresh_process (FStored (Some [low_item; hey_what_item]) (Some [])
                              (Some [])) None)
    = (Ret n, w1)
    /\ fst (load_queue w1) = Ret q1
    /\ fst (get_rejected_mbids w1) = Ret rej
    /\ pending q1
       = List.filter (fun it => negb (mbid_in (list_to_set [py "m1"]) it))
                     [low_item; hey_what_item]
    /\ (forall y, y ∈ pending q1 -> ~ has_mbid (py "m1") y)
    /\ approved q1 = []
    /\ length [low_item; hey_what_item] = (length (pending q1) + n)%nat
    /\ rej = list_to_set []
             ∪ (if existsb (mbid_in (list_to_set [py "m1"]))
                           [low_item; hey_what_item]
                then {[py "m1"]} else ∅)
    /\ (py "m1" ∈ rej <->
        (exists y, y ∈ [low_item; hey_what_item] /\ has_mbid (py "m1") y)
        \/ py "m1" ∈ []).
Proof.
  apply (reject_items_effect
           (fresh_process (FStored (Some [low_item; hey_what_item]) (Some [])
                                   (Some [])) None)
           (Queue [low_item; hey_what_item] [] []) (py "m1")).
  - reflexivity.
  - vm_compute. reflexivity.
Defined.

(** C2, the claim as first stated fails: rejecting an mbid that no pending
    item carries leaves the rejected set without it. *)
Lemma reject_items_absent_mbid_not_recorded :
  exists w1 rej,
    reject_items [py "m1"]
      (fresh_process (FStored (Some []) (Some []) (Some [])) None)
    = (Ret 0%nat, w1)
    /\ fst (get_rejected_mbids w1) = Ret rej
    /\ (py "m1" ∉ rej).
Proof.
  eexists _, ∅. split; [reflexivity|]. split; [reflexivity|].
  apply not_elem_of_empty.
Qed.

(** ** Loading an unparsable queue file *)

(** Whatever the file holds, [load_queue] returns; on a file that is blank
    or not JSON it returns the three lists of [DEFAULT_QUEUE] as they are at
    that moment. *)
Lemma load_queue_unparsable (w : world) :
  queue_file w = FBlank \/ queue_file w = FCorrupt ->
  load_queue w = (Ret (DEFAULT_QUEUE w), w).
Proof.
  destruct w as [[dp da dr] f wl]. simpl.
  intros [-> | ->]; reflexivity.
Qed.

(** In a process that has not touched the lists of [DEFAULT_QUEUE], that is
    the empty queue. *)
Lemma load_queue_unparsable_fresh (wl : option pystr) :
  load_queue (fresh_process FCorrupt wl)
  = (Ret empty_queue, fresh_process FCorrupt wl).
Proof. reflexivity. Qed.

(** C5 (the code departs from the claim).  A process finds the queue file
    corrupted and calls [add_pending(entry)]: the entry is appended to the
    list that [DEFAULT_QUEUE] holds, and the file is rewritten.  When the
    file is found corrupted again, [load_queue] in that process does not
    return the empty queue: pending holds [entry]. *)
Theorem load_queue_corrupt_after_add_pending (entry : item)
  (wl : option pystr) :
  let w1 := snd (add_pending entry (fresh_process FCorrupt wl)) in
  DEFAULT_QUEUE w1 = Queue [entry] [] []
  /\ queue_file w1 = FStored (Some [entry]) (Some []) (Some [])
  /\ load_queue (set_queue_file FCorrupt w1)
     = (Ret (Queue [entry] [] []), set_queue_file FCorrupt w1)
  /\ Queue [entry] [] [] <> empty_queue.
Proof. repeat split. discriminate. Qed.

(** ** Pending and approved stay disjoint *)

(** An operation that does not raise. *)
Lemma run_op_current_queue (o : queue_op) (w : world) :
  match o with
  | OpAddPending _ => True
  | _ => mbids_hashable (pending (current_queue w)) = true
  end ->
  current_queue (run_op o w) =
  let q := current_queue w in
  match o with
  | OpAddPending entry => Queue (pending q ++ [entry]) (approved q) (rejected q)
  | OpApprove mbids =>
      Queue (List.filter (fun it => negb (mbid_in (list_to_set mbids) it))
                         (pending q))
            (approved q ++ List.filter (mbid_in (list_to_set mbids)) (pending q))
            (rejected q)
  | OpReject mbids =>
      Queue (List.filter (fun it => negb (mbid_in (list_to_set mbids) it))
                         (pending q))
            (approved q)
            (elements
               (list_to_set (rejected q)
                ∪ list_to_set
                    (str_mbids (List.filter (mbid_in (list_to_set mbids))
                                            (pending q)))
                : gset pystr))
  end.
Proof.
  destruct o as [entry | mbids | mbids]; cbn [run_op]; intros H.
  - destruct (add_pending_spec entry w) as (w' & -> & F & _).
    apply current_queue_stored, F.
  - destruct (approve_items_spec mbids w H) as (w' & -> & F & _).
    apply current_queue_stored, F.
  - destruct (reject_items_spec mbids w H) as (w' & -> & F & _).
    apply current_queue_stored, F.
Qed.

Lemma run_op_stored (o : queue_op) (w : world) :
  match o with
  | OpAddPending _ => True
  | _ => mbids_hashable (pending (current_queue w)) = true
  end ->
  exists p a r, queue_file (run_op o w) = FStored p a r.
Proof.
  destruct o as [entry | mbids | mbids]; cbn [run_op]; intros H.
  - destruct (add_pending_spec entry w) as (w' & -> & F & _). eauto.
  - destruct (approve_items_spec mbids w H) as (w' & -> & F & _). eauto.
  - destruct (reject_items_spec mbids w H) as (w' & -> & F & _). eauto.
Qed.

(** An operation that raises on a stored file leaves the state as it is. *)
Lemma run_op_raises (o : queue_op) (w : world)
  (p a : option (list item)) (r : option (list pystr)) :
  queue_file w = FStored p a r ->
  mbids_hashable (pending (current_queue w)) = false ->
  match o with
  | OpAddPending _ => True
  | _ => run_op o w = w
  end.
Proof.
  intros F H. unfold current_queue in H. rewrite F in H. cbn [pending] in H.
  destruct o as [entry | mbids | mbids]; cbn [run_op]; [exact I | |].
  - rewrite (approve_items_raises_stored _ w p a r F H). reflexivity.
  - rewrite (reject_items_raises_stored _ w p a r F H). reflexivity.
Qed.

Lemma mbid_in_same_mbid (s : gset pystr) (m : pystr) (x y : item) :
  has_mbid m x -> has_mbid m y -> mbid_in s x = mbid_in s y.
Proof. unfold has_mbid, mbid_in. intros -> ->. reflexivity. Qed.

Lemma run_op_keeps_disjoint (o : queue_op) (w : world) :
  disjoint_and_stored w ->
  adds_guarded [o] w ->
  disjoint_and_stored (run_op o w).
Proof.
  intros [Hinv Hst] [Hg _].
  assert (Hcase : match o with
                  | OpAddPending _ => True
                  | _ => mbids_hashable (pending (current_queue w)) = true
                  end
                  \/ run_op o w = w).
  { destruct o as [entry | mbids | mbids]; [left; exact I | |].
    - destruct (mbids_hashable (pending (current_queue w))) eqn:H;
        [left; reflexivity|]. right.
      destruct Hst as [(p & a & r & F) | E];
        [|rewrite E in H; discriminate H].
      apply (run_op_raises (OpApprove mbids) w p a r F H).
    - destruct (mbids_hashable (pending (current_queue w))) eqn:H;
        [left; reflexivity|]. right.
      destruct Hst as [(p & a & r & F) | E];
        [|rewrite E in H; discriminate H].
      apply (run_op_raises (OpReject mbids) w p a r F H). }
  destruct Hcase as [Hok | ->]; [|split; assumption].
  split; [|left; apply run_op_stored, Hok].
  rewrite (run_op_current_queue o w Hok). cbv zeta.
  unfold pending_approved_disjoint in *.
  destruct o as [entry | mbids | mbids]; cbn [pending approved];
    intros m x y Hx Hy Mx My.
  - apply elem_of_app in Hx as [Hx | Hx].
    + exact (Hinv m x y Hx Hy Mx My).
    + apply list_elem_of_singleton in Hx. subst x.
      exact (Hg m y Mx Hy My).
  - apply list_elem_of_In, List.filter_In in Hx. destruct Hx as [Hx Fx].
    apply elem_of_app in Hy as [Hy | Hy].
    + apply list_elem_of_In in Hx. exact (Hinv m x y Hx Hy Mx My).
    + apply list_elem_of_In, List.filter_In in Hy. destruct Hy as [_ Fy].
      rewrite (mbid_in_same_mbid _ m x y Mx My), Fy in Fx. discriminate.
  - apply list_elem_of_In, List.filter_In in Hx. destruct Hx as [Hx _].
    apply list_elem_of_In in Hx. exact (Hinv m x y Hx Hy Mx My).
Qed.

Lemma run_ops_keep_disjoint (ops : list queue_op) :
  forall w,
    disjoint_and_stored w ->
    adds_guarded ops w ->
    disjoint_and_stored (run_ops ops w).
Proof.
  induction ops as [|o ops IH]; intros w Hinv Hg; [exact Hinv|].
  destruct Hg as [Hg Hrest]. cbn [run_ops fold_left].
  apply IH; [|exact Hrest].
  apply run_op_keeps_disjoint; [exact Hinv|]. split; [exact Hg | exact I].
Qed.

(** C8 (as amended).  From the empty queue, a sequence of [add_pending],
    [approve_items] and [reject_items] calls keeps every mbid in at most one
    of pending and approved, provided no [add_pending] is given an entry
    whose mbid an approved item carries at that moment. *)
Theorem guarded_ops_keep_pending_approved_disjoint (w : world)
  (ops : list queue_op) :
  fst (load_queue w) = Ret empty_queue ->
  adds_guarded ops w ->
  exists q, fst (load_queue (run_ops ops w)) = Ret q
            /\ pending_approved_disjoint q.
Proof.
  intros H0 Hg. rewrite load_queue_fst in H0. injection H0 as H0.
  exists (current_queue (run_ops ops w)). split; [apply load_queue_fst|].
  apply run_ops_keep_disjoint; [|exact Hg].
  split; [|right; rewrite H0; reflexivity].
  rewrite H0. intros m x y Hx. inversion Hx.
Qed.

Lemma guarded_ops_keep_pending_approved_disjoint_witness :
  exists q,
    fst (load_queue
           (run_ops [OpAddPending low_item; OpApprove [py "m1"];
                     OpReject [py "m1"]]
                    (fresh_process FMissing None))) = Ret q
    /\ pending_approved_disjoint q.
Proof.
  apply (guarded_ops_keep_pending_approved_disjoint
           (fresh_process FMissing None)
           [OpAddPending low_item; OpApprove [py "m1"]; OpReject [py "m1"]]).
  - reflexivity.
  - simpl. repeat split. intros m y _ Hy. inversion Hy.
Defined.

(** C8, the claim as first stated fails: [add_pending] makes no duplicate
    check, so an entry added again after its approval is both pending and
    approved. *)
Lemma readded_mbid_pending_and_approved :
  exists q,
    fst (load_queue
           (run_ops [OpAddPending low_item; OpApprove [py "m1"];
                     OpAddPending low_item]
                    (fresh_process FMissing None))) = Ret q
    /\ ~ pending_approved_disjoint q.
Proof.
  exists (Queue [low_item] [low_item] []). split.
  - vm_compute. reflexivity.
  - intros H. apply (H (py "m1") low_item low_item).
    + cbn [pending]. left.
    + cbn [approved]. left.
    + vm_compute. reflexivity.
    + vm_compute. reflexivity.
Qed.
(** ** The wishlist encoding and its reader *)

Lemma escape_cons (c : N) (s : pystr) :
  _escape_quotes (c :: s) =
  if (c =? ch_quote)%N then ch_backslash :: ch_quote :: _escape_quotes s
  else c :: _escape_quotes s.
Proof.
  unfold _escape_quotes, replace. cbn [replace_from startswith].
  rewrite andb_true_r, N.eqb_sym. destruct (c =? ch_quote)%N; reflexivity.
Qed.

Lemma escape_elem (c : N) (s : pystr) :
  c ∈ _escape_quotes s -> c ∈ s \/ c = ch_backslash.
Proof.
  induction s as [|a s IH]; [intros H; inversion H|].
  rewrite escape_cons. destruct (a =? ch_quote)%N eqn:E.
  - apply N.eqb_eq in E. subst a. rewrite !elem_of_cons.
    intros [-> | [-> | H]]; auto. destruct (IH H); auto.
  - rewrite !elem_of_cons. intros [-> | H]; auto. destruct (IH H); auto.
Qed.

(** No text that follows an escaped string makes its first character a
    quote, unless it starts with one itself. *)
Lemma escape_app_no_quote_head (s r : pystr) :
  startswith [ch_quote] r = false ->
  startswith [ch_quote] (_escape_quotes s ++ r) = false.
Proof.
  intros Hr. destruct s as [|a s]; [exact Hr|].
  rewrite escape_cons. destruct (a =? ch_quote)%N eqn:E; [reflexivity|].
  cbn [app startswith]. rewrite N.eqb_sym, E. reflexivity.
Qed.

Lemma unescape_escaped_quote (l : pystr) :
  unescape (ch_backslash :: ch_quote :: l) = ch_quote :: unescape l.
Proof. reflexivity. Qed.

Lemma unescape_other (c : N) (l : pystr) :
  startswith [ch_quote] l = false -> unescape (c :: l) = c :: unescape l.
Proof.
  intros H. unfold replace. cbn [replace_from].
  replace (startswith [ch_backslash; ch_quote] (c :: l)) with false;
    [reflexivity|].
  cbn [startswith] in *. rewrite H, andb_false_r. reflexivity.
Qed.

Lemma unescape_not_backslash (c : N) (l : pystr) :
  (c =? ch_backslash)%N = false -> unescape (c :: l) = c :: unescape l.
Proof.
  intros H. unfold replace. cbn [replace_from startswith].
  rewrite N.eqb_sym, H. reflexivity.
Qed.

(** Unescaping undoes escaping, also in front of further text. *)
Lemma unescape_escape_app (s r : pystr) :
  startswith [ch_quote] r = false ->
  unescape (_escape_quotes s ++ r) = s ++ unescape r.
Proof.
  intros Hr. induction s as [|a s IH]; [reflexivity|].
  rewrite escape_cons. destruct (a =? ch_quote)%N eqn:E.
  - apply N.eqb_eq in E. subst a. cbn [app].
    rewrite unescape_escaped_quote, IH. reflexivity.
  - cbn [app]. rewrite unescape_other, IH; [reflexivity|].
    apply escape_app_no_quote_head, Hr.
Qed.

Lemma split_once_cons (p : pystr) (c : N) (s : pystr) :
  split_once p (c :: s) =
  if startswith p (c :: s) then Some ([], drop (length p) (c :: s))
  else match split_once p s with
       | Some (a, b) => Some (c :: a, b)
       | None => None
       end.
Proof. reflexivity. Qed.

Lemma startswith_sep_extend (c : N) (a t : pystr) :
  startswith sep (c :: a ++ [ch_space]) = false ->
  startswith sep (c :: a ++ sep ++ t) = false.
Proof.
  change sep with [32%N; 45%N; 32%N].
  destruct a as [|d [|e a]]; cbn [app startswith].
  - intros _. destruct (32 =? c)%N; reflexivity.
  - intros H. exact H.
  - intros H. exact H.
Qed.

(** The separator written between artist and title is the first one in the
    line when the artist, followed by a space, holds none. *)
Lemma split_once_at_separator (a t : pystr) :
  contains sep (a ++ [ch_space]) = false ->
  split_once sep (a ++ sep ++ t) = Some (a, t).
Proof.
  induction a as [|c a IH]; intros H; [reflexivity|].
  cbn [app contains] in H. apply orb_false_elim in H as [H1 H2].
  cbn [app]. rewrite split_once_cons.
  rewrite (startswith_sep_extend c a t H1), (IH H2). reflexivity.
Qed.

Lemma contains_separator (a t : pystr) : contains sep (a ++ sep ++ t) = true.
Proof.
  induction a as [|c a IH]; [reflexivity|].
  cbn [app contains]. rewrite IH. apply orb_true_r.
Qed.

Lemma strip_line (c1 c2 : N) (mid : pystr) :
  isspace c1 = false -> isspace c2 = false ->
  strip (c1 :: mid ++ [c2; ch_lf]) = c1 :: mid ++ [c2].
Proof.
  intros H1 H2. unfold strip, rstrip. cbn [lstrip]. rewrite H1.
  replace (rev (c1 :: mid ++ [c2; ch_lf]))
    with (ch_lf :: c2 :: rev mid ++ [c1])
    by (cbn [rev]; rewrite rev_app_distr; reflexivity).
  cbn [lstrip]. change (isspace ch_lf) with true. cbn iota. rewrite H2.
  cbn [rev]. rewrite rev_app_distr, rev_involutive. reflexivity.
Qed.

Lemma lines_from_one_line (s cur : pystr) :
  ch_lf ∉ s -> ch_cr ∉ s ->
  lines_from false cur (s ++ [ch_lf]) = [rev cur ++ s ++ [ch_lf]].
Proof.
  revert cur. induction s as [|c s IH]; intros cur Hlf Hcr; [reflexivity|].
  apply not_elem_of_cons in Hlf as [Hlf1 Hlf]. apply not_elem_of_cons in Hcr as [Hcr1 Hcr].
  cbn [app lines_from].
  destruct (c =? ch_lf)%N eqn:E1; [apply N.eqb_eq in E1; congruence|].
  destruct (c =? ch_cr)%N eqn:E2; [apply N.eqb_eq in E2; congruence|].
  rewrite (IH (c :: cur) Hlf Hcr). cbn [rev]. rewrite <- app_assoc. reflexivity.
Qed.

Lemma unescape_body (a t : pystr) :
  unescape (_escape_quotes a ++ sep ++ _escape_quotes t) = a ++ sep ++ t.
Proof.
  rewrite unescape_escape_app by reflexivity. f_equal.
  change sep with [32%N; 45%N; 32%N]. cbn [app].
  rewrite !unescape_not_backslash by reflexivity. do 3 f_equal.
  rewrite <- (app_nil_r (_escape_quotes t)).
  rewrite unescape_escape_app by reflexivity. apply app_nil_r.
Qed.

Lemma endswith_quote (x : pystr) :
  endswith [ch_quote] (ch_quote :: x ++ [ch_quote]) = true.
Proof.
  unfold endswith. cbn [rev]. rewrite rev_app_distr. reflexivity.
Qed.

Lemma slice_quoted (x : pystr) : slice_1_m1 (ch_quote :: x ++ [ch_quote]) = x.
Proof. unfold slice_1_m1. cbn [drop]. apply removelast_last. Qed.

(** What the reader does with a quoted body, once the line is stripped and
    the prefix is taken off. *)
Lemma parse_quoted (a t : pystr) :
  strip a = a -> strip t = t ->
  contains sep (a ++ [ch_space]) = false ->
  let line := ch_quote :: (_escape_quotes a ++ sep ++ _escape_quotes t)
                       ++ [ch_quote] in
  let line :=
    if startswith [ch_quote] line && endswith [ch_quote] line
    then slice_1_m1 line else line in
  let line := unescape line in
  (if contains sep line then
     match split_once sep line with
     | Some (artist, title) => Some (strip artist, strip title, line)
     | None => None
     end
   else None) = Some (a, t, a ++ sep ++ t).
Proof.
  intros Ha Ht Hs. cbv zeta. rewrite endswith_quote.
  change (startswith [ch_quote] (ch_quote :: ?l)) with true. cbn [andb].
  rewrite slice_quoted, unescape_body, contains_separator.
  rewrite (split_once_at_separator a t Hs), Ha, Ht. reflexivity.
Qed.

Lemma parse_line_wishlist_line (a t : pystr) (is_album : bool) :
  strip a = a -> strip t = t ->
  contains sep (a ++ [ch_space]) = false ->
  parse_line (wishlist_line a t is_album)
  = Some (WlItem a t is_album (a ++ sep ++ t)).
Proof.
  intros Ha Ht Hs. pose proof (parse_quoted a t Ha Ht Hs) as P. cbv zeta in P.
  unfold parse_line, wishlist_line. cbv zeta.
  set (x := _escape_quotes a ++ sep ++ _escape_quotes t) in *.
  destruct is_album.
  - replace (py "a:" ++ [ch_quote] ++ _escape_quotes a ++ sep ++
               _escape_quotes t ++ [ch_quote] ++ [ch_lf])
      with (97%N :: (58%N :: ch_quote :: x) ++ [ch_quote; ch_lf])
      by (subst x; cbn [py app map list_ascii_of_string N_of_ascii];
          rewrite <- !app_assoc; reflexivity).
    rewrite strip_line by reflexivity.
    change ((58%N :: ch_quote :: x) ++ [ch_quote])
      with (58%N :: ch_quote :: x ++ [ch_quote]).
    change (startswith (py "a:") (97%N :: 58%N :: ?l)) with true.
    cbv iota. change (drop 2 (97%N :: 58%N :: ?l)) with l.
    clearbody x. set (u := unescape _) in *.
    destruct (contains sep u); [|discriminate P].
    destruct (split_once sep u) as [[ar ti]|]; [|discriminate P].
    injection P as -> -> ->. reflexivity.
  - replace ([] ++ [ch_quote] ++ _escape_quotes a ++ sep ++
               _escape_quotes t ++ [ch_quote] ++ [ch_lf])
      with (ch_quote :: x ++ [ch_quote; ch_lf])
      by (subst x; cbn [app]; rewrite <- !app_assoc; reflexivity).
    rewrite strip_line by reflexivity.
    change (startswith (py "a:") (ch_quote :: ?l)) with false. cbv iota.
    clearbody x. set (u := unescape _) in *.
    destruct (contains sep u); [|discriminate P].
    destruct (split_once sep u) as [[ar ti]|]; [|discriminate P].
    injection P as -> -> ->. reflexivity.
Qed.

Lemma no_line_break_elem (s : pystr) :
  no_line_break s = true -> (ch_lf ∉ s) /\ (ch_cr ∉ s).
Proof.
  unfold no_line_break. rewrite forallb_forall. intros H.
  split; intros Hin; apply list_elem_of_In in Hin; apply H in Hin;
    discriminate Hin.
Qed.

Lemma wishlist_line_body (a t : pystr) (is_album : bool) :
  exists body,
    wishlist_line a t is_album = body ++ [ch_lf]
    /\ forall c, c ∈ body ->
                 c ∈ a \/ c ∈ t \/ c ∈ [97; 58; 34; 92; 32; 45]%N.
Proof.
  exists ((if is_album then py "a:" else []) ++ [ch_quote] ++ _escape_quotes a
          ++ sep ++ _escape_quotes t ++ [ch_quote]).
  split.
  - unfold wishlist_line. cbv zeta. rewrite <- !app_assoc. reflexivity.
  - intros c. rewrite !elem_of_app. intros [H | [H | [H | [H | [H | H]]]]].
    + right; right. destruct is_album; [|inversion H].
      change (py "a:") with [97; 58]%N in H. set_solver.
    + right; right. set_solver.
    + apply escape_elem in H as [H | ->]; [auto|]. right; right. set_solver.
    + right; right. change sep with [32; 45; 32]%N in H. set_solver.
    + apply escape_elem in H as [H | ->]; [auto|]. right; right. set_solver.
    + right; right. set_solver.
Qed.

Lemma file_lines_wishlist_line (a t : pystr) (is_album : bool) :
  no_line_break a = true -> no_line_break t = true ->
  file_lines (wishlist_line a t is_album) = [wishlist_line a t is_album].
Proof.
  intros Ha Ht. apply no_line_break_elem in Ha as [Ha1 Ha2].
  apply no_line_break_elem in Ht as [Ht1 Ht2].
  destruct (wishlist_line_body a t is_album) as (body & -> & Hb).
  unfold file_lines. apply (lines_from_one_line body []).
  - intros H. destruct (Hb _ H) as [H' | [H' | H']]; [tauto | tauto |].
    clear -H'. set_solver.
  - intros H. destruct (Hb _ H) as [H' | [H' | H']]; [tauto | tauto |].
    clear -H'. set_solver.
Qed.

Lemma encodable_app (a b : pystr) :
  encodable (a ++ b) = encodable a && encodable b.
Proof. apply forallb_app. Qed.

Lemma encodable_cons (c : N) (s : pystr) :
  encodable (c :: s) = negb (is_surrogate c) && encodable s.
Proof. reflexivity. Qed.

Lemma encodable_escape (s : pystr) :
  encodable (_escape_quotes s) = encodable s.
Proof.
  induction s as [|c s IH]; [reflexivity|].
  rewrite escape_cons. destruct (c =? ch_quote)%N eqn:E.
  - apply N.eqb_eq in E. subst c. rewrite !encodable_cons, IH. reflexivity.
  - rewrite !encodable_cons, IH. reflexivity.
Qed.

(** A line can be encoded exactly when artist and title can. *)
Lemma encodable_wishlist_line (a t : pystr) (is_album : bool) :
  encodable (wishlist_line a t is_album) = encodable a && encodable t.
Proof.
  unfold wishlist_line. cbv zeta.
  rewrite !encodable_app, !encodable_escape.
  destruct is_album; cbn; rewrite !andb_true_r; reflexivity.
Qed.

Lemma append_to_wishlist_ok (w : world) (a t : pystr) (is_album : bool) :
  encodable a = true -> encodable t = true ->
  append_to_wishlist a t is_album w
  = (Ret tt,
     set_wishlist_file
       (Some (default [] (wishlist_file w) ++ wishlist_line a t is_album)) w).
Proof.
  intros Ha Ht. unfold append_to_wishlist, wishlist_write, open_append.
  rewrite encodable_wishlist_line, Ha, Ht. destruct w; reflexivity.
Qed.

(** C3 (as amended).  One entry appended to an empty wishlist is read back
    as exactly that entry, quotes included, for an artist and a title
    that can be encoded (they hold no surrogate), that hold no line break
    and no leading or trailing whitespace, where the artist followed by a
    space holds no [" - "] (it neither contains the separator nor ends in
    [" -"]). *)
Theorem wishlist_round_trip (w : world) (artist title : pystr)
  (is_album : bool) :
  default [] (wishlist_file w) = [] ->
  encodable artist = true -> encodable title = true ->
  no_line_break artist = true -> no_line_break title = true ->
  strip artist = artist -> strip title = title ->
  contains sep (artist ++ [ch_space]) = false ->
  exists w1,
    append_to_wishlist artist title is_album w = (Ret tt, w1)
    /\ parse_wishlist w1
       = [WlItem artist title is_album (artist ++ sep ++ title)].
Proof.
  intros He Ea Et Ha Ht Sa St Hs.
  rewrite (append_to_wishlist_ok w artist title is_album Ea Et).
  eexists. split; [reflexivity|].
  unfold parse_wishlist.
  cbn [wishlist_file set_wishlist_file]. rewrite He. cbn [app].
  rewrite (file_lines_wishlist_line _ _ _ Ha Ht). cbn [omap list_omap].
  rewrite (parse_line_wishlist_line _ _ _ Sa St Hs). reflexivity.
Qed.

Lemma wishlist_round_trip_witness :
  exists w1,
    append_to_wishlist guns_n_roses (py "Appetite") true
      (fresh_process FMissing None) = (Ret tt, w1)
    /\ parse_wishlist w1
       = [WlItem guns_n_roses (py "Appetite") true
            (guns_n_roses ++ sep ++ py "Appetite")].
Proof.
  apply (wishlist_round_trip (fresh_process FMissing None) guns_n_roses
           (py "Appetite") true); reflexivity.
Defined.

(** C3, the claim as first stated fails: the reader splits at the first
    [" - "], so an artist that holds the separator, or ends in [" -"], comes
    back cut; it strips both fields, so a leading space is lost; it reads
    line by line, so a line feed inside the artist cuts the entry; and an
    artist that is a lone surrogate cannot be written at all. *)
Lemma wishlist_round_trip_fails_on_separator :
  let read artist title :=
    parse_wishlist
      (snd (append_to_wishlist artist title true
              (fresh_process FMissing None))) in
  read (py "A - B") (py "C")
  = [WlItem (py "A") (py "B - C") true (py "A - B - C")]
  /\ read (py "A -") (py "B")
     = [WlItem (py "A") (py "- B") true (py "A - - B")]
  /\ read (py " A") (py "B")
     = [WlItem (py "A") (py "B") true (py " A - B")]
  /\ read (py "A" ++ [ch_lf] ++ py "B") (py "C")
     = [WlItem (py "B") (py "C" ++ [ch_quote]) false
          (py "B - C" ++ [ch_quote])]
  /\ py "A" <> py "A - B"
  /\ fst (append_to_wishlist lone_surrogate (py "C") true
            (fresh_process FMissing None)) = Raised
  /\ read lone_surrogate (py "C") = [].
Proof. cbv zeta. repeat split. discriminate. Qed.

(** ** The wishlist as a sequence of lines *)

Lemma lines_from_app_lf (c l : pystr) :
  forall (b : bool) (cur : pystr),
    (b = true -> cur = []) ->
    lines_from b cur (c ++ [ch_lf] ++ l)
    = lines_from b cur (c ++ [ch_lf]) ++ lines_from false [] l.
Proof.
  induction c as [|x c IH]; intros b cur Hb.
  - cbn [app lines_from]. change (ch_lf =? ch_lf)%N with true. cbv iota.
    destruct b; [|reflexivity]. rewrite (Hb eq_refl). reflexivity.
  - cbn [app lines_from]. destruct (x =? ch_lf)%N.
    + destruct b.
      * apply IH. discriminate.
      * cbn [app]. f_equal. apply IH. discriminate.
    + destruct (x =? ch_cr)%N.
      * cbn [app]. f_equal. apply IH. reflexivity.
      * apply IH. discriminate.
Qed.

Lemma lf_terminated_cases (content : pystr) :
  lf_terminated content = true ->
  content = [] \/ exists c, content = c ++ [ch_lf].
Proof.
  unfold lf_terminated. destruct (rev content) as [|x r] eqn:E.
  - intros _. left. apply (f_equal (@rev N)) in E.
    rewrite rev_involutive in E. exact E.
  - intros H. apply N.eqb_eq in H. subst x. right. exists (rev r).
    apply (f_equal (@rev N)) in E. rewrite rev_involutive in E. exact E.
Qed.

Lemma lf_terminated_app_line (content : pystr) (a t : pystr) (b : bool) :
  lf_terminated (content ++ wishlist_line a t b) = true.
Proof.
  destruct (wishlist_line_body a t b) as (body & -> & _).
  unfold lf_terminated. rewrite app_assoc, rev_app_distr. reflexivity.
Qed.

Lemma file_lines_app (content l : pystr) :
  lf_terminated content = true ->
  file_lines (content ++ l) = file_lines content ++ file_lines l.
Proof.
  intros H. destruct (lf_terminated_cases content H) as [-> | (c & ->)];
    [reflexivity|].
  unfold file_lines. rewrite <- app_assoc.
  apply lines_from_app_lf. discriminate.
Qed.

Lemma parse_wishlist_after_line (w w' : world) (a t : pystr) (b : bool) :
  wishlist_file w'
  = Some (default [] (wishlist_file w) ++ wishlist_line a t b) ->
  lf_terminated (default [] (wishlist_file w)) = true ->
  no_line_break a = true -> no_line_break t = true ->
  strip a = a -> strip t = t ->
  contains sep (a ++ [ch_space]) = false ->
  parse_wishlist w' = parse_wishlist w ++ [WlItem a t b (a ++ sep ++ t)].
Proof.
  intros Hw' Hlf Ha Ht Sa St Hs. unfold parse_wishlist. rewrite Hw'.
  rewrite (file_lines_app _ _ Hlf), omap_app.
  rewrite (file_lines_wishlist_line _ _ _ Ha Ht). cbn [omap list_omap].
  rewrite (parse_line_wishlist_line _ _ _ Sa St Hs).
  destruct (wishlist_file w); reflexivity.
Qed.


(** ** The key of the downloaded set *)



Lemma download_loop_spec (attempt : nat -> wl_item -> bool)
  (items : list wl_item) :
  forall (i : nat) (dl : gset pystr) (qc : nat) (sr : list (nat * wl_item)),
  exists dl' qc' new,
    download_loop attempt i items dl qc sr = (dl', qc', sr ++ new)
    /\ (forall j it, (j, it) ∈ new -> it ∈ items /\ (wl_raw it ∉ dl))
    /\ (forall k, k ∈ dl' <->
                  k ∈ dl \/ exists j it, (j, it) ∈ new
                                         /\ attempt j it = true
                                         /\ wl_raw it = k).
Proof.
  induction items as [|it rest IH]; intros i dl qc sr.
  - exists dl, qc, []. rewrite app_nil_r. split; [reflexivity|]. split.
    + intros j it H. inversion H.
    + intros k. split; [auto|]. intros [H | (j & it & H & _)]; [exact H|].
      inversion H.
  - cbn [download_loop]. destruct (bool_decide (wl_raw it ∈ dl)) eqn:Ek.
    + destruct (IH (S i) dl qc sr) as (dl' & qc' & new & E & P1 & P2).
      exists dl', qc', new. split; [exact E|]. split; [|exact P2].
      intros j x H. destruct (P1 j x H) as [H1 H2]. split; [|exact H2].
      right. exact H1.
    + apply bool_decide_eq_false in Ek. destruct (attempt i it) eqn:Ea.
      * destruct (IH (S i) (dl ∪ {[wl_raw it]}) (S qc) (sr ++ [(i, it)]))
          as (dl' & qc' & new & E & P1 & P2).
        exists dl', qc', ((i, it) :: new).
        split; [rewrite E, <- app_assoc; reflexivity|]. split.
        -- intros j x H. apply elem_of_cons in H as [[= -> ->] | H].
           ++ split; [left | exact Ek].
           ++ destruct (P1 j x H) as [H1 H2]. split; [right; exact H1|].
              clear -H2. set_solver.
        -- intros k. rewrite P2. split.
           ++ intros [H | (j & x & H & A & R)].
              ** apply elem_of_union in H as [H | H]; [left; exact H|].
                 apply elem_of_singleton in H. right. exists i, it.
                 split; [left|]. split; [exact Ea | congruence].
              ** right. exists j, x. split; [right; exact H|]. split; assumption.
           ++ intros [H | (j & x & H & A & R)].
              ** left. apply elem_of_union. left. exact H.
              ** apply elem_of_cons in H as [[= -> ->] | H].
                 --- left. apply elem_of_union. right.
                     apply elem_of_singleton. congruence.
                 --- right. exists j, x. split; [exact H|]. split; assumption.
      * destruct (IH (S i) dl qc (sr ++ [(i, it)]))
          as (dl' & qc' & new & E & P1 & P2).
        exists dl', qc', ((i, it) :: new).
        split; [rewrite E, <- app_assoc; reflexivity|]. split.
        -- intros j x H. apply elem_of_cons in H as [[= -> ->] | H].
           ++ split; [left | exact Ek].
           ++ destruct (P1 j x H) as [H1 H2]. split; [right; exact H1|exact H2].
        -- intros k. rewrite P2. split.
           ++ intros [H | (j & x & H & A & R)]; [left; exact H|].
              right. exists j, x. split; [right; exact H|]. split; assumption.
           ++ intros [H | (j & x & H & A & R)]; [left; exact H|].
              apply elem_of_cons in H as [[= -> ->] | H]; [congruence|].
              right. exists j, x. split; [exact H|]. split; assumption.
Qed.

Lemma split_once_of_contains (p s : pystr) :
  contains p s = true -> exists a b, split_once p s = Some (a, b).
Proof.
  induction s as [|c s IH]; intros H.
  - cbn [contains] in H. rewrite orb_false_r in H.
    exists [], (drop (length p) []). cbn [split_once]. rewrite H. reflexivity.
  - rewrite split_once_cons. cbn [contains] in H.
    destruct (startswith p (c :: s)); [eauto|].
    destruct (IH H) as (a & b & ->). eauto.
Qed.

Lemma download_loop_covers (attempt : nat -> wl_item -> bool)
  (items : list wl_item) :
  forall (i : nat) (dl : gset pystr) (qc : nat) (sr : list (nat * wl_item)),
  exists dl' new,
    download_loop attempt i items dl qc sr
    = (dl',
       (qc + length (List.filter (fun p => attempt (fst p) (snd p)) new))%nat,
       sr ++ new)
    /\ dl ⊆ dl'
    /\ (forall it, it ∈ items ->
          wl_raw it ∈ dl'
          \/ exists j, (j, it) ∈ new /\ attempt j it = false).
Proof.
  induction items as [|it rest IH]; intros i dl qc sr.
  - exists dl, []. rewrite app_nil_r. cbn. rewrite Nat.add_0_r.
    split; [reflexivity|]. split; [reflexivity|]. intros x H. inversion H.
  - cbn [download_loop]. destruct (bool_decide (wl_raw it ∈ dl)) eqn:Ek.
    + apply bool_decide_eq_true in Ek.
      destruct (IH (S i) dl qc sr) as (dl' & new & E & Hsub & Hcov).
      exists dl', new. split; [exact E|]. split; [exact Hsub|].
      intros x Hx. apply elem_of_cons in Hx as [-> | Hx];
        [left; apply Hsub, Ek | apply Hcov, Hx].
    + destruct (attempt i it) eqn:Ea.
      * destruct (IH (S i) (dl ∪ {[wl_raw it]}) (S qc) (sr ++ [(i, it)]))
          as (dl' & new & E & Hsub & Hcov).
        exists dl', ((i, it) :: new). split.
        { rewrite E, <- app_assoc. cbn [List.filter fst snd]. rewrite Ea.
          cbn [length app]. rewrite <- plus_n_Sm. reflexivity. }
        split; [clear -Hsub; set_solver|].
        intros x Hx. apply elem_of_cons in Hx as [-> | Hx].
        -- left. apply Hsub. clear. set_solver.
        -- destruct (Hcov x Hx) as [H | (j & H & A)]; [left; exact H|].
           right. exists j. split; [right; exact H | exact A].
      * destruct (IH (S i) dl qc (sr ++ [(i, it)]))
          as (dl' & new & E & Hsub & Hcov).
        exists dl', ((i, it) :: new). split.
        { rewrite E, <- app_assoc. cbn [List.filter fst snd]. rewrite Ea.
          reflexivity. }
        split; [exact Hsub|].
        intros x Hx. apply elem_of_cons in Hx as [-> | Hx].
        -- right. exists i. split; [left | exact Ea].
        -- destruct (Hcov x Hx) as [H | (j & H & A)]; [left; exact H|].
           right. exists j. split; [right; exact H | exact A].
Qed.






(** ** The album scorer *)

Section ScorerFacts.

Variable lower : pystr -> pystr.
Variables artist album : pystr.
Variable min_files : Z.

Abbreviation score := (score_of lower artist album).
Abbreviation chosen := (match_of lower artist album).
Abbreviation step := (candidate_step lower artist album min_files).
Abbreviation alive := (survives lower min_files).

Lemma score_of_formula (c : response * (pystr * list sfile)) :
  score c = score_formula lower artist album c.
Proof.
  unfold score_of, score_formula, directory_score. cbv zeta.
  destruct (contains (lower artist) _), (contains (lower album) _),
    (1000000 <? uploadSpeed (fst c)), (hasFreeUploadSlot (fst c)); lia.
Qed.

Lemma score_of_at_least (c : response * (pystr * list sfile)) :
  alive c = true -> 10 * min_files <= score c.
Proof.
  unfold survives. rewrite negb_true_iff, Z.ltb_ge. intros H.
  rewrite score_of_formula. unfold score_formula. cbv zeta.
  destruct (contains (lower artist) _), (contains (lower album) _),
    (1000000 <? uploadSpeed (fst c)), (hasFreeUploadSlot (fst c)); lia.
Qed.

Lemma candidate_step_eq (st : option best_match * Z)
  (c : response * (pystr * list sfile)) :
  step st c =
  if alive c
  then if snd st <? score c then (Some (chosen c), score c) else st
  else st.
Proof.
  destruct c as [resp [dir_path dir_files]].
  unfold candidate_step, directory_step, survives, match_of, score_of.
  cbn [fst snd]. destruct (_ <? min_files); reflexivity.
Qed.

Lemma response_step_visited (st : option best_match * Z) (resp : response) :
  response_step lower artist album min_files st resp
  = fold_left step (map (pair resp) (group_by_directory (files resp))) st.
Proof.
  unfold response_step.
  assert (G : forall dirs st0,
             fold_left (directory_step lower artist album min_files resp)
                       dirs st0
             = fold_left step (map (pair resp) dirs) st0).
  { induction dirs as [|d dirs IH]; intros st0; [reflexivity|].
    cbn [fold_left map]. rewrite IH. reflexivity. }
  destruct (files resp) as [|f fs] eqn:E; [reflexivity|]. apply G.
Qed.

Lemma responses_fold_visited (responses : list response) :
  forall st,
    fold_left (response_step lower artist album min_files) responses st
    = fold_left step (visited responses) st.
Proof.
  induction responses as [|r rs IH]; intros st; [reflexivity|].
  cbn [fold_left visited flat_map]. rewrite fold_left_app, IH.
  rewrite response_step_visited. reflexivity.
Qed.

(** The scan keeps the first directory whose score is above all those
    before it and not below any of those after it, or keeps its state when
    no surviving directory beats the starting score. *)
Lemma scan_first_maximum (cs : list (response * (pystr * list sfile))) :
  forall (bm : option best_match) (bs : Z),
    (fold_left step cs (bm, bs) = (bm, bs)
     /\ forall c, c ∈ List.filter alive cs -> score c <= bs)
    \/ exists l1 c l2,
         List.filter alive cs = l1 ++ c :: l2
         /\ fold_left step cs (bm, bs) = (Some (chosen c), score c)
         /\ bs < score c
         /\ (forall x, x ∈ l1 -> score x < score c)
         /\ (forall x, x ∈ l2 -> score x <= score c).
Proof.
  induction cs as [|c cs IH]; intros bm bs.
  - left. split; [reflexivity|]. intros c H. inversion H.
  - cbn [fold_left List.filter]. rewrite candidate_step_eq. cbn [snd].
    destruct (alive c) eqn:Ea; [|apply IH].
    destruct (bs <? score c) eqn:Eb.
    + apply Z.ltb_lt in Eb.
      destruct (IH (Some (chosen c)) (score c))
        as [[E H] | (l1 & c' & l2 & E & F & Hlt & H1 & H2)].
      * right. exists [], c, (List.filter alive cs).
        split; [reflexivity|]. split; [exact E|]. split; [exact Eb|].
        split; [intros x Hx; inversion Hx | exact H].
      * right. exists (c :: l1), c', l2.
        split; [rewrite E; reflexivity|]. split; [exact F|].
        split; [lia|]. split; [|exact H2].
        intros x Hx. apply elem_of_cons in Hx as [-> | Hx]; [exact Hlt|].
        apply H1, Hx.
    + apply Z.ltb_ge in Eb.
      destruct (IH bm bs)
        as [[E H] | (l1 & c' & l2 & E & F & Hlt & H1 & H2)].
      * left. split; [exact E|].
        intros x Hx. apply elem_of_cons in Hx as [-> | Hx]; [exact Eb|].
        apply H, Hx.
      * right. exists (c :: l1), c', l2.
        split; [rewrite E; reflexivity|]. split; [exact F|].
        split; [exact Hlt|]. split; [|exact H2].
        intros x Hx. apply elem_of_cons in Hx as [-> | Hx]; [lia|].
        apply H1, Hx.
Qed.

Lemma search_album_fold (responses : list response) :
  search_album lower artist album min_files responses
  = fst (fold_left step (visited responses) (None, 0)).
Proof.
  unfold search_album. destruct responses as [|r rs]; [reflexivity|].
  rewrite responses_fold_visited. reflexivity.
Qed.

(** What [search_album] returns: the first surviving directory of maximal
    score when that score is above 0, nothing otherwise. *)
Lemma search_album_result (responses : list response) :
  (search_album lower artist album min_files responses = None
   /\ forall c, c ∈ surviving lower min_files responses -> score c <= 0)
  \/ exists l1 c l2,
       surviving lower min_files responses = l1 ++ c :: l2
       /\ search_album lower artist album min_files responses
          = Some (chosen c)
       /\ 0 < score c
       /\ (forall x, x ∈ l1 -> score x < score c)
       /\ (forall x, x ∈ l2 -> score x <= score c).
Proof.
  rewrite search_album_fold. unfold surviving.
  destruct (scan_first_maximum (visited responses) None 0)
    as [[E H] | (l1 & c & l2 & E & F & Hlt & H1 & H2)].
  - left. rewrite E. split; [reflexivity | exact H].
  - right. exists l1, c, l2. rewrite F. repeat split; assumption.
Qed.

End ScorerFacts.

(** C4 (as amended).  Every visited directory is scored
    [10 * audio + 5 * flac + 50 (artist in path) + 50 (title in path)
     + 20 (uploadSpeed > 1000000) + 30 (free slot)], the paths compared in
    lower case.  When some surviving directory scores above 0, which all of
    them do for [min_files >= 1], [search_album] returns a surviving
    directory whose score no surviving directory exceeds; when none scores
    above 0 it returns nothing.  For the target
    Radiohead, OK Computer, 3 it picks the directory with five FLAC files
    (score 175) over the one with three MP3 files (score 30), in either
    order of the responses. *)
Theorem search_album_scores_and_selects (lower : pystr -> pystr)
  (artist album : pystr) (min_files : Z) (responses : list response) :
  (forall c, score_of lower artist album c
             = score_formula lower artist album c)
  /\ (forall c0,
        c0 ∈ surviving lower min_files responses ->
        0 < score_of lower artist album c0 ->
        exists c,
          c ∈ surviving lower min_files responses
          /\ search_album lower artist album min_files responses
             = Some (match_of lower artist album c)
          /\ bm_score (match_of lower artist album c)
             = score_of lower artist album c
          /\ forall x, x ∈ surviving lower min_files responses ->
                       score_of lower artist album x
                       <= score_of lower artist album c)
  /\ ((forall c, c ∈ surviving lower min_files responses ->
                  score_of lower artist album c <= 0) ->
      search_album lower artist album min_files responses = None)
  /\ (1 <= min_files ->
      forall c, c ∈ surviving lower min_files responses ->
                0 < score_of lower artist album c)
  /\ (let target := search_album ascii_lower (py "Radiohead")
                      (py "OK Computer") 3 in
      map (score_of ascii_lower (py "Radiohead") (py "OK Computer"))
          (surviving ascii_lower 3 [flac_peer; mp3_peer]) = [175; 30]
      /\ option_map bm_username (target [flac_peer; mp3_peer])
         = Some (username flac_peer)
      /\ option_map bm_score (target [flac_peer; mp3_peer]) = Some 175
      /\ target [mp3_peer; flac_peer] = target [flac_peer; mp3_peer]).
Proof.
  split; [apply score_of_formula|]. split; [|split; [|split]].
  - intros c0 Hc0 Hpos.
    destruct (search_album_result lower artist album min_files responses)
      as [[_ H] | (l1 & c & l2 & E & F & _ & H1 & H2)].
    + specialize (H c0 Hc0). lia.
    + exists c. rewrite E. split; [apply elem_of_app; right; left|].
      split; [exact F|]. split; [reflexivity|].
      intros x Hx. apply elem_of_app in Hx as [Hx | Hx].
      * specialize (H1 x Hx). lia.
      * apply elem_of_cons in Hx as [-> | Hx]; [lia | apply H2, Hx].
  - intros Hnone.
    destruct (search_album_result lower artist album min_files responses)
      as [[E _] | (l1 & c & l2 & E & _ & Hpos & _)]; [exact E|].
    assert (Hc : c ∈ surviving lower min_files responses)
      by (rewrite E; apply elem_of_app; right; left).
    specialize (Hnone c Hc). lia.
  - intros Hmin c Hc. unfold surviving in Hc.
    apply list_elem_of_In, List.filter_In in Hc. destruct Hc as [_ Hc].
    pose proof (score_of_at_least lower artist album min_files c Hc). lia.
  - cbv zeta. repeat split; vm_compute; reflexivity.
Qed.

Lemma search_album_scores_and_selects_witness :
  exists c,
    c ∈ surviving ascii_lower 3 [flac_peer; mp3_peer]
    /\ search_album ascii_lower (py "Radiohead") (py "OK Computer") 3
         [flac_peer; mp3_peer]
       = Some (match_of ascii_lower (py "Radiohead") (py "OK Computer") c)
    /\ bm_score (match_of ascii_lower (py "Radiohead") (py "OK Computer") c)
       = score_of ascii_lower (py "Radiohead") (py "OK Computer") c
    /\ forall x, x ∈ surviving ascii_lower 3 [flac_peer; mp3_peer] ->
                 score_of ascii_lower (py "Radiohead") (py "OK Computer") x
                 <= score_of ascii_lower (py "Radiohead") (py "OK Computer") c.
Proof.
  apply (proj1 (proj2 (search_album_scores_and_selects ascii_lower
                         (py "Radiohead") (py "OK Computer") 3
                         [flac_peer; mp3_peer]))
           (mp3_peer, (py "stuff/misc", files mp3_peer))).
  - vm_compute. right. left.
  - vm_compute. reflexivity.
Defined.

(** C4, the claim as first stated fails: with [min_files = 0] a directory
    without audio files survives, scores 0, and is not returned, since only
    a score above the initial [best_score = 0] is kept. *)
Lemma search_album_drops_zero_score :
  surviving ascii_lower 0 [cover_peer]
  = [(cover_peer, (py "misc", files cover_peer))]
  /\ score_of ascii_lower (py "Radiohead") (py "OK Computer")
       (cover_peer, (py "misc", files cover_peer)) = 0
  /\ search_album ascii_lower (py "Radiohead") (py "OK Computer") 0
       [cover_peer] = None.
Proof. repeat split. Qed.

(** C6 (as amended).  When some surviving directory scores above 0,
    [search_album] returns the surviving directory of maximal score that
    is visited first: every surviving directory visited before it scores
    strictly less and none visited after it scores more, so among
    directories of equal maximal score the first one visited is selected.
    When no surviving directory scores above 0 it returns nothing, however
    many of them share the maximum. *)
Theorem search_album_keeps_first_maximum (lower : pystr -> pystr)
  (artist album : pystr) (min_files : Z) (responses : list response) :
  (forall c0,
     c0 ∈ surviving lower min_files responses ->
     0 < score_of lower artist album c0 ->
     exists l1 c l2,
       surviving lower min_files responses = l1 ++ c :: l2
       /\ search_album lower artist album min_files responses
          = Some (match_of lower artist album c)
       /\ (forall x, x ∈ l1 ->
             score_of lower artist album x < score_of lower artist album c)
       /\ (forall x, x ∈ l2 ->
             score_of lower artist album x <= score_of lower artist album c))
  /\ ((forall c, c ∈ surviving lower min_files responses ->
                 score_of lower artist album c <= 0) ->
      search_album lower artist album min_files responses = None).
Proof.
  split.
  - intros c0 Hc0 Hpos.
    destruct (search_album_result lower artist album min_files responses)
      as [[_ H] | (l1 & c & l2 & E & F & _ & H1 & H2)].
    + specialize (H c0 Hc0). lia.
    + exists l1, c, l2. repeat split; assumption.
  - intros Hnone.
    destruct (search_album_result lower artist album min_files responses)
      as [[E _] | (l1 & c & l2 & E & _ & Hpos & _)]; [exact E|].
    assert (Hc : c ∈ surviving lower min_files responses)
      by (rewrite E; apply elem_of_app; right; left).
    specialize (Hnone c Hc). lia.
Qed.

Lemma search_album_keeps_first_maximum_witness :
  exists l1 c l2,
    surviving ascii_lower 3 [tie_first; tie_last] = l1 ++ c :: l2
    /\ search_album ascii_lower (py "Low") (py "Trust") 3
         [tie_first; tie_last]
       = Some (match_of ascii_lower (py "Low") (py "Trust") c)
    /\ (forall x, x ∈ l1 ->
          score_of ascii_lower (py "Low") (py "Trust") x
          < score_of ascii_lower (py "Low") (py "Trust") c)
    /\ (forall x, x ∈ l2 ->
          score_of ascii_lower (py "Low") (py "Trust") x
          <= score_of ascii_lower (py "Low") (py "Trust") c).
Proof.
  apply (proj1 (search_album_keeps_first_maximum ascii_lower (py "Low")
                  (py "Trust") 3 [tie_first; tie_last])
           (tie_last, (py "b/y", files tie_last))).
  - vm_compute. right. left.
  - vm_compute. reflexivity.
Defined.

(** C6, the claim as first stated fails: of two surviving directories with
    the same score 30, the one visited first is returned, not the last. *)
Lemma search_album_tie_goes_to_first :
  map (score_of ascii_lower (py "Low") (py "Trust"))
      (surviving ascii_lower 3 [tie_first; tie_last]) = [30; 30]
  /\ option_map bm_username
       (search_album ascii_lower (py "Low") (py "Trust") 3
          [tie_first; tie_last]) = Some (username tie_first)
  /\ username tie_first <> username tie_last.
Proof. repeat split. discriminate. Qed.

(** With [min_files = 0] two directories without audio files survive and
    tie at the maximal score 0: nothing is returned. *)
Lemma search_album_tie_at_zero :
  map (score_of ascii_lower (py "Low") (py "Trust"))
      (surviving ascii_lower 0 [cover_peer; cover_peer]) = [0; 0]
  /\ search_album ascii_lower (py "Low") (py "Trust") 0
       [cover_peer; cover_peer] = None.
Proof. split; reflexivity. Qed.

(** ** The writers of the wishlist *)



Lemma open_append_file (w : world) :
  wishlist_file (open_append w) = Some (default [] (wishlist_file w)).
Proof. reflexivity. Qed.

Lemma set_wishlist_open_append (c : option pystr) (w : world) :
  set_wishlist_file c (open_append w) = set_wishlist_file c w.
Proof. destruct w; reflexivity. Qed.

Lemma set_wishlist_same (w : world) (content : pystr) :
  wishlist_file w = Some content ->
  set_wishlist_file (Some content) w = w.
Proof. destruct w; cbn. intros ->. reflexivity. Qed.

Lemma process_items_spec (items : list item) :
  forall (count : nat) (w : world) (content : pystr),
    wishlist_file w = Some content ->
    (forall y, y ∈ items -> writable y = true) ->
    process_items items count w
    = (Ret (count + written_count items)%nat,
       set_wishlist_file (Some (content ++ lines_of items)) w).
Proof.
  induction items as [|it rest IH]; intros count w content Hw Hok.
  - cbn. rewrite app_nil_r, Nat.add_0_r, (set_wishlist_same w content Hw).
    reflexivity.
  - cbn [process_items]. unfold lines_of, written_count.
    cbn [flat_map List.filter].
    assert (Hrest : forall y, y ∈ rest -> writable y = true)
      by (intros y Hy; apply Hok; right; exact Hy).
    pose proof (Hok it (list_elem_of_here _ _)) as Hit. unfold writable in Hit.
    destruct (item_line it) as [|line|] eqn:E; [| |discriminate Hit].
    + rewrite (IH count w content Hw Hrest). reflexivity.
    + unfold wishlist_write. rewrite Hit, Hw. cbn [default from_option id].
      rewrite (IH (S count) _ (content ++ line)); [|reflexivity|exact Hrest].
      cbn [length]. rewrite <- plus_n_Sm, <- app_assoc.
      destruct w; reflexivity.
Qed.

(** The loop stops at the first item that it cannot write. *)
Lemma process_items_stops (ok : list item) (bad : item) (rest : list item) :
  forall (count : nat) (w : world) (content : pystr),
    wishlist_file w = Some content ->
    (forall y, y ∈ ok -> writable y = true) ->
    writable bad = false ->
    process_items (ok ++ bad :: rest) count w
    = (Raised, set_wishlist_file (Some (content ++ lines_of ok)) w).
Proof.
  induction ok as [|it ok IH]; intros count w content Hw Hok Hbad.
  - cbn [app process_items lines_of flat_map]. rewrite app_nil_r.
    rewrite (set_wishlist_same w content Hw). unfold writable in Hbad.
    destruct (item_line bad) as [|line|]; [discriminate Hbad | |reflexivity].
    unfold wishlist_write. rewrite Hbad. reflexivity.
  - cbn [app process_items]. unfold lines_of. cbn [flat_map].
    assert (Hrest : forall y, y ∈ ok -> writable y = true)
      by (intros y Hy; apply Hok; right; exact Hy).
    pose proof (Hok it (list_elem_of_here _ _)) as Hit. unfold writable in Hit.
    destruct (item_line it) as [|line|] eqn:E; [| |discriminate Hit].
    + rewrite (IH count w content Hw Hrest Hbad). reflexivity.
    + unfold wishlist_write. rewrite Hit, Hw. cbn [default from_option id].
      rewrite (IH (S count) _ (content ++ line));
        [|reflexivity|exact Hrest|exact Hbad].
      rewrite <- app_assoc. destruct w; reflexivity.
Qed.

Lemma process_approved_to_wishlist_spec (items : list item) (w : world) :
  items <> [] ->
  (forall y, y ∈ items -> writable y = true) ->
  process_approved_to_wishlist items w
  = (Ret (written_count items),
     set_wishlist_file
       (Some (default [] (wishlist_file w) ++ lines_of items)) w).
Proof.
  intros Hne Hok. unfold process_approved_to_wishlist.
  destruct items as [|it rest]; [congruence|].
  rewrite (process_items_spec _ 0 _ (default [] (wishlist_file w)));
    [|reflexivity|exact Hok].
  rewrite set_wishlist_open_append. reflexivity.
Qed.

Lemma process_approved_to_wishlist_stops (ok : list item) (bad : item)
  (rest : list item) (w : world) :
  (forall y, y ∈ ok -> writable y = true) ->
  writable bad = false ->
  process_approved_to_wishlist (ok ++ bad :: rest) w
  = (Raised,
     set_wishlist_file (Some (default [] (wishlist_file w) ++ lines_of ok)) w).
Proof.
  intros Hok Hbad. unfold process_approved_to_wishlist.
  destruct (ok ++ bad :: rest) as [|a0 l0] eqn:E.
  { destruct ok; discriminate E. }
  rewrite <- E.
  rewrite (process_items_stops ok bad rest 0 _ (default [] (wishlist_file w)));
    [|reflexivity|exact Hok|exact Hbad].
  rewrite set_wishlist_open_append. reflexivity.
Qed.

Lemma lines_of_single (x : item) (line : pystr) :
  item_line x = WriteLine line ->
  lines_of [x] = line /\ written_count [x] = 1%nat.
Proof.
  intros E. unfold lines_of, written_count. cbn. rewrite E.
  split; [apply app_nil_r | reflexivity].
Qed.

(** The first item that cannot be written stops the loop. *)
Lemma first_unwritable (l : list item) (x : item) :
  writable x = false ->
  exists ok bad rest,
    l ++ [x] = ok ++ bad :: rest
    /\ (forall y, y ∈ ok -> writable y = true)
    /\ writable bad = false.
Proof.
  intros Hline. induction l as [|a l IH].
  - exists [], x, []. split; [reflexivity|]. split; [|exact Hline].
    intros y Hy. inversion Hy.
  - destruct IH as (ok & bad & rest & E & Hok & Hbad).
    destruct (writable a) eqn:Ea.
    + exists (a :: ok), bad, rest. cbn [app]. rewrite E.
      split; [reflexivity|]. split; [|exact Hbad].
      intros y Hy. apply elem_of_cons in Hy as [-> | Hy];
        [exact Ea | apply Hok, Hy].
    + exists [], a, (l ++ [x]). split; [reflexivity|]. split; [|exact Ea].
      intros y Hy. inversion Hy.
Qed.

(** ** Draining the approved list *)

Lemma process_approved_queue_general (w : world) :
  let q := current_queue w in
  (forall y, y ∈ approved q -> writable y = true) ->
  exists w1,
    process_approved_queue w = (Ret (written_count (approved q)), w1)
    /\ queue_file w1 = FStored (Some (pending q)) (Some []) (Some (rejected q))
    /\ wishlist_file w1
       = match approved q with
         | [] => wishlist_file w
         | _ => Some (default [] (wishlist_file w) ++ lines_of (approved q))
         end.
Proof.
  cbv zeta. unfold process_approved_queue, locked_queue, current_queue.
  destruct w as [[dp da dr] f wl].
  destruct f as [| | |p [ap|] r];
    cbn [queue_file set_queue_file json_dumps default_copy resolve deref
         json_loads_filled DEFAULT_QUEUE q_pending q_approved q_rejected
         pending approved rejected wishlist_file default from_option id];
    intros Hok.
  5: eexists; repeat split.
  1-3: rename da into ap.
  all: destruct ap as [|a0 rest]; [eexists; repeat split|].
  all: rewrite process_approved_to_wishlist_spec
         by (first [discriminate | exact Hok]).
  all: eexists; repeat split.
Qed.

Lemma process_approved_queue_stops (w : world) (ok : list item) (bad : item)
  (rest : list item) :
  approved (current_queue w) = ok ++ bad :: rest ->
  (forall y, y ∈ ok -> writable y = true) ->
  writable bad = false ->
  exists w1,
    process_approved_queue w = (Raised, w1)
    /\ current_queue w1 = current_queue w
    /\ wishlist_file w1
       = Some (default [] (wishlist_file w) ++ lines_of ok).
Proof.
  unfold process_approved_queue, locked_queue, current_queue.
  destruct w as [[dp da dr] f wl].
  destruct f as [| | |p [ap|] r];
    cbn [queue_file set_queue_file json_dumps default_copy resolve deref
         json_loads_filled DEFAULT_QUEUE q_pending q_approved q_rejected
         pending approved rejected wishlist_file default from_option id];
    intros Hap Hok Hbad.
  5: destruct ok; discriminate Hap.
  1-3: rename da into ap.
  all: subst ap;
    rewrite (process_approved_to_wishlist_stops ok bad rest _ Hok Hbad);
    (destruct (ok ++ bad :: rest) eqn:E; [destruct ok; discriminate E|]);
    eexists; repeat split.
Qed.

(** ** The review service *)

(** [approve_items] never touches the wishlist, whether it returns or
    raises. *)
Lemma approve_items_wishlist (mbids : list value) (w : world) :
  wishlist_file (snd (approve_items mbids w)) = wishlist_file w.
Proof.
  unfold approve_items. destruct (set_of mbids) as [s|]; [|reflexivity].
  unfold locked_queue, on_dict, approve_block.
  destruct w as [[dp da dr] f wl].
  destruct f as [| | |p a r];
    cbn [queue_file set_queue_file json_dumps default_copy resolve deref
         json_loads_filled DEFAULT_QUEUE q_pending q_approved q_rejected
         pending approved rejected wishlist_file set_default];
    destruct (for_loop _ _ _) as [[[]|] [[[ar ash] n] np]]; reflexivity.
Qed.

Lemma filter_in_list_strs (mbids : list pystr) (l : list item) :
  List.filter (fun i => in_list (get_mbid i) (map VStr mbids)) l
  = List.filter (mbid_in (list_to_set mbids)) l.
Proof. apply List.filter_ext. intros a. apply in_list_strs. Qed.

Lemma QueueManager_approve_values_unfold (mbids : list value) (w : world) :
  forallb hashable mbids = true ->
  mbids_hashable (pending (current_queue w)) = true ->
  let q := current_queue w in
  let sel := fun it => in_list (get_mbid it) mbids in
  let moved := List.filter sel (pending q) in
  exists w1,
    queue_file w1
    = FStored (Some (List.filter (fun it => negb (sel it)) (pending q)))
              (Some (approved q ++ moved)) (Some (rejected q))
    /\ wishlist_file w1 = wishlist_file w
    /\ QueueManager_approve mbids w
       = match moved with
         | [] => (Ret O, w1)
         | _ => bind (process_approved_to_wishlist moved w1)
                     (fun _ w' => (Ret (length moved), w'))
         end.
Proof.
  intros Hm Hp. cbv zeta.
  destruct (load_queue_spec w) as (w0 & E0 & C0 & _ & W0).
  destruct (approve_items_values_spec mbids w0 Hm) as (w1 & E1 & F1 & W1);
    [rewrite C0; exact Hp|].
  cbv zeta in E1, F1. rewrite C0 in E1, F1.
  exists w1. split; [exact F1|]. split; [congruence|].
  unfold QueueManager_approve. rewrite E0. cbn [bind].
  rewrite E1. cbn [bind].
  destruct (List.filter (fun it => in_list (get_mbid it) mbids)
                        (pending (current_queue w))); reflexivity.
Qed.

Lemma QueueManager_approve_unfold (mbids : list pystr) (w : world) :
  mbids_hashable (pending (current_queue w)) = true ->
  let q := current_queue w in
  let moved := List.filter (mbid_in (list_to_set mbids)) (pending q) in
  exists w1,
    queue_file w1
    = FStored (Some (List.filter
                       (fun it => negb (mbid_in (list_to_set mbids) it))
                       (pending q)))
              (Some (approved q ++ moved)) (Some (rejected q))
    /\ wishlist_file w1 = wishlist_file w
    /\ QueueManager_approve (map VStr mbids) w
       = match moved with
         | [] => (Ret O, w1)
         | _ => bind (process_approved_to_wishlist moved w1)
                     (fun _ w' => (Ret (length moved), w'))
         end.
Proof.
  intros Hp. cbv zeta.
  destruct (QueueManager_approve_values_unfold (map VStr mbids) w)
    as (w1 & F1 & W1 & EA); [|exact Hp|].
  { pose proof (set_of_strs mbids) as S. unfold set_of in S.
    destruct (forallb hashable (map VStr mbids)); [reflexivity | discriminate]. }
  cbv zeta in F1, EA. rewrite filter_in_list_strs in F1, EA.
  rewrite (List.filter_ext
             (fun it => negb (in_list (get_mbid it) (map VStr mbids)))
             (fun it => negb (mbid_in (list_to_set mbids) it))) in F1
    by (intros a; rewrite in_list_strs; reflexivity).
  exists w1. repeat split; assumption.
Qed.

Lemma QueueManager_approve_general (mbids : list pystr) (w : world) :
  let q := current_queue w in
  let moved := List.filter (mbid_in (list_to_set mbids)) (pending q) in
  mbids_hashable (pending q) = true ->
  (forall y, y ∈ moved -> writable y = true) ->
  exists w1,
    QueueManager_approve (map VStr mbids) w = (Ret (length moved), w1)
    /\ queue_file w1
       = FStored (Some (List.filter
                          (fun it => negb (mbid_in (list_to_set mbids) it))
                          (pending q)))
                 (Some (approved q ++ moved)) (Some (rejected q))
    /\ wishlist_file w1
       = match moved with
         | [] => wishlist_file w
         | _ => Some (default [] (wishlist_file w) ++ lines_of moved)
         end.
Proof.
  cbv zeta. intros Hp Hok.
  destruct (QueueManager_approve_unfold mbids w Hp) as (w1 & F1 & W1 & EA).
  cbv zeta in F1, EA.
  destruct (List.filter (mbid_in (list_to_set mbids))
                        (pending (current_queue w))) as [|a0 rest] eqn:Em.
  - exists w1. repeat split; assumption.
  - rewrite process_approved_to_wishlist_spec in EA;
      [|discriminate|exact Hok].
    cbn [bind] in EA. eexists. split; [exact EA|].
    split; [destruct w1; exact F1|].
    cbn [wishlist_file set_wishlist_file]. rewrite W1. reflexivity.
Qed.


(** ** Approval through the review service, then the drain *)




(** ** Approving one mbid and rejecting another, one call after the other

    Each call holds the exclusive lock from its read to its truncation of
    the file.  When two calls of different processes run one after the
    other, the order does not matter. *)

Lemma filter_filter_implied {A} (f g : A -> bool) (l : list A) :
  (forall x, f x = true -> g x = true) ->
  List.filter f (List.filter g l) = List.filter f l.
Proof.
  intros H. induction l as [|a l IH]; [reflexivity|].
  cbn [List.filter]. destruct (g a) eqn:Eg.
  - cbn [List.filter]. rewrite IH. reflexivity.
  - rewrite IH. destruct (f a) eqn:Ef; [|reflexivity].
    rewrite (H a Ef) in Eg. discriminate.
Qed.

Lemma filter_swap {A} (f g : A -> bool) (l : list A) :
  List.filter f (List.filter g l) = List.filter g (List.filter f l).
Proof.
  induction l as [|a l IH]; [reflexivity|].
  cbn [List.filter].
  destruct (g a) eqn:Eg, (f a) eqn:Ef; cbn [List.filter];
    rewrite ?Eg, ?Ef, IH; reflexivity.
Qed.

Lemma mbid_in_other (m1 m2 : pystr) (it : item) :
  m1 <> m2 ->
  mbid_in (list_to_set [m1]) it = true ->
  negb (mbid_in (list_to_set [m2]) it) = true.
Proof.
  intros Hne H1. apply negb_true_iff.
  destruct (mbid_in (list_to_set [m2]) it) eqn:H2; [|reflexivity].
  apply mbid_in_singleton in H1, H2. unfold has_mbid in *. congruence.
Qed.

Lemma serialised_approve_reject (w : world) (m1 m2 : pystr) :
  m1 <> m2 ->
  mbids_hashable (pending (current_queue w)) = true ->
  let q := current_queue w in
  let qa := current_queue (run_ops [OpApprove [m1]; OpReject [m2]] w) in
  let qr := current_queue (run_ops [OpReject [m2]; OpApprove [m1]] w) in
  qa = qr
  /\ (forall x, x ∈ pending q -> has_mbid m1 x -> x ∈ approved qa)
  /\ ((exists x, x ∈ pending q /\ has_mbid m2 x) -> m2 ∈ rejected qa)
  /\ (forall y, y ∈ pending qa -> ~ has_mbid m1 y /\ ~ has_mbid m2 y).
Proof.
  intros Hne Hh. cbv zeta. cbn [run_ops fold_left].
  assert (Ha : current_queue (run_op (OpApprove [m1]) w)
               = Queue (List.filter
                          (fun it => negb (mbid_in (list_to_set [m1]) it))
                          (pending (current_queue w)))
                       (approved (current_queue w)
                        ++ List.filter (mbid_in (list_to_set [m1]))
                             (pending (current_queue w)))
                       (rejected (current_queue w)))
    by (apply (run_op_current_queue (OpApprove [m1]) w Hh)).
  assert (Hr : current_queue (run_op (OpReject [m2]) w)
               = Queue (List.filter
                          (fun it => negb (mbid_in (list_to_set [m2]) it))
                          (pending (current_queue w)))
                       (approved (current_queue w))
                       (elements
                          (list_to_set (rejected (current_queue w))
                           ∪ list_to_set
                               (str_mbids
                                  (List.filter (mbid_in (list_to_set [m2]))
                                     (pending (current_queue w))))
                           : gset pystr)))
    by (apply (run_op_current_queue (OpReject [m2]) w Hh)).
  rewrite (run_op_current_queue (OpReject [m2]) (run_op (OpApprove [m1]) w))
    by (rewrite Ha; apply mbids_hashable_filter, Hh).
  rewrite (run_op_current_queue (OpApprove [m1]) (run_op (OpReject [m2]) w))
    by (rewrite Hr; apply mbids_hashable_filter, Hh).
  cbv zeta. rewrite Ha, Hr. cbn [pending approved rejected].
  set (P := pending (current_queue w)).
  set (in1 := mbid_in (list_to_set [m1])).
  set (in2 := mbid_in (list_to_set [m2])).
  assert (E12 : List.filter in1 (List.filter (fun it => negb (in2 it)) P)
                = List.filter in1 P).
  { apply filter_filter_implied. intros x. apply mbid_in_other, Hne. }
  assert (E21 : List.filter in2 (List.filter (fun it => negb (in1 it)) P)
                = List.filter in2 P).
  { apply filter_filter_implied. intros x. apply mbid_in_other.
    intros E. apply Hne. symmetry. exact E. }
  rewrite E12, E21. split; [|split; [|split]].
  - f_equal. apply filter_swap.
  - intros x Hx Mx. apply elem_of_app. right.
    apply list_elem_of_In, List.filter_In. split.
    + apply list_elem_of_In, Hx.
    + apply mbid_in_singleton, Mx.
  - intros Hex. apply elem_of_elements, elem_of_union. right.
    subst in2. rewrite rejected_mbids_of_matches.
    apply existsb_has_mbid in Hex. rewrite Hex.
    apply elem_of_singleton. reflexivity.
  - intros y Hy.
    apply list_elem_of_In, List.filter_In in Hy. destruct Hy as [Hy F2].
    apply List.filter_In in Hy. destruct Hy as [_ F1].
    split; intros M; apply mbid_in_singleton in M.
    + subst in1. cbv beta in F1. rewrite M in F1. discriminate.
    + subst in2. cbv beta in F2. rewrite M in F2. discriminate.
Qed.
(** * Further properties *)

(** ** The queue operations in general *)

Lemma filter_split_permutation {A} (f : A -> bool) (l : list A) :
  List.filter (fun y => negb (f y)) l ++ List.filter f l ≡ₚ l.
Proof.
  induction l as [|a l IH]; [reflexivity|].
  cbn [List.filter]. destruct (f a); cbn [negb].
  - rewrite <- Permutation_middle. constructor. exact IH.
  - cbn [app]. constructor. exact IH.
Qed.

Lemma filter_twice_none {A} (f : A -> bool) (l : list A) :
  List.filter f (List.filter (fun y => negb (f y)) l) = []
  /\ List.filter (fun y => negb (f y)) (List.filter (fun y => negb (f y)) l)
     = List.filter (fun y => negb (f y)) l.
Proof.
  apply filter_none. intros y Hy.
  apply list_elem_of_In, List.filter_In in Hy. destruct Hy as [_ Hy].
  apply negb_true_iff, Hy.
Qed.

Lemma mbid_in_has_mbid (mbids : list pystr) (it : item) :
  mbid_in (list_to_set mbids) it = true
  <-> exists m, m ∈ mbids /\ has_mbid m it.
Proof.
  unfold mbid_in, has_mbid. split.
  - destruct (get_mbid it) as [| | | |s|]; try discriminate.
    rewrite bool_decide_eq_true, elem_of_list_to_set. intros H.
    exists s. split; [exact H | reflexivity].
  - intros (m & Hm & ->). rewrite bool_decide_eq_true.
    apply elem_of_list_to_set, Hm.
Qed.

Lemma mbid_in_empty (it : item) : mbid_in (list_to_set []) it = false.
Proof. unfold mbid_in. destruct (get_mbid it); reflexivity. Qed.


(** X2.  On a queue whose pending items have hashable mbids,
    [approve_items(mbids)] splits pending in two, keeping the order: the
    items whose mbid is in [mbids] go to the end of approved, the others
    stay; the count returned is the number of items moved; rejected is not
    touched.  No item is lost or duplicated: pending and approved together
    hold the same items as before. *)
Theorem approve_items_partitions (w : world) (q : queue)
  (mbids : list pystr) :
  fst (load_queue w) = Ret q ->
  mbids_hashable (pending q) = true ->
  exists n w1 q1,
    approve_items (map VStr mbids) w = (Ret n, w1)
    /\ fst (load_queue w1) = Ret q1
    /\ pending q1
       = List.filter (fun it => negb (mbid_in (list_to_set mbids) it))
                     (pending q)
    /\ approved q1
       = approved q ++ List.filter (mbid_in (list_to_set mbids)) (pending q)
    /\ rejected q1 = rejected q
    /\ n = length (List.filter (mbid_in (list_to_set mbids)) (pending q))
    /\ length (pending q) = (length (pending q1) + n)%nat
    /\ pending q1 ++ approved q1 ≡ₚ pending q ++ approved q
    /\ (forall y m, y ∈ pending q1 -> m ∈ mbids -> ~ has_mbid m y).
Proof.
  intros Hq Hh. rewrite load_queue_fst in Hq. injection Hq as Hq. subst q.
  destruct (approve_items_spec mbids w Hh) as (w1 & E1 & F1 & _).
  cbv zeta in E1, F1. pose proof (current_queue_stored _ _ _ _ F1) as C1.
  eexists _, w1, _. rewrite !load_queue_fst, C1.
  split; [exact E1|]. split; [reflexivity|].
  cbn [pending approved rejected].
  split; [reflexivity|]. split; [reflexivity|]. split; [reflexivity|].
  split; [reflexivity|]. split; [apply filter_length_split|]. split.
  - rewrite (Permutation_app_comm (approved _)), app_assoc.
    rewrite filter_split_permutation. reflexivity.
  - intros y m Hy Hm Hc.
    apply list_elem_of_In, List.filter_In in Hy. destruct Hy as [_ Hy].
    apply negb_true_iff in Hy.
    assert (mbid_in (list_to_set mbids) y = true) as Ht
      by (apply mbid_in_has_mbid; exists m; split; assumption).
    congruence.
Qed.

Lemma approve_items_partitions_witness :
  exists n w1 q1,
    approve_items (map VStr [py "m1"])
      (fresh_process (FStored (Some [low_item; hey_what_item]) (Some [])
                              (Some [])) None)
    = (Ret n, w1)
    /\ fst (load_queue w1) = Ret q1
    /\ pending q1
       = List.filter (fun it => negb (mbid_in (list_to_set [py "m1"]) it))
                     [low_item; hey_what_item]
    /\ approved q1
       = [] ++ List.filter (mbid_in (list_to_set [py "m1"]))
                           [low_item; hey_what_item]
    /\ rejected q1 = []
    /\ n = length (List.filter (mbid_in (list_to_set [py "m1"]))
                               [low_item; hey_what_item])
    /\ length [low_item; hey_what_item] = (length (pending q1) + n)%nat
    /\ pending q1 ++ approved q1 ≡ₚ [low_item; hey_what_item] ++ []
    /\ (forall y m, y ∈ pending q1 -> m ∈ [py "m1"] -> ~ has_mbid m y).
Proof.
  apply (approve_items_partitions
           (fresh_process (FStored (Some [low_item; hey_what_item]) (Some [])
                                   (Some [])) None)
           (Queue [low_item; hey_what_item] [] []) [py "m1"]).
  - reflexivity.
  - vm_compute. reflexivity.
Defined.

(** X3.  On a queue whose pending items have hashable mbids,
    [approve_items] is idempotent: called again with the same mbids it
    returns 0 and writes the file back as it was.  With an empty list it
    returns 0 and the queue a load returns is unchanged. *)
Theorem approve_items_idempotent (w : world) (q : queue)
  (mbids : list pystr) :
  fst (load_queue w) = Ret q ->
  mbids_hashable (pending q) = true ->
  exists n w1 w2 w3,
    approve_items (map VStr mbids) w = (Ret n, w1)
    /\ approve_items (map VStr mbids) w1 = (Ret 0%nat, w2)
    /\ queue_file w2 = queue_file w1
    /\ approve_items [] w = (Ret 0%nat, w3)
    /\ fst (load_queue w3) = fst (load_queue w).
Proof.
  intros Hq Hh. rewrite load_queue_fst in Hq. injection Hq as Hq. subst q.
  destruct (approve_items_spec mbids w Hh) as (w1 & E1 & F1 & _).
  cbv zeta in E1, F1. pose proof (current_queue_stored _ _ _ _ F1) as C1.
  destruct (approve_items_spec mbids w1) as (w2 & E2 & F2 & _).
  { rewrite C1. apply mbids_hashable_filter, Hh. }
  cbv zeta in E2, F2. rewrite C1 in E2, F2.
  cbn [pending approved rejected] in E2, F2.
  destruct (filter_twice_none (mbid_in (list_to_set mbids))
              (pending (current_queue w))) as [T1 T2].
  rewrite T1 in E2, F2. rewrite T2, app_nil_r in F2.
  destruct (approve_items_spec [] w Hh) as (w3 & E3 & F3 & _).
  cbv zeta in E3, F3.
  destruct (filter_none (mbid_in (list_to_set [])) (pending (current_queue w)))
    as [N1 N2].
  { intros y _. apply mbid_in_empty. }
  rewrite N1 in E3, F3. rewrite N2, app_nil_r in F3.
  eexists _, w1, w2, w3. split; [exact E1|]. split; [exact E2|].
  split; [congruence|]. split; [exact E3|].
  rewrite !load_queue_fst, (current_queue_stored _ _ _ _ F3).
  destruct (current_queue w); reflexivity.
Qed.

Lemma approve_items_idempotent_witness :
  exists n w1 w2 w3,
    approve_items (map VStr [py "m1"])
      (fresh_process (FStored (Some [low_item; hey_what_item]) (Some [])
                              (Some [])) None)
    = (Ret n, w1)
    /\ approve_items (map VStr [py "m1"]) w1 = (Ret 0%nat, w2)
    /\ queue_file w2 = queue_file w1
    /\ approve_items []
         (fresh_process (FStored (Some [low_item; hey_what_item]) (Some [])
                                 (Some [])) None)
       = (Ret 0%nat, w3)
    /\ fst (load_queue w3)
       = fst (load_queue
                (fresh_process (FStored (Some [low_item; hey_what_item])
                                        (Some []) (Some [])) None)).
Proof.
  apply (approve_items_idempotent
           (fresh_process (FStored (Some [low_item; hey_what_item]) (Some [])
                                   (Some [])) None)
           (Queue [low_item; hey_what_item] [] []) [py "m1"]).
  - reflexivity.
  - vm_compute. reflexivity.
Defined.

Lemma str_mbids_of_matches (mbids : list pystr) (l : list item) (m : pystr) :
  m ∈ str_mbids (List.filter (mbid_in (list_to_set mbids)) l)
  <-> m ∈ mbids /\ exists y, y ∈ l /\ has_mbid m y.
Proof.
  unfold str_mbids. rewrite list_elem_of_omap. split.
  - intros (y & Hy & E). apply list_elem_of_In, List.filter_In in Hy.
    destruct Hy as [Hy F]. apply list_elem_of_In in Hy.
    unfold mbid_in in F.
    destruct (get_mbid y) as [| | | |s|] eqn:G; try discriminate.
    injection E as <-. apply bool_decide_eq_true in F.
    apply elem_of_list_to_set in F.
    split; [exact F|]. exists y. split; assumption.
  - intros (Hm & y & Hy & G). exists y. split.
    + apply list_elem_of_In, List.filter_In. split.
      * apply list_elem_of_In, Hy.
      * apply mbid_in_has_mbid. exists m. split; assumption.
    + unfold has_mbid in G. rewrite G. reflexivity.
Qed.

(** X4.  On a queue whose pending items have hashable mbids,
    [reject_items(mbids)] takes out of pending the items whose mbid is in
    [mbids] and returns their number; approved is not touched.  The
    rejected list afterwards has no duplicates and holds what it held
    before, plus those of [mbids] that a pending item carried. *)
Theorem reject_items_records_matches (w : world) (q : queue)
  (mbids : list pystr) :
  fst (load_queue w) = Ret q ->
  mbids_hashable (pending q) = true ->
  exists n w1 q1,
    reject_items mbids w = (Ret n, w1)
    /\ fst (load_queue w1) = Ret q1
    /\ pending q1
       = List.filter (fun it => negb (mbid_in (list_to_set mbids) it))
                     (pending q)
    /\ approved q1 = approved q
    /\ n = length (List.filter (mbid_in (list_to_set mbids)) (pending q))
    /\ NoDup (rejected q1)
    /\ (forall m, m ∈ rejected q1 <->
                  m ∈ rejected q
                  \/ (m ∈ mbids /\ exists y, y ∈ pending q /\ has_mbid m y)).
Proof.
  intros Hq Hh. rewrite load_queue_fst in Hq. injection Hq as Hq. subst q.
  destruct (reject_items_spec mbids w Hh) as (w1 & E1 & F1 & _).
  cbv zeta in E1, F1. pose proof (current_queue_stored _ _ _ _ F1) as C1.
  eexists _, w1, _. rewrite !load_queue_fst, C1.
  split; [exact E1|]. split; [reflexivity|].
  cbn [pending approved rejected].
  split; [reflexivity|]. split; [reflexivity|]. split; [reflexivity|].
  split; [apply NoDup_elements|].
  intros m. rewrite elem_of_elements, elem_of_union, !elem_of_list_to_set.
  rewrite str_mbids_of_matches. reflexivity.
Qed.

Lemma reject_items_records_matches_witness :
  exists n w1 q1,
    reject_items [py "m2"; py "m4"]
      (fresh_process (FStored (Some [low_item; hey_what_item]) (Some [])
                              (Some [py "m0"])) None)
    = (Ret n, w1)
    /\ fst (load_queue w1) = Ret q1
    /\ pending q1
       = List.filter
           (fun it => negb (mbid_in (list_to_set [py "m2"; py "m4"]) it))
           [low_item; hey_what_item]
    /\ approved q1 = []
    /\ n = length (List.filter (mbid_in (list_to_set [py "m2"; py "m4"]))
                               [low_item; hey_what_item])
    /\ NoDup (rejected q1)
    /\ (forall m, m ∈ rejected q1 <->
                  m ∈ [py "m0"]
                  \/ (m ∈ [py "m2"; py "m4"]
                      /\ exists y, y ∈ [low_item; hey_what_item]
                                   /\ has_mbid m y)).
Proof.
  apply (reject_items_records_matches
           (fresh_process (FStored (Some [low_item; hey_what_item]) (Some [])
                                   (Some [py "m0"])) None)
           (Queue [low_item; hey_what_item] [] [py "m0"])
           [py "m2"; py "m4"]).
  - reflexivity.
  - vm_compute. reflexivity.
Defined.

(** X5.  On a queue whose pending items have hashable mbids,
    rejecting and approving exclude each other.  After
    [reject_items(mbids)], [approve_items(mbids)] finds nothing to move: it
    returns 0 and writes the file back as it was.  After
    [approve_items(mbids)], [reject_items(mbids)] returns 0, records nothing
    as rejected and leaves the approved items approved. *)
Theorem reject_and_approve_exclude (w : world) (q : queue)
  (mbids : list pystr) :
  fst (load_queue w) = Ret q ->
  mbids_hashable (pending q) = true ->
  (exists n w1 w2,
     reject_items mbids w = (Ret n, w1)
     /\ approve_items (map VStr mbids) w1 = (Ret 0%nat, w2)
     /\ queue_file w2 = queue_file w1)
  /\ (exists n w1 w2,
        approve_items (map VStr mbids) w = (Ret n, w1)
        /\ reject_items mbids w1 = (Ret 0%nat, w2)
        /\ fst (get_rejected_mbids w2) = fst (get_rejected_mbids w)
        /\ approved (current_queue w2) = approved (current_queue w1)
        /\ pending (current_queue w2) = pending (current_queue w1)).
Proof.
  intros Hq Hh. rewrite load_queue_fst in Hq. injection Hq as Hq. subst q.
  destruct (filter_twice_none (mbid_in (list_to_set mbids))
              (pending (current_queue w))) as [T1 T2].
  split.
  - destruct (reject_items_spec mbids w Hh) as (w1 & E1 & F1 & _).
    cbv zeta in E1, F1. pose proof (current_queue_stored _ _ _ _ F1) as C1.
    destruct (approve_items_spec mbids w1) as (w2 & E2 & F2 & _).
    { rewrite C1. apply mbids_hashable_filter, Hh. }
    cbv zeta in E2, F2. rewrite C1 in E2, F2.
    cbn [pending approved rejected] in E2, F2.
    rewrite T1 in E2, F2. rewrite T2, app_nil_r in F2.
    eexists _, w1, w2. split; [exact E1|]. split; [exact E2|]. congruence.
  - destruct (approve_items_spec mbids w Hh) as (w1 & E1 & F1 & _).
    cbv zeta in E1, F1. pose proof (current_queue_stored _ _ _ _ F1) as C1.
    destruct (reject_items_spec mbids w1) as (w2 & E2 & F2 & _).
    { rewrite C1. apply mbids_hashable_filter, Hh. }
    cbv zeta in E2, F2. rewrite C1 in E2, F2.
    cbn [pending approved rejected] in E2, F2.
    rewrite T1 in E2, F2. rewrite T2 in F2.
    pose proof (current_queue_stored _ _ _ _ F2) as C2.
    eexists _, w1, w2. split; [exact E1|]. split; [exact E2|].
    destruct (get_rejected_mbids_spec w2) as (w2' & -> & _).
    destruct (get_rejected_mbids_spec w) as (w' & -> & _).
    rewrite C2, C1. cbn [fst pending approved rejected].
    split; [|split; reflexivity]. f_equal.
    rewrite list_to_set_elements_L. cbn. apply (right_id_L ∅ (∪)).
Qed.

Lemma reject_and_approve_exclude_witness :
  (exists n w1 w2,
     reject_items [py "m1"]
       (fresh_process (FStored (Some [low_item; hey_what_item]) (Some [])
                               (Some [])) None)
     = (Ret n, w1)
     /\ approve_items (map VStr [py "m1"]) w1 = (Ret 0%nat, w2)
     /\ queue_file w2 = queue_file w1)
  /\ (exists n w1 w2,
        approve_items (map VStr [py "m1"])
          (fresh_process (FStored (Some [low_item; hey_what_item]) (Some [])
                                  (Some [])) None)
        = (Ret n, w1)
        /\ reject_items [py "m1"] w1 = (Ret 0%nat, w2)
        /\ fst (get_rejected_mbids w2)
           = fst (get_rejected_mbids
                    (fresh_process (FStored (Some [low_item; hey_what_item])
                                            (Some []) (Some [])) None))
        /\ approved (current_queue w2) = approved (current_queue w1)
        /\ pending (current_queue w2) = pending (current_queue w1)).
Proof.
  apply (reject_and_approve_exclude
           (fresh_process (FStored (Some [low_item; hey_what_item]) (Some [])
                                   (Some [])) None)
           (Queue [low_item; hey_what_item] [] []) [py "m1"]).
  - reflexivity.
  - vm_compute. reflexivity.
Defined.

(** X6.  Reading never rewrites an existing queue file: [load_queue] and
    [get_rejected_mbids] leave the state as it is, also when the stored
    object lacks keys, which read as empty lists.  Only a missing file is
    created, holding [DEFAULT_QUEUE].  A write that returns rewrites the
    file with all three keys, even when it moves nothing; when a pending
    item carries a list under mbid, [approve_items] and [reject_items]
    raise, whatever mbids they are given, and leave the state as it is. *)
Theorem reading_leaves_the_file (d : queue) (wl : option pystr)
  (p a : option (list item)) (r : option (list pystr)) :
  load_queue (World d (FStored p a r) wl)
  = (Ret (Queue (default [] p) (default [] a) (default [] r)),
     World d (FStored p a r) wl)
  /\ get_rejected_mbids (World d (FStored p a r) wl)
     = (Ret (list_to_set (default [] r)), World d (FStored p a r) wl)
  /\ load_queue (World d FMissing wl)
     = (Ret d,
        World d (FStored (Some (pending d)) (Some (approved d))
                         (Some (rejected d))) wl)
  /\ (mbids_hashable (default [] p) = true ->
      approve_items [] (World d (FStored p a r) wl)
      = (Ret 0%nat,
         World d (FStored (Some (default [] p)) (Some (default [] a))
                          (Some (default [] r))) wl))
  /\ (mbids_hashable (default [] p) = false ->
      forall mbids,
        approve_items (map VStr mbids) (World d (FStored p a r) wl)
        = (Raised, World d (FStored p a r) wl)
        /\ reject_items mbids (World d (FStored p a r) wl)
           = (Raised, World d (FStored p a r) wl)).
Proof.
  destruct d as [dp da dr]. split; [reflexivity|]. split; [reflexivity|].
  split; [reflexivity|]. split.
  - intros Hh.
    destruct (filter_none (fun it => in_list (get_mbid it) []) (default [] p))
      as [N1 N2]; [intros y _; reflexivity|].
    unfold approve_items, locked_queue, on_dict, approve_block.
    cbn [set_of forallb queue_file json_loads_filled DEFAULT_QUEUE deref
         q_pending q_approved q_rejected pending approved rejected].
    rewrite (approve_loop_hashable _ _ Hh), N1, N2. cbn.
    rewrite app_nil_r. reflexivity.
  - intros Hh mbids. split.
    + apply (approve_items_raises_stored _ _ p a r); [reflexivity | exact Hh].
    + apply (reject_items_raises_stored _ _ p a r); [reflexivity | exact Hh].
Qed.

(** ** Draining the approved list *)

(** X7.  When every approved item can be written (it is skipped, or its
    line can be encoded), [process_approved_queue] writes the wishlist
    lines of the approved items, returns their number and empties approved;
    pending and rejected stay.  With nothing approved it returns 0 and does
    not touch the wishlist file (a missing one is not created).  Run again
    at once, it returns 0 and writes nothing. *)
Theorem process_approved_queue_drains (w : world) (q : queue) :
  fst (load_queue w) = Ret q ->
  (forall y, y ∈ approved q -> writable y = true) ->
  exists w1 w2,
    process_approved_queue w = (Ret (written_count (approved q)), w1)
    /\ fst (load_queue w1) = Ret (Queue (pending q) [] (rejected q))
    /\ wishlist_file w1
       = match approved q with
         | [] => wishlist_file w
         | _ => Some (default [] (wishlist_file w) ++ lines_of (approved q))
         end
    /\ process_approved_queue w1 = (Ret 0%nat, w2)
    /\ wishlist_file w2 = wishlist_file w1
    /\ fst (load_queue w2) = fst (load_queue w1).
Proof.
  intros Hq Hok. rewrite load_queue_fst in Hq. injection Hq as Hq. subst q.
  destruct (process_approved_queue_general w Hok) as (w1 & E1 & F1 & W1).
  pose proof (current_queue_stored _ _ _ _ F1) as C1.
  destruct (process_approved_queue_general w1) as (w2 & E2 & F2 & W2).
  { rewrite C1. intros y Hy. inversion Hy. }
  rewrite C1 in E2, F2, W2. cbn [pending approved rejected] in E2, F2, W2.
  exists w1, w2. rewrite !load_queue_fst, C1.
  rewrite (current_queue_stored _ _ _ _ F2). repeat split; assumption.
Qed.

Lemma process_approved_queue_drains_witness :
  exists w1 w2,
    process_approved_queue
      (fresh_process (FStored (Some []) (Some [trust_item]) (Some [])) None)
    = (Ret (written_count [trust_item]), w1)
    /\ fst (load_queue w1) = Ret (Queue [] [] [])
    /\ wishlist_file w1
       = Some (default [] None ++ lines_of [trust_item])
    /\ process_approved_queue w1 = (Ret 0%nat, w2)
    /\ wishlist_file w2 = wishlist_file w1
    /\ fst (load_queue w2) = fst (load_queue w1).
Proof.
  apply (process_approved_queue_drains
           (fresh_process (FStored (Some []) (Some [trust_item]) (Some []))
                          None)
           (Queue [] [trust_item] [])).
  - reflexivity.
  - simpl. intros y Hy. apply list_elem_of_singleton in Hy. subst y.
    vm_compute. reflexivity.
Defined.

(** X8.  When an approved item cannot be written (a truthy artist or title
    that is not a string, or a line that cannot be encoded),
    [process_approved_queue] raises: the queue file is not written, so
    approved keeps all its items, yet the lines of the items before the
    failing one are already in the wishlist.  Every further run raises
    again and appends those lines once more. *)
Theorem process_approved_queue_failure_repeats_lines (w : world) (q : queue)
  (ok : list item) (bad : item) (rest : list item) :
  fst (load_queue w) = Ret q ->
  approved q = ok ++ bad :: rest ->
  (forall y, y ∈ ok -> writable y = true) ->
  writable bad = false ->
  exists w1 w2,
    process_approved_queue w = (Raised, w1)
    /\ fst (load_queue w1) = Ret q
    /\ wishlist_file w1
       = Some (default [] (wishlist_file w) ++ lines_of ok)
    /\ process_approved_queue w1 = (Raised, w2)
    /\ fst (load_queue w2) = Ret q
    /\ wishlist_file w2
       = Some (default [] (wishlist_file w) ++ lines_of ok ++ lines_of ok).
Proof.
  intros Hq Hap Hok Hbad.
  rewrite load_queue_fst in Hq. injection Hq as Hq. subst q.
  destruct (process_approved_queue_stops w ok bad rest Hap Hok Hbad)
    as (w1 & E1 & C1 & W1).
  destruct (process_approved_queue_stops w1 ok bad rest) as (w2 & E2 & C2 & W2);
    [rewrite C1; exact Hap | exact Hok | exact Hbad |].
  exists w1, w2. rewrite !load_queue_fst, C2, C1.
  rewrite W1 in W2. cbn [default from_option id] in W2.
  rewrite <- app_assoc in W2. repeat split; assumption.
Qed.

Lemma process_approved_queue_failure_repeats_lines_witness :
  exists w1 w2,
    process_approved_queue
      (fresh_process
         (FStored (Some []) (Some [trust_item; surrogate_item]) (Some []))
         None)
    = (Raised, w1)
    /\ fst (load_queue w1) = Ret (Queue [] [trust_item; surrogate_item] [])
    /\ wishlist_file w1 = Some (default [] None ++ lines_of [trust_item])
    /\ process_approved_queue w1 = (Raised, w2)
    /\ fst (load_queue w2) = Ret (Queue [] [trust_item; surrogate_item] [])
    /\ wishlist_file w2
       = Some (default [] None ++ lines_of [trust_item]
               ++ lines_of [trust_item]).
Proof.
  apply (process_approved_queue_failure_repeats_lines
           (fresh_process
              (FStored (Some []) (Some [trust_item; surrogate_item]) (Some []))
              None)
           (Queue [] [trust_item; surrogate_item] [])
           [trust_item] surrogate_item []).
  - reflexivity.
  - reflexivity.
  - intros y Hy. apply list_elem_of_singleton in Hy. subst y.
    vm_compute. reflexivity.
  - vm_compute. reflexivity.
Defined.

(** ** The review service *)

(** X9.  [QueueManager.approve] moves the items before it writes their
    lines.  When the item to approve cannot be written, the call raises,
    yet the item is already in approved and no longer pending; from then on
    every [process_approved_queue], in any process, raises as well and
    leaves the queue as it is, so approved is never drained.  (For a queue
    whose pending items have hashable mbids.) *)
Theorem approve_failure_blocks_the_drain (w : world) (producer : queue)
  (q : queue) (m : pystr) (x : item) (l1 l2 : list item) :
  fst (load_queue w) = Ret q ->
  pending q = l1 ++ x :: l2 ->
  has_mbid m x ->
  (forall y, y ∈ l1 ++ l2 -> ~ has_mbid m y) ->
  mbids_hashable (pending q) = true ->
  writable x = false ->
  exists w1 w2,
    QueueManager_approve [VStr m] w = (Raised, w1)
    /\ fst (load_queue w1)
       = Ret (Queue (l1 ++ l2) (approved q ++ [x]) (rejected q))
    /\ process_approved_queue (set_default producer w1) = (Raised, w2)
    /\ fst (load_queue w2) = fst (load_queue w1).
Proof.
  intros Hq Hp Hx Hothers Hh Hline.
  rewrite load_queue_fst in Hq. injection Hq as Hq. subst q.
  destruct (filter_one (mbid_in (list_to_set [m])) l1 l2 x) as [Ef Ef'].
  { apply mbid_in_singleton, Hx. }
  { intros y Hy. apply not_has_mbid_false, Hothers, Hy. }
  destruct (QueueManager_approve_unfold [m] w Hh) as (w1 & F1 & W1 & EA).
  cbv zeta in F1, EA. rewrite Hp, Ef in F1, EA. rewrite Ef' in F1.
  assert (PF := process_approved_to_wishlist_stops [] x [] w1).
  cbn [app] in PF. rewrite PF in EA;
    [|intros y Hy; inversion Hy|exact Hline].
  cbn [bind map] in EA.
  set (w1' := set_wishlist_file _ w1) in EA.
  assert (F1' : queue_file w1' = queue_file w1) by (destruct w1; reflexivity).
  pose proof (current_queue_stored w1' _ _ _ (eq_trans F1' F1)) as C1.
  destruct (first_unwritable (approved (current_queue w)) x Hline)
    as (ok & bad & rest & E & Hok & Hbad).
  destruct (process_approved_queue_stops (set_default producer w1') ok bad rest)
    as (w2 & E2 & C2 & _); [|exact Hok|exact Hbad|].
  { unfold current_queue. cbn [queue_file set_default]. rewrite F1', F1.
    exact E. }
  exists w1', w2. rewrite !load_queue_fst, C2, C1.
  split; [exact EA|]. split; [reflexivity|]. split; [exact E2|].
  unfold current_queue. cbn [queue_file set_default]. rewrite F1', F1.
  reflexivity.
Qed.

Lemma approve_failure_blocks_the_drain_witness :
  exists w1 w2,
    QueueManager_approve [VStr (py "m3")]
      (fresh_process (FStored (Some [surrogate_item]) (Some []) (Some []))
                     None)
    = (Raised, w1)
    /\ fst (load_queue w1)
       = Ret (Queue ([] ++ []) ([] ++ [surrogate_item]) [])
    /\ process_approved_queue (set_default empty_queue w1) = (Raised, w2)
    /\ fst (load_queue w2) = fst (load_queue w1).
Proof.
  apply (approve_failure_blocks_the_drain
           (fresh_process (FStored (Some [surrogate_item]) (Some []) (Some []))
                          None)
           empty_queue (Queue [surrogate_item] [] []) (py "m3") surrogate_item
           [] []).
  - reflexivity.
  - reflexivity.
  - vm_compute. reflexivity.
  - simpl. intros y Hy. inversion Hy.
  - vm_compute. reflexivity.
  - vm_compute. reflexivity.
Defined.

(** X10.  The count that [QueueManager.approve] returns is the number of
    items that leave pending and enter approved: [get_stats] afterwards
    shows pending lower and approved higher by exactly that count, and
    rejected unchanged.  (For a queue whose pending items have hashable
    mbids, and moved items that can be written.) *)
Theorem approve_count_matches_stats (w : world) (mbids : list pystr)
  (q : queue) :
  fst (load_queue w) = Ret q ->
  mbids_hashable (pending q) = true ->
  (forall y, y ∈ pending q -> mbid_in (list_to_set mbids) y = true ->
             writable y = true) ->
  exists n w1 s s1,
    QueueManager_approve (map VStr mbids) w = (Ret n, w1)
    /\ fst (QueueManager_get_stats w) = Ret s
    /\ fst (QueueManager_get_stats w1) = Ret s1
    /\ st_pending s = (st_pending s1 + n)%nat
    /\ st_approved s1 = (st_approved s + n)%nat
    /\ st_rejected s1 = st_rejected s.
Proof.
  intros Hq Hh Hok. rewrite load_queue_fst in Hq. injection Hq as Hq. subst q.
  destruct (QueueManager_approve_general mbids w Hh) as (w1 & E1 & F1 & _).
  { intros y Hy. apply list_elem_of_In, List.filter_In in Hy.
    destruct Hy as [Hy Hm]. apply Hok; [apply list_elem_of_In, Hy | exact Hm]. }
  pose proof (current_queue_stored _ _ _ _ F1) as C1.
  assert (S : forall w', fst (QueueManager_get_stats w')
                         = Ret (Stats (length (pending (current_queue w')))
                                      (length (approved (current_queue w')))
                                      (length (rejected (current_queue w'))))).
  { intros w'. unfold QueueManager_get_stats.
    destruct (load_queue_spec w') as (w'' & -> & _). reflexivity. }
  eexists _, w1, _, _. split; [exact E1|]. rewrite !S, C1.
  split; [reflexivity|]. split; [reflexivity|].
  cbn [st_pending st_approved st_rejected pending approved rejected].
  split; [apply filter_length_split|]. split; [apply length_app | reflexivity].
Qed.

Lemma approve_count_matches_stats_witness :
  exists n w1 s s1,
    QueueManager_approve (map VStr [py "m1"])
      (fresh_process (FStored (Some [trust_item]) (Some []) (Some [])) None)
    = (Ret n, w1)
    /\ fst (QueueManager_get_stats
              (fresh_process (FStored (Some [trust_item]) (Some []) (Some []))
                             None)) = Ret s
    /\ fst (QueueManager_get_stats w1) = Ret s1
    /\ st_pending s = (st_pending s1 + n)%nat
    /\ st_approved s1 = (st_approved s + n)%nat
    /\ st_rejected s1 = st_rejected s.
Proof.
  apply (approve_count_matches_stats
           (fresh_process (FStored (Some [trust_item]) (Some []) (Some []))
                          None)
           [py "m1"] (Queue [trust_item] [] [])).
  - reflexivity.
  - vm_compute. reflexivity.
  - simpl. intros y Hy _. apply list_elem_of_singleton in Hy. subst y.
    vm_compute. reflexivity.
Defined.

(** Equal numbers are zero together. *)
Lemma number_eqb_zero (x y : Z * Z) :
  number_eqb x y = true -> (fst x =? 0) = (fst y =? 0).
Proof.
  unfold number_eqb. cbv zeta. destruct x as [m1 e1], y as [m2 e2].
  cbn [fst snd]. intros H. apply Z.eqb_eq in H.
  assert (P1 : 0 < 2 ^ (e1 - Z.min e1 e2)) by (apply Z.pow_pos_nonneg; lia).
  assert (P2 : 0 < 2 ^ (e2 - Z.min e1 e2)) by (apply Z.pow_pos_nonneg; lia).
  destruct (Z.eqb_spec m1 0) as [-> | N1], (Z.eqb_spec m2 0) as [-> | N2];
    try reflexivity; exfalso; nia.
Qed.

Lemma number_of_truthy (v : value) (x : Z * Z) :
  number_of v = Some x -> truthy v = negb (fst x =? 0).
Proof.
  destruct v as [|[]| | | |]; intros [= <-]; reflexivity.
Qed.

(** Equal values have the same truth value. *)
Lemma py_eq_truthy (a b : value) :
  py_eq a b = true -> truthy a = truthy b.
Proof.
  assert (N : forall u v x y, number_of u = Some x -> number_of v = Some y ->
                              number_eqb x y = true -> truthy u = truthy v).
  { intros u v x y Hu Hv H. rewrite (number_of_truthy u x Hu).
    rewrite (number_of_truthy v y Hv), (number_eqb_zero x y H). reflexivity. }
  destruct a as [|b1|n1|m1 e1|s1|l1], b as [|b2|n2|m2 e2|s2|l2];
    cbn [py_eq number_of]; try discriminate; intros H;
    try (eapply N; [reflexivity | reflexivity | exact H]).
  - reflexivity.
  - unfold str_eqb in H. apply bool_decide_eq_true in H. subst s2.
    reflexivity.
  - destruct l1, l2; try discriminate H; reflexivity.
Qed.

Lemma py_eq_refl (v : value) : hashable v = true -> py_eq v v = true.
Proof.
  destruct v as [|b|n|m e|s|l]; cbn [py_eq number_of hashable];
    try discriminate; intros _; try reflexivity.
  - unfold number_eqb. cbn [fst snd]. apply Z.eqb_refl.
  - unfold number_eqb. cbn [fst snd]. apply Z.eqb_refl.
  - unfold number_eqb. cbn [fst snd]. apply Z.eqb_refl.
  - unfold str_eqb. apply bool_decide_eq_true. reflexivity.
Qed.

(** Among the pending items, the ones whose mbid is in the list that
    [approve_all] collects are the ones with a truthy mbid. *)
Lemma in_truthy_mbids (l : list item) (y : item) :
  y ∈ l -> hashable (get_mbid y) = true ->
  in_list (get_mbid y) (truthy_mbids l) = has_truthy_mbid y.
Proof.
  intros Hy Hh. unfold in_list, truthy_mbids, has_truthy_mbid.
  destruct (truthy (get_mbid y)) eqn:T.
  - apply existsb_exists. exists (get_mbid y). split; [|apply py_eq_refl, Hh].
    apply List.filter_In. split; [|exact T].
    apply in_map, list_elem_of_In, Hy.
  - destruct (existsb _ _) eqn:E; [|reflexivity].
    apply existsb_exists in E as (u & Hu & Eq).
    apply List.filter_In in Hu as [_ Tu].
    rewrite (py_eq_truthy _ _ Eq), Tu in T. discriminate T.
Qed.

Lemma truthy_mbids_hashable (l : list item) :
  mbids_hashable l = true -> forallb hashable (truthy_mbids l) = true.
Proof.
  unfold mbids_hashable, truthy_mbids. rewrite !forallb_forall.
  intros H v Hv. apply List.filter_In in Hv as [Hv _].
  apply in_map_iff in Hv as (it & <- & Hit). apply H, Hit.
Qed.

Lemma filter_truthy_mbids (l : list item) :
  mbids_hashable l = true ->
  List.filter (fun it => in_list (get_mbid it) (truthy_mbids l)) l
  = List.filter has_truthy_mbid l
  /\ List.filter (fun it => negb (in_list (get_mbid it) (truthy_mbids l))) l
     = List.filter (fun y => negb (has_truthy_mbid y)) l.
Proof.
  intros Hl. unfold mbids_hashable in Hl. rewrite forallb_forall in Hl.
  split; apply List.filter_ext_in; intros a Ha;
    rewrite (in_truthy_mbids l a) by
      (first [apply list_elem_of_In, Ha | apply Hl, Ha]);
    reflexivity.
Qed.

(** X11.  On a queue whose pending items have hashable mbids,
    [QueueManager.approve_all] approves the pending items that carry a
    truthy value under mbid, a string or not, and only those: an item
    without mbid, or with an empty, zero or null one, stays pending.  The
    count returned is the number of items moved.  (The moved items are
    taken to be writable.) *)
Theorem approve_all_moves_items_with_mbid (w : world) (q : queue) :
  fst (load_queue w) = Ret q ->
  mbids_hashable (pending q) = true ->
  (forall y, y ∈ pending q -> has_truthy_mbid y = true ->
             writable y = true) ->
  exists w1,
    QueueManager_approve_all w
    = (Ret (length (List.filter has_truthy_mbid (pending q))), w1)
    /\ fst (load_queue w1)
       = Ret (Queue (List.filter (fun y => negb (has_truthy_mbid y))
                                 (pending q))
                    (approved q ++ List.filter has_truthy_mbid (pending q))
                    (rejected q)).
Proof.
  intros Hq Hh Hok. rewrite load_queue_fst in Hq. injection Hq as Hq. subst q.
  destruct (load_queue_spec w) as (w0 & E0 & C0 & _ & W0).
  destruct (filter_truthy_mbids (pending (current_queue w)) Hh) as [T1 T2].
  destruct (QueueManager_approve_values_unfold
              (truthy_mbids (pending (current_queue w))) w0)
    as (w1 & F1 & W1 & EA).
  { apply truthy_mbids_hashable, Hh. }
  { rewrite C0. exact Hh. }
  cbv zeta in F1, EA. rewrite C0, T1 in F1, EA. rewrite T2 in F1.
  unfold QueueManager_approve_all. rewrite E0. cbn [bind]. rewrite EA.
  destruct (List.filter has_truthy_mbid (pending (current_queue w)))
    as [|a0 rest] eqn:Em.
  - exists w1. split; [reflexivity|].
    rewrite load_queue_fst, (current_queue_stored _ _ _ _ F1). reflexivity.
  - rewrite process_approved_to_wishlist_spec; [|discriminate|].
    + cbn [bind]. eexists. split; [reflexivity|].
      rewrite load_queue_fst. unfold current_queue.
      cbn [queue_file set_wishlist_file]. rewrite F1. reflexivity.
    + intros y Hy. rewrite <- Em in Hy.
      apply list_elem_of_In, List.filter_In in Hy. destruct Hy as [Hy Hm].
      apply Hok; [apply list_elem_of_In, Hy | exact Hm].
Qed.

Lemma approve_all_moves_items_with_mbid_witness :
  exists w1,
    QueueManager_approve_all
      (fresh_process
         (FStored (Some [trust_item; nameless_item; number_mbid_item])
                  (Some []) (Some []))
         None)
    = (Ret (length (List.filter has_truthy_mbid
                      [trust_item; nameless_item; number_mbid_item])), w1)
    /\ fst (load_queue w1)
       = Ret (Queue (List.filter (fun y => negb (has_truthy_mbid y))
                       [trust_item; nameless_item; number_mbid_item])
                    ([] ++ List.filter has_truthy_mbid
                             [trust_item; nameless_item; number_mbid_item])
                    []).
Proof.
  apply (approve_all_moves_items_with_mbid
           (fresh_process
              (FStored (Some [trust_item; nameless_item; number_mbid_item])
                       (Some []) (Some []))
              None)
           (Queue [trust_item; nameless_item; number_mbid_item] [] [])).
  - reflexivity.
  - vm_compute. reflexivity.
  - intros y Hy Hm. cbn [pending] in Hy.
    apply elem_of_cons in Hy as [-> | Hy]; [vm_compute; reflexivity|].
    apply elem_of_cons in Hy as [-> | Hy];
      [vm_compute in Hm; discriminate Hm|].
    apply list_elem_of_singleton in Hy. subst y. vm_compute. reflexivity.
Defined.

(** A pending item whose mbid is a list makes [approve_all] raise, and a
    stored file is left as it was: a list that is not empty is collected
    and cannot be put into the set, an empty one is not collected and
    cannot be looked up in it. *)
Lemma approve_all_raises_on_list_mbid (d : queue) (wl : option pystr)
  (p a : option (list item)) (r : option (list pystr)) :
  mbids_hashable (default [] p) = false ->
  QueueManager_approve_all (World d (FStored p a r) wl)
  = (Raised, World d (FStored p a r) wl).
Proof.
  intros Hh. unfold QueueManager_approve_all, QueueManager_approve.
  destruct d as [dp da dr].
  change (load_queue (World (Queue dp da dr) (FStored p a r) wl))
    with (Ret (Queue (default [] p) (default [] a) (default [] r)),
          World (Queue dp da dr) (FStored p a r) wl).
  cbn [bind pending].
  change (load_queue (World (Queue dp da dr) (FStored p a r) wl))
    with (Ret (Queue (default [] p) (default [] a) (default [] r)),
          World (Queue dp da dr) (FStored p a r) wl).
  cbn [bind pending].
  rewrite (approve_items_raises_stored _ (World (Queue dp da dr)
                                                (FStored p a r) wl)
             p a r eq_refl Hh).
  reflexivity.
Qed.

(** ** Which line an item gets *)

(** X12.  In [process_approved_to_wishlist] the key [album] decides alone:
    when an item has it, its [title] is never read, so an item whose album
    is [None] or empty is skipped however good its title is, and an item
    with a string artist and a string album, both non-empty, is written as
    an album line. *)
Theorem album_key_shadows_title (it : item) (v t' : value) :
  it !! py "album" = Some v ->
  item_line (<[py "title" := t']> it) = item_line it
  /\ (truthy v = false -> item_line it = Skip)
  /\ (forall a t, it !! py "artist" = Some (VStr a) -> v = VStr t ->
                  a <> [] -> t <> [] ->
                  item_line it = WriteLine (wishlist_line a t true)).
Proof.
  intros Hal. split; [|split].
  - unfold item_line, dict_get.
    rewrite (lookup_insert_ne it (py "title") (py "album")) by discriminate.
    rewrite (lookup_insert_ne it (py "title") (py "artist")) by discriminate.
    rewrite Hal. reflexivity.
  - intros Hv. unfold item_line. rewrite Hal, Hv.
    rewrite orb_true_r. reflexivity.
  - intros a t Har -> Ha Ht. unfold item_line, dict_get.
    rewrite Hal, Har. cbn [default from_option id].
    destruct a; [congruence|]. destruct t; [congruence|]. reflexivity.
Qed.

Lemma album_key_shadows_title_witness :
  item_line (<[py "title" := VStr (py "Other")]> trust_item)
  = item_line trust_item
  /\ (truthy (VStr (py "Trust")) = false -> item_line trust_item = Skip)
  /\ (forall a t, trust_item !! py "artist" = Some (VStr a) ->
                  VStr (py "Trust") = VStr t ->
                  a <> [] -> t <> [] ->
                  item_line trust_item = WriteLine (wishlist_line a t true)).
Proof.
  apply (album_key_shadows_title trust_item (VStr (py "Trust"))
           (VStr (py "Other"))).
  vm_compute. reflexivity.
Defined.

(** ** What the writers leave in the wishlist *)

(** X13.  Unescaping undoes escaping for every text: what
    [_escape_quotes] writes, the [replace] of [parse_wishlist] reads back
    unchanged, also when the text holds backslashes or ends in one. *)
Theorem unescape_escape_quotes (s : pystr) :
  replace [ch_backslash; ch_quote] [ch_quote] (_escape_quotes s) = s.
Proof.
  rewrite <- (app_nil_r (_escape_quotes s)).
  rewrite unescape_escape_app by reflexivity. apply app_nil_r.
Qed.

(** X14.  Appending to a wishlist that already holds entries adds exactly
    one entry and leaves the others as they were: when the file is empty or
    ends with a line feed, [parse_wishlist] after [append_to_wishlist]
    returns the former entries followed by the new one (for an artist and a
    title that can be encoded, without line break or outer whitespace, the
    artist followed by a space holding no separator). *)
Theorem append_to_wishlist_adds_one_entry (w : world) (artist title : pystr)
  (is_album : bool) :
  lf_terminated (default [] (wishlist_file w)) = true ->
  encodable artist = true -> encodable title = true ->
  no_line_break artist = true -> no_line_break title = true ->
  strip artist = artist -> strip title = title ->
  contains sep (artist ++ [ch_space]) = false ->
  exists w1,
    append_to_wishlist artist title is_album w = (Ret tt, w1)
    /\ parse_wishlist w1
       = parse_wishlist w
         ++ [WlItem artist title is_album (artist ++ sep ++ title)].
Proof.
  intros Hlf Ea Et Ha Ht Sa St Hs.
  rewrite (append_to_wishlist_ok w artist title is_album Ea Et).
  eexists. split; [reflexivity|].
  apply (parse_wishlist_after_line w _ artist title is_album);
    try assumption. reflexivity.
Qed.

Lemma append_to_wishlist_adds_one_entry_witness :
  exists w1,
    append_to_wishlist (py "Low") (py "Trust") true
      (fresh_process FMissing (Some (radiohead_line ++ [ch_lf])))
    = (Ret tt, w1)
    /\ parse_wishlist w1
       = parse_wishlist
           (fresh_process FMissing (Some (radiohead_line ++ [ch_lf])))
         ++ [WlItem (py "Low") (py "Trust") true
               (py "Low" ++ sep ++ py "Trust")].
Proof.
  apply (append_to_wishlist_adds_one_entry
           (fresh_process FMissing (Some (radiohead_line ++ [ch_lf])))
           (py "Low") (py "Trust") true); reflexivity.
Defined.

Lemma item_line_lf (it : item) (line content : pystr) :
  item_line it = WriteLine line ->
  lf_terminated (content ++ line) = true.
Proof.
  unfold item_line. intros E.
  destruct (it !! py "album");
    destruct (negb _ || negb _); try discriminate E;
    destruct (dict_get it (py "artist") (VStr [])); try discriminate E.
  - destruct v; try discriminate E. injection E as <-.
    apply lf_terminated_app_line.
  - destruct (dict_get it (py "title") (VStr [])); try discriminate E.
    injection E as <-. apply lf_terminated_app_line.
Qed.

Lemma process_items_lf (items : list item) :
  forall (count : nat) (w : world),
    lf_terminated (default [] (wishlist_file w)) = true ->
    lf_terminated
      (default [] (wishlist_file (snd (process_items items count w)))) = true.
Proof.
  induction items as [|it rest IH]; intros count w H; [exact H|].
  cbn [process_items]. destruct (item_line it) as [|line|] eqn:E.
  - apply IH, H.
  - unfold wishlist_write. destruct (encodable line); [|exact H].
    apply IH. cbn [wishlist_file set_wishlist_file default from_option id].
    apply (item_line_lf it), E.
  - exact H.
Qed.

Lemma process_approved_to_wishlist_lf (items : list item) (w : world) :
  lf_terminated (default [] (wishlist_file w)) = true ->
  lf_terminated
    (default [] (wishlist_file (snd (process_approved_to_wishlist items w))))
  = true.
Proof.
  intros H. unfold process_approved_to_wishlist.
  destruct items as [|it rest]; [exact H|].
  apply process_items_lf. destruct w as [d f [c|]]; exact H.
Qed.

Lemma process_approved_queue_wishlist (w : world) :
  wishlist_file (snd (process_approved_queue w)) = wishlist_file w
  \/ exists items w0,
       wishlist_file w0 = wishlist_file w
       /\ wishlist_file (snd (process_approved_queue w))
          = wishlist_file (snd (process_approved_to_wishlist items w0)).
Proof.
  unfold process_approved_queue, locked_queue.
  destruct w as [[dp da dr] f wl].
  destruct f as [| | |p [ap|] r];
    cbn [queue_file set_queue_file json_dumps default_copy resolve deref
         json_loads_filled DEFAULT_QUEUE q_pending q_approved q_rejected
         pending approved rejected wishlist_file default from_option id].
  5: left; reflexivity.
  1-3: rename da into ap.
  all: destruct ap as [|a0 rest]; [left; reflexivity|].
  all: right;
    match goal with
    | |- context [process_approved_to_wishlist ?l ?w0] =>
        exists l, w0; split; [reflexivity|];
        destruct (process_approved_to_wishlist l w0) as [[n|] w'];
        reflexivity
    end.
Qed.

Lemma QueueManager_approve_wishlist (mbids : list value) (w : world) :
  wishlist_file (snd (QueueManager_approve mbids w)) = wishlist_file w
  \/ exists items w0,
       wishlist_file w0 = wishlist_file w
       /\ wishlist_file (snd (QueueManager_approve mbids w))
          = wishlist_file (snd (process_approved_to_wishlist items w0)).
Proof.
  unfold QueueManager_approve.
  destruct (load_queue_spec w) as (w0 & E0 & _ & _ & W0).
  rewrite E0. cbn [bind].
  pose proof (approve_items_wishlist mbids w0) as WA.
  destruct (approve_items mbids w0) as [[n|] w1]; cbn [bind snd] in *.
  - destruct (0 <? n)%nat.
    + right.
      match goal with
      | |- context [process_approved_to_wishlist ?l w1] =>
          exists l, w1; split; [congruence|];
          destruct (process_approved_to_wishlist l w1) as [[k|] w'];
          reflexivity
      end.
    + left. cbn [snd]. congruence.
  - left. congruence.
Qed.

(** X15.  Every writer keeps the wishlist a sequence of complete lines:
    when the file is empty or ends with a line feed, it still is after
    [append_to_wishlist], [process_approved_to_wishlist],
    [QueueManager.approve] and [process_approved_queue], also when one of
    them raises in the middle of a batch. *)
Theorem writers_keep_wishlist_lf_terminated (w : world) :
  lf_terminated (default [] (wishlist_file w)) = true ->
  (forall artist title is_album,
     lf_terminated
       (default [] (wishlist_file
                      (snd (append_to_wishlist artist title is_album w))))
     = true)
  /\ (forall items,
        lf_terminated
          (default [] (wishlist_file
                         (snd (process_approved_to_wishlist items w))))
        = true)
  /\ (forall mbids,
        lf_terminated
          (default [] (wishlist_file (snd (QueueManager_approve mbids w))))
        = true)
  /\ lf_terminated
       (default [] (wishlist_file (snd (process_approved_queue w)))) = true.
Proof.
  intros H. split; [|split; [|split]].
  - intros a t b. unfold append_to_wishlist, wishlist_write.
    destruct (encodable (wishlist_line a t b)).
    + apply lf_terminated_app_line.
    + destruct w as [d f [c|]]; exact H.
  - intros items. apply process_approved_to_wishlist_lf, H.
  - intros mbids.
    destruct (QueueManager_approve_wishlist mbids w)
      as [-> | (items & w0 & W0 & ->)]; [exact H|].
    apply process_approved_to_wishlist_lf. rewrite W0. exact H.
  - destruct (process_approved_queue_wishlist w)
      as [-> | (items & w0 & W0 & ->)]; [exact H|].
    apply process_approved_to_wishlist_lf. rewrite W0. exact H.
Qed.

Lemma writers_keep_wishlist_lf_terminated_witness :
  lf_terminated
    (default [] (wishlist_file
                   (snd (process_approved_queue
                           (fresh_process
                              (FStored (Some [])
                                       (Some [trust_item; numbered_item])
                                       (Some []))
                              (Some (radiohead_line ++ [ch_lf])))))))
  = true.
Proof.
  apply (writers_keep_wishlist_lf_terminated
           (fresh_process
              (FStored (Some []) (Some [trust_item; numbered_item]) (Some []))
              (Some (radiohead_line ++ [ch_lf])))).
  reflexivity.
Defined.

Lemma item_line_album_line (it : item) (a t : pystr) :
  it !! py "artist" = Some (VStr a) ->
  it !! py "album" = Some (VStr t) ->
  a <> [] -> t <> [] ->
  item_line it = WriteLine (wishlist_line a t true).
Proof.
  intros Har Hal Ha Ht. unfold item_line, dict_get.
  rewrite Hal, Har. cbn [default from_option id].
  destruct a; [congruence|]. destruct t; [congruence|]. reflexivity.
Qed.

(** X16.  An album approved through [QueueManager.approve] reaches the
    downloader as it was queued: the call appends one line, and
    [parse_wishlist] then returns the former entries followed by an album
    entry with the artist and the album title of the item (for texts that
    can be encoded, without line break or outer whitespace, the artist
    followed by a space holding no separator, a wishlist that is empty or
    ends with a line feed, and a queue whose pending items have hashable
    mbids). *)
Theorem approved_album_reaches_downloader (w : world) (q : queue) (m : pystr)
  (x : item) (l1 l2 : list item) (a t : pystr) :
  fst (load_queue w) = Ret q ->
  pending q = l1 ++ x :: l2 ->
  has_mbid m x ->
  (forall y, y ∈ l1 ++ l2 -> ~ has_mbid m y) ->
  mbids_hashable (pending q) = true ->
  x !! py "artist" = Some (VStr a) ->
  x !! py "album" = Some (VStr t) ->
  a <> [] -> t <> [] ->
  encodable a = true -> encodable t = true ->
  lf_terminated (default [] (wishlist_file w)) = true ->
  no_line_break a = true -> no_line_break t = true ->
  strip a = a -> strip t = t ->
  contains sep (a ++ [ch_space]) = false ->
  exists w1,
    QueueManager_approve [VStr m] w = (Ret 1%nat, w1)
    /\ parse_wishlist w1
       = parse_wishlist w ++ [WlItem a t true (a ++ sep ++ t)].
Proof.
  intros Hq Hp Hx Hothers Hh Har Hal Ha Ht Ea Et Hlf Na Nt Sa St Hs.
  rewrite load_queue_fst in Hq. injection Hq as Hq. subst q.
  pose proof (item_line_album_line x a t Har Hal Ha Ht) as Hline.
  destruct (lines_of_single x _ Hline) as [Lx _].
  destruct (filter_one (mbid_in (list_to_set [m])) l1 l2 x) as [Ef _].
  { apply mbid_in_singleton, Hx. }
  { intros y Hy. apply not_has_mbid_false, Hothers, Hy. }
  destruct (QueueManager_approve_general [m] w) as (w1 & E1 & _ & W1).
  { exact Hh. }
  { rewrite Hp, Ef. intros y Hy.
    apply list_elem_of_singleton in Hy. subst y. unfold writable.
    rewrite Hline, encodable_wishlist_line, Ea, Et. reflexivity. }
  cbv zeta in E1, W1. rewrite Hp, Ef in E1, W1. rewrite Lx in W1.
  exists w1. split; [exact E1|].
  apply (parse_wishlist_after_line w w1 a t true W1); assumption.
Qed.

Lemma approved_album_reaches_downloader_witness :
  exists w1,
    QueueManager_approve [VStr (py "m1")]
      (fresh_process (FStored (Some [trust_item]) (Some []) (Some []))
                     (Some (radiohead_line ++ [ch_lf])))
    = (Ret 1%nat, w1)
    /\ parse_wishlist w1
       = parse_wishlist
           (fresh_process (FStored (Some [trust_item]) (Some []) (Some []))
                          (Some (radiohead_line ++ [ch_lf])))
         ++ [WlItem (py "Low") (py "Trust") true
               (py "Low" ++ sep ++ py "Trust")].
Proof.
  apply (approved_album_reaches_downloader
           (fresh_process (FStored (Some [trust_item]) (Some []) (Some []))
                          (Some (radiohead_line ++ [ch_lf])))
           (Queue [trust_item] [] []) (py "m1") trust_item [] []
           (py "Low") (py "Trust")); try reflexivity.
  - simpl. intros y Hy. inversion Hy.
  - discriminate.
  - discriminate.
Defined.

(** ** The downloader's loop over the wishlist *)

(** X17.  A run never searches again for what an earlier run queued.  The
    downloaded set only grows; an item searched in a second run over the
    same wishlist was searched without success in the first; and when every
    search of the first run queued its download, the second run searches
    nothing, queues nothing and leaves the set as it is. *)
Theorem second_run_skips_queued_items (attempt1 attempt2 : nat -> wl_item -> bool)
  (w : world) (downloaded : gset pystr) :
  exists dl1 q1 s1 dl2 q2 s2,
    main_loop attempt1 w downloaded = (dl1, q1, s1)
    /\ main_loop attempt2 w dl1 = (dl2, q2, s2)
    /\ downloaded ⊆ dl1 /\ dl1 ⊆ dl2
    /\ (forall j it, (j, it) ∈ s2 ->
          exists j', (j', it) ∈ s1 /\ attempt1 j' it = false)
    /\ ((forall j it, (j, it) ∈ s1 -> attempt1 j it = true) ->
        s2 = [] /\ q2 = O /\ dl2 = dl1).
Proof.
  unfold main_loop.
  destruct (download_loop_covers attempt1 (parse_wishlist w) O downloaded O [])
    as (dl1 & s1 & E1 & Hsub1 & Hcov1).
  destruct (download_loop_covers attempt2 (parse_wishlist w) O dl1 O [])
    as (dl2 & s2 & E2 & Hsub2 & _).
  destruct (download_loop_spec attempt2 (parse_wishlist w) O dl1 O [])
    as (dl2' & q2' & s2' & E2' & P1 & P2).
  rewrite E2 in E2'. injection E2' as <- _ <-.
  assert (Hs2 : forall j it, (j, it) ∈ s2 ->
                  exists j', (j', it) ∈ s1 /\ attempt1 j' it = false).
  { intros j it H. destruct (P1 j it H) as [Hin Hnot].
    destruct (Hcov1 it Hin) as [Hd | Hs]; [contradiction | exact Hs]. }
  eexists dl1, _, s1, dl2, _, s2.
  split; [exact E1|]. split; [exact E2|]. split; [exact Hsub1|].
  split; [exact Hsub2|]. split; [exact Hs2|].
  intros Hall.
  assert (Hnil : s2 = []).
  { destruct s2 as [|[j it] s2']; [reflexivity|].
    destruct (Hs2 j it) as (j' & Hj & Hf); [left|].
    rewrite (Hall j' it Hj) in Hf. discriminate. }
  subst s2. split; [reflexivity|]. split; [reflexivity|].
  apply set_eq. intros k. rewrite P2. split; [|auto].
  intros [H | (j & it & H & _)]; [exact H | inversion H].
Qed.

Lemma parse_wishlist_two_lines (w : world) (a t : pystr) (b1 b2 : bool) :
  wishlist_file w = Some (wishlist_line a t b1 ++ wishlist_line a t b2) ->
  no_line_break a = true -> no_line_break t = true ->
  strip a = a -> strip t = t ->
  contains sep (a ++ [ch_space]) = false ->
  parse_wishlist w
  = [WlItem a t b1 (a ++ sep ++ t); WlItem a t b2 (a ++ sep ++ t)].
Proof.
  intros Hw Ha Ht Sa St Hs. unfold parse_wishlist. rewrite Hw.
  rewrite file_lines_app by (apply (lf_terminated_app_line [])).
  rewrite !(file_lines_wishlist_line _ _ _ Ha Ht). cbn [app omap list_omap].
  rewrite !(parse_line_wishlist_line _ _ _ Sa St Hs). reflexivity.
Qed.

(** X18.  The album line and the track line of one artist and title share
    their key in the downloaded set.  With both in the wishlist, in either
    order, once the download for the first is queued the second is never
    searched for. *)
Theorem album_and_track_share_the_key (attempt : nat -> wl_item -> bool)
  (w : world) (downloaded : gset pystr) (artist title : pystr)
  (first_is_album : bool) :
  wishlist_file w
  = Some (wishlist_line artist title first_is_album
          ++ wishlist_line artist title (negb first_is_album)) ->
  no_line_break artist = true -> no_line_break title = true ->
  strip artist = artist -> strip title = title ->
  contains sep (artist ++ [ch_space]) = false ->
  artist ++ sep ++ title ∉ downloaded ->
  attempt O (WlItem artist title first_is_album (artist ++ sep ++ title))
  = true ->
  main_loop attempt w downloaded
  = (downloaded ∪ {[artist ++ sep ++ title]}, 1%nat,
     [(O, WlItem artist title first_is_album (artist ++ sep ++ title))]).
Proof.
  intros Hw Ha Ht Sa St Hs Hnew Hatt. unfold main_loop.
  rewrite (parse_wishlist_two_lines w _ _ _ _ Hw Ha Ht Sa St Hs).
  cbn [download_loop wl_raw].
  rewrite (bool_decide_eq_false_2 _ Hnew), Hatt.
  rewrite bool_decide_eq_true_2 by (clear; set_solver). reflexivity.
Qed.

Lemma album_and_track_share_the_key_witness :
  main_loop (fun _ _ => true)
    (fresh_process FMissing
       (Some (wishlist_line (py "Low") (py "Trust") true
              ++ wishlist_line (py "Low") (py "Trust") (negb true))))
    ∅
  = (∅ ∪ {[py "Low" ++ sep ++ py "Trust"]}, 1%nat,
     [(O, WlItem (py "Low") (py "Trust") true
            (py "Low" ++ sep ++ py "Trust"))]).
Proof.
  apply (album_and_track_share_the_key (fun _ _ => true)
           (fresh_process FMissing
              (Some (wishlist_line (py "Low") (py "Trust") true
                     ++ wishlist_line (py "Low") (py "Trust") (negb true))))
           ∅ (py "Low") (py "Trust") true); try reflexivity.
  apply not_elem_of_empty.
Defined.

(** ** Which lines the reader keeps *)

Lemma startswith_app (p x y : pystr) :
  startswith p x = true -> startswith p (x ++ y) = true.
Proof.
  revert x. induction p as [|a p IH]; intros x H; [reflexivity|].
  destruct x as [|b x]; [discriminate|]. cbn [startswith app] in *.
  apply andb_true_iff in H as [H1 H2]. rewrite H1. apply IH, H2.
Qed.

Lemma startswith_drop (p s : pystr) :
  startswith p s = true -> s = p ++ drop (length p) s.
Proof.
  revert s. induction p as [|a p IH]; intros s H; [reflexivity|].
  destruct s as [|b s]; [discriminate|]. cbn [startswith] in H.
  apply andb_true_iff in H as [H1 H2]. apply N.eqb_eq in H1. subst b.
  cbn [length drop app]. f_equal. apply IH, H2.
Qed.

(** [split_once] cuts at the first occurrence. *)
Lemma split_once_first (p s a b : pystr) :
  p <> [] ->
  split_once p s = Some (a, b) ->
  s = a ++ p ++ b /\ contains p a = false.
Proof.
  intros Hp. revert a b. induction s as [|c s IH]; intros a b H.
  - cbn [split_once] in H. destruct p as [|x p]; [congruence|].
    discriminate H.
  - rewrite split_once_cons in H.
    destruct (startswith p (c :: s)) eqn:E.
    + injection H as <- <-. split; [apply startswith_drop, E|].
      destruct p; [congruence | reflexivity].
    + destruct (split_once p s) as [[a' b']|]; [|discriminate].
      injection H as <- <-. destruct (IH a' b' eq_refl) as [-> Hc].
      split; [reflexivity|]. cbn [contains]. rewrite Hc, orb_false_r.
      destruct (startswith p (c :: a')) eqn:E'; [|reflexivity].
      apply (startswith_app _ _ (p ++ b')) in E'. cbn [app] in E'.
      congruence.
Qed.

Lemma contains_cons (p : pystr) (c : N) (s : pystr) :
  contains p s = true -> contains p (c :: s) = true.
Proof. intros H. cbn [contains]. rewrite H. apply orb_true_r. Qed.

Lemma contains_app_r (p x s : pystr) :
  contains p s = true -> contains p (x ++ s) = true.
Proof.
  intros H. induction x as [|c x IH]; [exact H|].
  cbn [app]. apply contains_cons, IH.
Qed.

Lemma contains_app_l (p s y : pystr) :
  contains p s = true -> contains p (s ++ y) = true.
Proof.
  induction s as [|c s IH]; intros H.
  - cbn [contains] in H. rewrite orb_false_r in H.
    destruct p; [|discriminate]. destruct y; reflexivity.
  - cbn [contains app] in *. apply orb_true_iff in H as [H | H].
    + apply (startswith_app p (c :: s) y) in H. cbn [app] in H.
      rewrite H. reflexivity.
    + rewrite (IH H). apply orb_true_r.
Qed.

Lemma lstrip_suffix (s : pystr) : exists x, s = x ++ lstrip s.
Proof.
  induction s as [|c s [x IH]]; [exists []; reflexivity|].
  cbn [lstrip]. destruct (isspace c).
  - exists (c :: x). cbn [app]. f_equal. exact IH.
  - exists []. reflexivity.
Qed.

Lemma strip_infix (s : pystr) : exists x y, s = x ++ strip s ++ y.
Proof.
  unfold strip, rstrip. destruct (lstrip_suffix s) as [x Hx].
  destruct (lstrip_suffix (rev (lstrip s))) as [y Hy].
  exists x, (rev y). rewrite <- rev_app_distr, <- Hy, rev_involutive.
  exact Hx.
Qed.

Lemma contains_strip (p s : pystr) :
  contains p (strip s) = true -> contains p s = true.
Proof.
  intros H. destruct (strip_infix s) as (x & y & E). rewrite E.
  apply contains_app_r, contains_app_l, H.
Qed.

(** X19.  [parse_wishlist] drops a line exactly when it is blank or its
    decoded text holds no [" - "]; every other line gives an item. *)
Theorem parse_line_drops_only_unseparated (line : pystr) :
  parse_line line = None
  <-> strip line = [] \/ contains sep (decoded_text line) = false.
Proof.
  unfold parse_line, decoded_text. cbv zeta.
  destruct (strip line) as [|c l] eqn:E; [split; auto|].
  set (u := unescape _).
  destruct (contains sep u) eqn:Ec.
  - destruct (split_once_of_contains sep u Ec) as (a & b & ->).
    split; [discriminate|]. intros [H | H]; discriminate.
  - split; auto.
Qed.

(** X20.  The reader splits at the first separator: for every item of
    [parse_wishlist] the decoded line is [a + " - " + b] where the artist is
    [a] stripped and the title is [b] stripped, and the artist never holds
    [" - "], whereas the title may. *)
Theorem parsed_artist_holds_no_separator (line : pystr) (it : wl_item) :
  parse_line line = Some it ->
  contains sep (wl_artist it) = false
  /\ exists a b,
       wl_raw it = a ++ sep ++ b
       /\ contains sep a = false
       /\ wl_artist it = strip a
       /\ wl_title it = strip b.
Proof.
  unfold parse_line. cbv zeta.
  destruct (strip line) as [|c l] eqn:E; [discriminate|].
  set (u := unescape _).
  destruct (contains sep u); [|discriminate].
  destruct (split_once sep u) as [[a b]|] eqn:Es; [|discriminate].
  intros [= <-]. cbn [wl_artist wl_title wl_raw].
  destruct (split_once_first sep u a b) as [Hu Ha]; [discriminate|exact Es|].
  split.
  - destruct (contains sep (strip a)) eqn:Hc; [|reflexivity].
    apply contains_strip in Hc. congruence.
  - exists a, b. repeat split; assumption.
Qed.

Lemma parsed_artist_holds_no_separator_witness :
  contains sep (wl_artist (WlItem (py "A") (py "B - C") true (py "A - B - C")))
  = false
  /\ exists a b,
       wl_raw (WlItem (py "A") (py "B - C") true (py "A - B - C"))
       = a ++ sep ++ b
       /\ contains sep a = false
       /\ wl_artist (WlItem (py "A") (py "B - C") true (py "A - B - C"))
          = strip a
       /\ wl_title (WlItem (py "A") (py "B - C") true (py "A - B - C"))
          = strip b.
Proof.
  apply (parsed_artist_holds_no_separator
           (wishlist_line (py "A - B") (py "C") true)).
  reflexivity.
Defined.

(** ** What the scorer returns *)

(** X21.  [search_album] returns nothing exactly when no surviving
    directory scores above 0; for [min_files >= 1] that is exactly when no
    directory of any response holds [min_files] audio files. *)
Theorem search_album_none_iff (lower : pystr -> pystr) (artist album : pystr)
  (min_files : Z) (responses : list response) :
  (search_album lower artist album min_files responses = None
   <-> forall c, c ∈ surviving lower min_files responses ->
                 score_of lower artist album c <= 0)
  /\ (1 <= min_files ->
      (search_album lower artist album min_files responses = None
       <-> surviving lower min_files responses = [])).
Proof.
  assert (M : search_album lower artist album min_files responses = None
              <-> forall c, c ∈ surviving lower min_files responses ->
                            score_of lower artist album c <= 0).
  { destruct (search_album_result lower artist album min_files responses)
      as [[E H] | (l1 & c & l2 & E & F & Hpos & _)].
    - split; auto.
    - rewrite F. split; [discriminate|]. intros H.
      assert (score_of lower artist album c <= 0)
        by (apply H; rewrite E; apply elem_of_app; right; left).
      lia. }
  split; [exact M|]. intros Hmin. rewrite M. split.
  - intros H. destruct (surviving lower min_files responses) as [|c l] eqn:E;
      [reflexivity|]. exfalso.
    assert (Hs : survives lower min_files c = true).
    { assert (Hin : In c (surviving lower min_files responses))
        by (rewrite E; left; reflexivity).
      unfold surviving in Hin. apply List.filter_In in Hin. tauto. }
    pose proof (score_of_at_least lower artist album min_files c Hs).
    specialize (H c (list_elem_of_here _ _)). lia.
  - intros -> c Hc. inversion Hc.
Qed.

Lemma search_album_none_iff_witness :
  search_album ascii_lower (py "Radiohead") (py "OK Computer") 4 [mp3_peer]
  = None
  <-> surviving ascii_lower 4 [mp3_peer] = [].
Proof.
  apply (proj2 (search_album_none_iff ascii_lower (py "Radiohead")
                  (py "OK Computer") 4 [mp3_peer])).
  lia.
Defined.

Lemma dir_add_keys (dirs : list (pystr * list sfile)) (k : pystr) (f : sfile) :
  map fst (dir_add dirs k f)
  = if bool_decide (k ∈ map fst dirs) then map fst dirs
    else map fst dirs ++ [k].
Proof.
  induction dirs as [|[k0 fs0] rest IH]; [reflexivity|].
  cbn [dir_add map fst]. unfold str_eqb.
  destruct (bool_decide (k0 = k)) eqn:E.
  - apply bool_decide_eq_true in E. subst k0.
    rewrite bool_decide_eq_true_2 by left. reflexivity.
  - apply bool_decide_eq_false in E. cbn [map fst]. rewrite IH.
    destruct (bool_decide (k ∈ map fst rest)) eqn:E2.
    + apply bool_decide_eq_true in E2.
      rewrite bool_decide_eq_true_2 by (right; exact E2). reflexivity.
    + apply bool_decide_eq_false in E2.
      rewrite bool_decide_eq_false_2; [reflexivity|].
      intros H. apply elem_of_cons in H as [H | H]; [congruence | auto].
Qed.

Lemma dir_add_elem (dirs : list (pystr * list sfile)) (k : pystr) (f : sfile)
  (k' : pystr) (fs' : list sfile) :
  NoDup (map fst dirs) ->
  (k', fs') ∈ dir_add dirs k f ->
  (k' <> k /\ (k', fs') ∈ dirs)
  \/ (k' = k /\ exists fs, (k, fs) ∈ dirs /\ fs' = fs ++ [f])
  \/ (k' = k /\ (k ∉ map fst dirs) /\ fs' = [f]).
Proof.
  induction dirs as [|[k0 fs0] rest IH]; intros Hnd H.
  - cbn [dir_add] in H. apply list_elem_of_singleton in H.
    injection H as -> ->. right; right. split; [reflexivity|].
    split; [apply not_elem_of_nil | reflexivity].
  - cbn [map fst] in Hnd. apply NoDup_cons in Hnd as [Hk0 Hnd].
    cbn [dir_add] in H. unfold str_eqb in H.
    destruct (bool_decide (k0 = k)) eqn:E.
    + apply bool_decide_eq_true in E. subst k0.
      apply elem_of_cons in H as [H | H].
      * injection H as -> ->. right; left. split; [reflexivity|].
        exists fs0. split; [left | reflexivity].
      * left. split; [|right; exact H].
        intros ->. apply Hk0. apply list_elem_of_fmap.
        exists (k, fs'). split; [reflexivity | exact H].
    + apply bool_decide_eq_false in E.
      apply elem_of_cons in H as [H | H].
      * injection H as -> ->. left. split; [exact E | left].
      * destruct (IH Hnd H) as [[H1 H2] | [[H1 (fs & H2 & H3)] | (H1 & H2 & H3)]].
        -- left. split; [exact H1 | right; exact H2].
        -- right; left. split; [exact H1|]. exists fs.
           split; [right; exact H2 | exact H3].
        -- right; right. split; [exact H1|]. split; [|exact H3].
           intros Hin. cbn [map fst] in Hin.
           apply elem_of_cons in Hin as [Hin | Hin]; [congruence | auto].
Qed.

Lemma file_in_dir_true (k : pystr) (f : sfile) :
  file_in_dir k f = true <-> k = dir_of (filename f).
Proof. unfold file_in_dir, str_eqb. apply bool_decide_eq_true. Qed.

Lemma groups_ok_add (dirs : list (pystr * list sfile)) (l : list sfile)
  (f : sfile) :
  groups_ok dirs l ->
  groups_ok (dir_add dirs (dir_of (filename f)) f) (l ++ [f]).
Proof.
  intros (Hnd & Hent & Hkeys). set (k := dir_of (filename f)).
  assert (Hf : file_in_dir k f = true) by (apply file_in_dir_true; reflexivity).
  split; [|split].
  - rewrite dir_add_keys. destruct (bool_decide (k ∈ map fst dirs)) eqn:E;
      [exact Hnd|].
    apply bool_decide_eq_false in E. apply NoDup_app. split; [exact Hnd|].
    split; [|apply NoDup_singleton].
    intros x Hx Hx'. apply list_elem_of_singleton in Hx'. subst x. auto.
  - intros k' fs' H. rewrite List.filter_app.
    destruct (dir_add_elem dirs k f k' fs' Hnd H)
      as [[H1 H2] | [[-> (fs & H2 & ->)] | (-> & H2 & ->)]].
    + destruct (Hent k' fs' H2) as [-> Hne]. split; [|exact Hne].
      cbn [List.filter].
      destruct (file_in_dir k' f) eqn:E; [|rewrite app_nil_r; reflexivity].
      apply file_in_dir_true in E. contradiction.
    + destruct (Hent k fs H2) as [-> Hne]. cbn [List.filter]. rewrite Hf.
      split; [reflexivity|]. intros E. apply app_eq_nil in E as [_ E].
      discriminate E.
    + cbn [List.filter]. rewrite Hf. split; [|discriminate].
      destruct (filter_none (file_in_dir k) l) as [-> _]; [|reflexivity].
      intros y Hy. destruct (file_in_dir k y) eqn:E; [|reflexivity].
      apply file_in_dir_true in E. exfalso. apply H2. rewrite E.
      apply Hkeys, Hy.
  - intros f' Hf'. rewrite dir_add_keys.
    assert (Hold : forall x, x ∈ map fst dirs ->
              x ∈ (if bool_decide (k ∈ map fst dirs) then map fst dirs
                   else map fst dirs ++ [k])).
    { intros x Hx. destruct (bool_decide _); [exact Hx|].
      apply elem_of_app. left. exact Hx. }
    apply elem_of_app in Hf' as [Hf' | Hf']; [apply Hold, Hkeys, Hf'|].
    apply list_elem_of_singleton in Hf'. subst f'. fold k.
    destruct (bool_decide (k ∈ map fst dirs)) eqn:E.
    + apply bool_decide_eq_true in E. exact E.
    + apply elem_of_app. right. left.
Qed.

Lemma groups_ok_fold (fs : list sfile) :
  forall dirs l,
    groups_ok dirs l ->
    groups_ok (fold_left (fun d f => dir_add d (dir_of (filename f)) f) fs dirs)
              (l ++ fs).
Proof.
  induction fs as [|f fs IH]; intros dirs l H.
  - rewrite app_nil_r. exact H.
  - cbn [fold_left].
    replace (l ++ f :: fs) with ((l ++ [f]) ++ fs)
      by (rewrite <- app_assoc; reflexivity).
    apply IH, groups_ok_add, H.
Qed.

Lemma group_by_directory_ok (fs : list sfile) :
  groups_ok (group_by_directory fs) fs.
Proof.
  apply (groups_ok_fold fs [] []). split; [constructor|].
  split; [intros k x H; inversion H | intros f H; inversion H].
Qed.

(** X22.  The folder that [search_album] returns is a whole directory of
    one peer: its user is the one of some response, [all_files] are exactly
    the files of that response that lie in the returned directory, in their
    order, [files] are the audio files among them, at least [min_files] of
    them, and the score is above 0. *)
Theorem search_album_returns_a_whole_directory (lower : pystr -> pystr)
  (artist album : pystr) (min_files : Z) (responses : list response)
  (b : best_match) :
  search_album lower artist album min_files responses = Some b ->
  exists resp,
    resp ∈ responses
    /\ bm_username b = username resp
    /\ bm_all_files b
       = List.filter (file_in_dir (bm_directory b)) (files resp)
    /\ bm_all_files b <> []
    /\ bm_files b = List.filter (is_audio lower) (bm_all_files b)
    /\ min_files <= Z.of_nat (length (bm_files b))
    /\ bm_score b
       = directory_score lower artist album resp (bm_directory b) (bm_files b)
    /\ 0 < bm_score b.
Proof.
  intros Hb.
  destruct (search_album_result lower artist album min_files responses)
    as [[E _] | (l1 & c & l2 & E & F & Hpos & _)]; [congruence|].
  rewrite F in Hb. injection Hb as <-.
  assert (Hc : In c (surviving lower min_files responses))
    by (rewrite E; apply in_or_app; right; left; reflexivity).
  unfold surviving in Hc. apply List.filter_In in Hc. destruct Hc as [Hv Hs].
  unfold visited in Hv. apply in_flat_map in Hv.
  destruct Hv as (resp & Hresp & Hv). apply in_map_iff in Hv.
  destruct Hv as ([k fs] & <- & Hd).
  destruct (group_by_directory_ok (files resp)) as (_ & Hent & _).
  destruct (Hent k fs) as [Hfs Hne]; [apply list_elem_of_In, Hd|].
  exists resp. cbn [match_of bm_username bm_all_files bm_directory bm_files
                    bm_score fst snd].
  split; [apply list_elem_of_In, Hresp|]. split; [reflexivity|].
  split; [exact Hfs|]. split; [exact Hne|]. split; [reflexivity|].
  split; [|split; [reflexivity | exact Hpos]].
  unfold survives in Hs. cbn [snd] in Hs.
  apply negb_true_iff, Z.ltb_ge in Hs. exact Hs.
Qed.

Lemma search_album_returns_a_whole_directory_witness :
  exists resp,
    resp ∈ [mp3_peer; flac_peer]
    /\ bm_username (flac_match) = username resp
    /\ bm_all_files flac_match
       = List.filter (file_in_dir (bm_directory flac_match)) (files resp)
    /\ bm_all_files flac_match <> []
    /\ bm_files flac_match
       = List.filter (is_audio ascii_lower) (bm_all_files flac_match)
    /\ 3 <= Z.of_nat (length (bm_files flac_match))
    /\ bm_score flac_match
       = directory_score ascii_lower (py "Radiohead") (py "OK Computer") resp
           (bm_directory flac_match) (bm_files flac_match)
    /\ 0 < bm_score flac_match.
Proof.
  apply (search_album_returns_a_whole_directory ascii_lower (py "Radiohead")
           (py "OK Computer") 3 [mp3_peer; flac_peer] flac_match).
  vm_compute. reflexivity.
Defined.

(** ** The directory of a file *)

Lemma split_char_cons (c x : N) (s cur : pystr) :
  split_from [c] 0 cur (x :: s)
  = if (c =? x)%N then rev cur :: split_from [c] 0 [] s
    else split_from [c] 0 (x :: cur) s.
Proof.
  cbn [split_from startswith]. rewrite andb_true_r.
  destruct (c =? x)%N; reflexivity.
Qed.

Lemma split_no_sep (c : N) (s : pystr) :
  forall cur, c ∉ s -> split_from [c] 0 cur s = [rev cur ++ s].
Proof.
  induction s as [|x s IH]; intros cur H.
  - cbn. rewrite app_nil_r. reflexivity.
  - apply not_elem_of_cons in H as [H1 H2]. rewrite split_char_cons.
    destruct (c =? x)%N eqn:E; [apply N.eqb_eq in E; congruence|].
    rewrite (IH (x :: cur) H2). cbn [rev]. rewrite <- app_assoc. reflexivity.
Qed.

Lemma split_app_sep (c : N) (d name : pystr) :
  forall cur,
    c ∉ name ->
    split_from [c] 0 cur (d ++ c :: name) = split_from [c] 0 cur d ++ [name].
Proof.
  induction d as [|x d IH]; intros cur H.
  - cbn [app]. rewrite split_char_cons, N.eqb_refl.
    rewrite (split_no_sep c name [] H). reflexivity.
  - cbn [app]. rewrite !split_char_cons. destruct (c =? x)%N.
    + cbn [app]. f_equal. apply IH, H.
    + apply IH, H.
Qed.

Lemma split_from_nonempty (c : N) (s : pystr) :
  forall cur, split_from [c] 0 cur s <> [].
Proof.
  induction s as [|x s IH]; intros cur; [discriminate|].
  rewrite split_char_cons. destruct (c =? x)%N; [discriminate | apply IH].
Qed.

Lemma join_split (c : N) (s : pystr) :
  forall cur, join [c] (split_from [c] 0 cur s) = rev cur ++ s.
Proof.
  induction s as [|x s IH]; intros cur.
  - cbn. rewrite app_nil_r. reflexivity.
  - rewrite split_char_cons. destruct (c =? x)%N eqn:E.
    + apply N.eqb_eq in E. subst x.
      pose proof (split_from_nonempty c s []) as Hne.
      specialize (IH []). cbn [rev app] in IH.
      destruct (split_from [c] 0 [] s) as [|p rest]; [congruence|].
      cbn [join]. cbn [join] in IH. rewrite IH. reflexivity.
    + rewrite (IH (x :: cur)). cbn [rev]. rewrite <- app_assoc. reflexivity.
Qed.

Lemma contains_char (c : N) (s : pystr) :
  contains [c] s = true <-> c ∈ s.
Proof.
  induction s as [|x s IH].
  - split; [discriminate | intros H; inversion H].
  - cbn [contains startswith]. rewrite andb_true_r, orb_true_iff, IH.
    rewrite elem_of_cons, N.eqb_eq. reflexivity.
Qed.

Lemma dirname_of_split (c : N) (d name : pystr) :
  c ∉ name ->
  join [c] (all_but_last (split [c] (d ++ [c] ++ name))) = d.
Proof.
  intros H. unfold split, all_but_last. cbn [app].
  rewrite (split_app_sep c d name [] H), removelast_last.
  apply (join_split c d []).
Qed.

(** X23.  The directory of a file is its path up to the last separator.  A
    path that holds a backslash is cut at its last backslash, whatever
    slashes it holds; a path without backslash is cut at its last slash; a
    path without any separator has the empty directory. *)
Theorem dir_of_cuts_at_last_separator (d name : pystr) :
  (ch_backslash ∉ name ->
   dir_of (d ++ [ch_backslash] ++ name) = d)
  /\ (ch_backslash ∉ d -> ch_backslash ∉ name -> ch_slash ∉ name ->
      dir_of (d ++ [ch_slash] ++ name) = d)
  /\ (ch_backslash ∉ name -> ch_slash ∉ name -> dir_of name = []).
Proof.
  split; [|split].
  - intros H. unfold dir_of.
    replace (contains [ch_backslash] (d ++ [ch_backslash] ++ name)) with true.
    + apply dirname_of_split, H.
    + symmetry. apply contains_char, elem_of_app. right. left.
  - intros Hd Hn Hs. unfold dir_of.
    replace (contains [ch_backslash] (d ++ [ch_slash] ++ name)) with false.
    + apply dirname_of_split, Hs.
    + symmetry. apply not_true_iff_false. rewrite contains_char.
      rewrite elem_of_app. cbn [app]. rewrite elem_of_cons.
      intros [H | [H | H]]; [auto | discriminate H | auto].
  - intros Hn Hs. unfold dir_of.
    replace (contains [ch_backslash] name) with false.
    + unfold split. rewrite (split_no_sep ch_slash name [] Hs). reflexivity.
    + symmetry. apply not_true_iff_false. rewrite contains_char. exact Hn.
Qed.

Lemma dir_of_cuts_at_last_separator_witness :
  dir_of (py "share/Music" ++ [ch_backslash] ++ py "01.flac")
  = py "share/Music".
Proof.
  apply (proj1 (dir_of_cuts_at_last_separator (py "share/Music")
                  (py "01.flac"))).
  intros H. apply (bool_decide_pack _) in H. vm_compute in H. exact H.
Defined.

(** ** The downloaded set on disk *)



(** ** The authentication middleware *)

Lemma startswith_prefix (p x : pystr) : startswith p (p ++ x) = true.
Proof.
  induction p as [|a p IH]; [reflexivity|].
  cbn [app startswith]. rewrite N.eqb_refl. exact IH.
Qed.

Lemma excluded_not_api (p : pystr) :
  p ∈ EXCLUDED_PATHS -> startswith (py "/api/") p = false.
Proof.
  unfold EXCLUDED_PATHS. rewrite !elem_of_cons.
  intros [-> | [-> | [-> | [-> | H]]]]; [reflexivity .. | inversion H].
Qed.

Lemma dispatch_api_path (b64 : pystr -> option pystr) (s : AuthSettings)
  (r : request) :
  startswith (py "/api/") (url_path r) = true ->
  auth_enabled s = true ->
  dispatch b64 s r
  = match auth_type s with
    | Some Basic => guard (_validate_basic_auth b64 s r) (Some (py "Basic"))
    | Some ApiKey => guard (_validate_api_key_auth s r) (Some (py "Bearer"))
    | Some Proxy => guard (_validate_proxy_auth r) None
    | None => CallNext
    end.
Proof.
  intros Hp He. unfold dispatch.
  destruct (bool_decide (url_path r ∈ EXCLUDED_PATHS)) eqn:Ex.
  - apply bool_decide_eq_true in Ex. apply excluded_not_api in Ex. congruence.
  - rewrite Hp, He. reflexivity.
Qed.

Lemma is_ascii_app (a b : pystr) :
  is_ascii (a ++ b) = is_ascii a && is_ascii b.
Proof. apply forallb_app. Qed.

Lemma compare_digest_ascii (a b : pystr) :
  is_ascii a = true -> is_ascii b = true ->
  compare_digest a b = Some (bool_decide (a = b)).
Proof. intros Ha Hb. unfold compare_digest. rewrite Ha, Hb. reflexivity. Qed.

Lemma or_empty_some (k : pystr) :
  k <> [] -> or_empty (Some k) = k.
Proof. destruct k; [congruence | reflexivity]. Qed.

Lemma first_occurrence_unique (c : N) (a a' b b' : pystr) :
  c ∉ a -> c ∉ a' -> a ++ c :: b = a' ++ c :: b' -> a = a' /\ b = b'.
Proof.
  revert a'. induction a as [|x a IH]; intros [|x' a'] Ha Ha' E;
    cbn [app] in E.
  - injection E as ->. split; reflexivity.
  - injection E as <- _. exfalso. apply Ha'. left.
  - injection E as -> _. exfalso. apply Ha. left.
  - injection E as <- E. apply not_elem_of_cons in Ha as [_ Ha].
    apply not_elem_of_cons in Ha' as [_ Ha'].
    destruct (IH a' Ha Ha' E) as [-> ->]. split; reflexivity.
Qed.

(** X25.  [dispatch] hands a request on without looking at any header when
    its path does not start with /api/, when authentication is disabled,
    or when it is enabled with no type set; every path of [EXCLUDED_PATHS]
    is already of the first kind. *)
Theorem dispatch_forwards_unchecked (b64 : pystr -> option pystr)
  (s : AuthSettings) (r : request) :
  url_path r ∈ EXCLUDED_PATHS
  \/ startswith (py "/api/") (url_path r) = false
  \/ auth_enabled s = false
  \/ auth_type s = None ->
  dispatch b64 s r = CallNext
  /\ (url_path r ∈ EXCLUDED_PATHS ->
      startswith (py "/api/") (url_path r) = false).
Proof.
  intros H. split; [|apply excluded_not_api].
  unfold dispatch.
  destruct (bool_decide (url_path r ∈ EXCLUDED_PATHS)) eqn:Ex; [reflexivity|].
  apply bool_decide_eq_false in Ex.
  destruct (startswith (py "/api/") (url_path r)); [|reflexivity].
  destruct (auth_enabled s); [|reflexivity].
  destruct H as [H | [H | [H | H]]]; [contradiction | discriminate ..|].
  cbn [negb]. rewrite H. reflexivity.
Qed.

Lemma dispatch_forwards_unchecked_witness :
  dispatch decode_colon
    {| auth_enabled := true; auth_type := None; auth_username := None;
       auth_password := None; auth_api_key := Some (py "secret") |}
    {| url_path := py "/api/v1/queue"; h_authorization := None;
       h_x_api_key := None; h_remote_user := None |}
  = CallNext.
Proof.
  apply (dispatch_forwards_unchecked decode_colon
           {| auth_enabled := true; auth_type := None; auth_username := None;
              auth_password := None; auth_api_key := Some (py "secret") |}
           {| url_path := py "/api/v1/queue"; h_authorization := None;
              h_x_api_key := None; h_remote_user := None |}).
  right. right. right. reflexivity.
Defined.

(** X26.  With ASCII headers and key, [_validate_api_key_auth] accepts
    exactly when the Authorization header is Bearer, a space and the
    expected key, or the X-API-Key header is the expected key and not
    empty.  The expected key of an unset [api_key] is the empty string, so
    the header that ends after the space of Bearer is accepted then. *)
Theorem api_key_accepted_iff (s : AuthSettings) (r : request) :
  is_ascii (or_empty (auth_api_key s)) = true ->
  is_ascii (header_get (h_authorization r)) = true ->
  is_ascii (header_get (h_x_api_key r)) = true ->
  _validate_api_key_auth s r
  = Some (bool_decide
            (h_authorization r = Some (py "Bearer " ++ or_empty (auth_api_key s))
             \/ (or_empty (auth_api_key s) <> []
                 /\ h_x_api_key r = Some (or_empty (auth_api_key s))))).
Proof.
  set (key := or_empty (auth_api_key s)). intros Hk Ha Hx.
  unfold _validate_api_key_auth. fold key.
  assert (Hdrop : startswith (py "Bearer ") (header_get (h_authorization r))
                  = true ->
                  is_ascii (drop 7 (header_get (h_authorization r))) = true).
  { intros H. apply startswith_drop in H. rewrite H, is_ascii_app in Ha.
    apply andb_true_iff in Ha as [_ Ha]. exact Ha. }
  assert (Hbear : h_authorization r = Some (py "Bearer " ++ key) <->
                  startswith (py "Bearer ") (header_get (h_authorization r))
                  = true
                  /\ drop 7 (header_get (h_authorization r)) = key).
  { destruct (h_authorization r) as [a|]; cbn [header_get default from_option id].
    - split.
      + intros H. assert (Ea : a = py "Bearer " ++ key) by congruence.
        rewrite Ea. split; [apply startswith_prefix | reflexivity].
      + intros [H1 H2]. apply startswith_drop in H1.
        change (length (py "Bearer ")) with 7%nat in H1.
        rewrite H2 in H1. rewrite H1. reflexivity.
    - split; [discriminate | intros [H _]; discriminate H]. }
  assert (Hhead : key <> [] /\ h_x_api_key r = Some key <->
                  header_get (h_x_api_key r) <> []
                  /\ header_get (h_x_api_key r) = key).
  { destruct (h_x_api_key r) as [x|]; cbn [header_get default from_option id].
    - split.
      + intros [H1 H2]. assert (Ex : x = key) by congruence.
        rewrite Ex. split; [exact H1 | reflexivity].
      + intros [H1 ->]. split; [exact H1 | reflexivity].
    - split; [intros [_ H]; discriminate H | intros [H _]; congruence]. }
  assert (Hcheck :
            match header_get (h_x_api_key r) with
            | [] => Some false
            | _ :: _ =>
                match compare_digest (header_get (h_x_api_key r)) key with
                | None => None
                | Some true => Some true
                | Some false => Some false
                end
            end
            = Some (bool_decide (key <> [] /\ h_x_api_key r = Some key))).
  { rewrite (bool_decide_ext _ _ Hhead).
    destruct (header_get (h_x_api_key r)) as [|c x] eqn:Ex.
    - reflexivity.
    - rewrite (compare_digest_ascii _ _ Hx Hk).
      destruct (decide (c :: x = key)) as [E | E].
      + rewrite (bool_decide_eq_true_2 _ E). f_equal. symmetry.
        apply bool_decide_eq_true. split; [discriminate | exact E].
      + rewrite (bool_decide_eq_false_2 _ E). f_equal. symmetry.
        apply bool_decide_eq_false. intros [_ H]. contradiction. }
  rewrite Hcheck.
  destruct (startswith (py "Bearer ") (header_get (h_authorization r))) eqn:Es.
  - rewrite (compare_digest_ascii _ _ (Hdrop eq_refl) Hk).
    destruct (decide (drop 7 (header_get (h_authorization r)) = key))
      as [E | E].
    + rewrite (bool_decide_eq_true_2 _ E). f_equal. symmetry.
      apply bool_decide_eq_true. left. apply Hbear. split; [reflexivity|exact E].
    + rewrite (bool_decide_eq_false_2 _ E). f_equal.
      apply bool_decide_ext. split; [intros H; right; exact H|].
      intros [H | H]; [|exact H]. apply Hbear in H as [_ H]. contradiction.
  - f_equal. apply bool_decide_ext. split; [intros H; right; exact H|].
    intros [H | H]; [|exact H]. apply Hbear in H as [H _]. discriminate H.
Qed.

Lemma api_key_accepted_iff_witness :
  _validate_api_key_auth (api_key_settings None)
    {| url_path := py "/api/v1/queue";
       h_authorization := Some (py "Bearer ");
       h_x_api_key := None; h_remote_user := None |}
  = Some true.
Proof.
  rewrite (api_key_accepted_iff (api_key_settings None)
             {| url_path := py "/api/v1/queue";
                h_authorization := Some (py "Bearer ");
                h_x_api_key := None; h_remote_user := None |});
    reflexivity.
Defined.

(** X27.  With [api_key] authentication, a request under /api/ whose
    Bearer token holds a character outside ASCII gets neither the next
    handler nor the 401 response: the [TypeError] of [compare_digest]
    escapes [dispatch], whatever the X-API-Key header holds. *)
Theorem non_ascii_bearer_raises (b64 : pystr -> option pystr)
  (s : AuthSettings) (r : request) (token : pystr) :
  startswith (py "/api/") (url_path r) = true ->
  auth_enabled s = true ->
  auth_type s = Some ApiKey ->
  h_authorization r = Some (py "Bearer " ++ token) ->
  is_ascii token = false ->
  dispatch b64 s r = TypeError.
Proof.
  intros Hp He Ht Ha Hn. rewrite (dispatch_api_path b64 s r Hp He), Ht.
  unfold _validate_api_key_auth. rewrite Ha. cbn [header_get default from_option id].
  rewrite startswith_prefix.
  change (drop 7 (py "Bearer " ++ token)) with token.
  unfold compare_digest. rewrite Hn. reflexivity.
Qed.

Lemma non_ascii_bearer_raises_witness :
  dispatch decode_colon (api_key_settings (Some (py "secret")))
    accented_bearer_request = TypeError.
Proof.
  apply (non_ascii_bearer_raises decode_colon
           (api_key_settings (Some (py "secret"))) accented_bearer_request
           [233%N]); reflexivity.
Defined.

(** X28.  With ASCII texts, [_validate_basic_auth] accepts exactly when
    the decoded credentials are the expected user name, a colon and the
    expected password, and the expected user name holds no colon.  With
    user name and password unset the expected texts are empty, so the
    credentials that are a single colon are accepted. *)
Theorem basic_accepted_iff (b64 : pystr -> option pystr) (s : AuthSettings)
  (r : request) (encoded decoded : pystr) :
  h_authorization r = Some (py "Basic " ++ encoded) ->
  b64 encoded = Some decoded ->
  is_ascii decoded = true ->
  is_ascii (or_empty (auth_username s)) = true ->
  is_ascii (or_empty (auth_password s)) = true ->
  _validate_basic_auth b64 s r
  = Some (bool_decide
            (decoded = or_empty (auth_username s) ++ py ":"
                       ++ or_empty (auth_password s)
             /\ 58%N ∉ or_empty (auth_username s))).
Proof.
  set (eu := or_empty (auth_username s)).
  set (ep := or_empty (auth_password s)).
  intros Ha Hb Hd Hu Hp. unfold _validate_basic_auth. fold eu ep.
  rewrite Ha. cbn [header_get default from_option id]. rewrite startswith_prefix.
  cbn [negb]. change (drop 6 (py "Basic " ++ encoded)) with encoded.
  rewrite Hb. destruct (split_once (py ":") decoded) as [[u p]|] eqn:Es.
  - apply split_once_first in Es as [E Hc]; [|discriminate].
    assert (Hnu : 58%N ∉ u).
    { intros H. apply (contains_char 58%N u) in H.
      change (py ":") with [58%N] in Hc. congruence. }
    rewrite E, !is_ascii_app in Hd.
    apply andb_true_iff in Hd as [Hdu Hd].
    apply andb_true_iff in Hd as [_ Hdp].
    rewrite (compare_digest_ascii _ _ Hdu Hu), (compare_digest_ascii _ _ Hdp Hp).
    f_equal. destruct (decide (u = eu)) as [Eu | Eu].
    + rewrite (bool_decide_eq_true_2 _ Eu). cbn [andb].
      apply bool_decide_ext. subst u. split.
      * intros ->. split; [exact E | exact Hnu].
      * intros [E' _]. rewrite E in E'. apply app_inv_head in E'.
        apply app_inv_head in E'. exact E'.
    + rewrite (bool_decide_eq_false_2 _ Eu). cbn [andb]. symmetry.
      apply bool_decide_eq_false. intros [E' Hne]. apply Eu.
      rewrite E in E'. change (py ":") with [58%N] in E'. cbn [app] in E'.
      apply (first_occurrence_unique 58%N u eu p ep Hnu Hne E').
  - f_equal. symmetry. apply bool_decide_eq_false. intros [E _].
    assert (Hc : contains (py ":") decoded = true).
    { rewrite E. apply contains_app_r. reflexivity. }
    destruct (split_once_of_contains _ _ Hc) as (a & b0 & E'). congruence.
Qed.

Lemma basic_accepted_iff_witness :
  _validate_basic_auth decode_colon (basic_settings None None)
    basic_colon_request = Some true.
Proof.
  rewrite (basic_accepted_iff decode_colon (basic_settings None None)
             basic_colon_request (py "Og==") (py ":")); reflexivity.
Defined.

(** X29.  With [proxy] authentication a request under /api/ is handed on
    exactly when it carries a Remote-User header that is not empty; no
    other header and no setting is looked at, nothing is raised, and the
    401 response carries no WWW-Authenticate header. *)
Theorem proxy_trusts_remote_user (b64 : pystr -> option pystr)
  (s : AuthSettings) (r : request) :
  startswith (py "/api/") (url_path r) = true ->
  auth_enabled s = true ->
  auth_type s = Some Proxy ->
  dispatch b64 s r
  = match h_remote_user r with
    | Some (_ :: _) => CallNext
    | _ => Respond {| status_code := 401; www_authenticate := None |}
    end.
Proof.
  intros Hp He Ht. rewrite (dispatch_api_path b64 s r Hp He), Ht.
  unfold _validate_proxy_auth.
  destruct (h_remote_user r) as [[|c u]|]; reflexivity.
Qed.

Lemma proxy_trusts_remote_user_witness :
  dispatch decode_colon
    {| auth_enabled := true; auth_type := Some Proxy; auth_username := None;
       auth_password := None; auth_api_key := None |}
    {| url_path := py "/api/v1/queue"; h_authorization := None;
       h_x_api_key := None; h_remote_user := Some (py "alice") |}
  = CallNext.
Proof.
  rewrite (proxy_trusts_remote_user decode_colon
             {| auth_enabled := true; auth_type := Some Proxy;
                auth_username := None; auth_password := None;
                auth_api_key := None |}
             {| url_path := py "/api/v1/queue"; h_authorization := None;
                h_x_api_key := None; h_remote_user := Some (py "alice") |});
    reflexivity.
Defined.


Lemma split_once_char (c : N) (u p : pystr) :
  c ∉ u -> split_once [c] (u ++ c :: p) = Some (u, p).
Proof.
  induction u as [|x u IH]; intros H.
  - cbn [app split_once startswith]. rewrite N.eqb_refl. reflexivity.
  - apply not_elem_of_cons in H as [H1 H2]. cbn [app].
    rewrite split_once_cons. cbn [startswith].
    destruct (N.eqb_spec c x) as [E | _]; [congruence|].
    cbn [andb]. rewrite (IH H2). reflexivity.
Qed.

(** X30.  With [basic] authentication, a request under /api/ whose decoded
    user name holds a character outside ASCII gets neither the next handler
    nor the 401 response: the [TypeError] of [compare_digest] is raised
    outside the [try] of [_validate_basic_auth] and escapes [dispatch]. *)
Theorem non_ascii_user_raises (b64 : pystr -> option pystr)
  (s : AuthSettings) (r : request) (encoded user pass : pystr) :
  startswith (py "/api/") (url_path r) = true ->
  auth_enabled s = true ->
  auth_type s = Some Basic ->
  h_authorization r = Some (py "Basic " ++ encoded) ->
  b64 encoded = Some (user ++ py ":" ++ pass) ->
  58%N ∉ user ->
  is_ascii user = false ->
  dispatch b64 s r = TypeError.
Proof.
  intros Hp He Ht Ha Hb Hc Hn. rewrite (dispatch_api_path b64 s r Hp He), Ht.
  unfold _validate_basic_auth. rewrite Ha.
  cbn [header_get default from_option id]. rewrite startswith_prefix.
  cbn [negb]. change (drop 6 (py "Basic " ++ encoded)) with encoded.
  rewrite Hb. change (py ":") with [58%N]. cbn [app].
  rewrite (split_once_char 58%N user pass Hc).
  unfold compare_digest. rewrite Hn. reflexivity.
Qed.

Lemma non_ascii_user_raises_witness :
  dispatch decode_accented (basic_settings (Some (py "admin")) None)
    accented_basic_request = TypeError.
Proof.
  apply (non_ascii_user_raises decode_accented
           (basic_settings (Some (py "admin")) None) accented_basic_request
           (py "w6k6") [233%N] []).
  - reflexivity.
  - reflexivity.
  - reflexivity.
  - reflexivity.
  - reflexivity.
  - intros H. apply elem_of_cons in H as [H | H]; [discriminate H | inversion H].
  - reflexivity.
Defined.
(** ** Two processes on one queue file *)

Lemma approve_block_stored (mbids : list pystr) (p a : list item)
  (r : list pystr) (d : queue) :
  mbids_hashable p = true ->
  approve_block (map VStr mbids) (QDict (Own p) (Own a) (Own r)) d
  = (Ret (length (List.filter (mbid_in (list_to_set mbids)) p)),
     QDict (Own (List.filter
                   (fun it => negb (mbid_in (list_to_set mbids) it)) p))
           (Own (a ++ List.filter (mbid_in (list_to_set mbids)) p))
           (Own r),
     d).
Proof.
  intros Hp. unfold approve_block.
  cbn [deref q_pending q_approved q_rejected].
  rewrite (approve_loop_hashable _ _ Hp). cbn [list_extend Nat.add app].
  rewrite filter_in_list_strs.
  rewrite (List.filter_ext
             (fun it => negb (in_list (get_mbid it) (map VStr mbids)))
             (fun it => negb (mbid_in (list_to_set mbids) it)))
    by (intros it; rewrite in_list_strs; reflexivity).
  destruct d; reflexivity.
Qed.

Lemma reject_block_stored (mbids : list pystr) (p a : list item)
  (r : list pystr) (d : queue) :
  mbids_hashable p = true ->
  reject_block (list_to_set mbids) (QDict (Own p) (Own a) (Own r)) d
  = (Ret (length (List.filter (mbid_in (list_to_set mbids)) p)),
     QDict (Own (List.filter
                   (fun it => negb (mbid_in (list_to_set mbids) it)) p))
           (Own a)
           (Own (elements
                   (list_to_set r
                    ∪ list_to_set
                        (str_mbids
                           (List.filter (mbid_in (list_to_set mbids)) p))
                    : gset pystr))),
     d).
Proof.
  intros Hp. unfold reject_block.
  cbn [deref q_pending q_approved q_rejected].
  rewrite (reject_loop_hashable _ _ Hp). reflexivity.
Qed.

(** On the dict that an emptied file gives to a process with an untouched
    [DEFAULT_QUEUE], [reject_items] finds nothing and builds the empty
    queue. *)
Lemma reject_block_default (s : gset pystr) :
  reject_block s default_copy empty_queue
  = (Ret 0%nat, QDict (Own []) Shared (Own []), empty_queue).
Proof.
  unfold reject_block, default_copy, empty_queue.
  cbn [deref q_pending q_approved q_rejected pending rejected for_loop
       list_to_set].
  rewrite elements_empty. reflexivity.
Qed.

(** A process that no other process interrupts does what [locked_queue]
    does in write mode: the same result, the same file, the same
    [DEFAULT_QUEUE]. *)
Lemma alone_agrees_with_locked_queue (overlaid : queue -> ftext -> qfile)
  (b : qdict -> queue -> outcome nat * qdict * queue) (d q0 : queue)
  (wl : option pystr) (other : process) :
  let w := World d (file_of_text overlaid (TDump q0)) wl in
  let s0 := System (TDump q0) None (Process b d AtOpen) other in
  match locked_queue ModeW (on_dict b) w with
  | (Ret n, w') =>
      exists t,
        run overlaid [P1; P1; P1; P1; P1; P1] s0
        = Some (System t None
                  (Process b (DEFAULT_QUEUE w') (Finished (Ret n))) other)
        /\ file_of_text overlaid t = queue_file w'
  | (Raised, w') =>
      run overlaid [P1; P1; P1] s0
      = Some (System (TDump q0) None
                (Process b (DEFAULT_QUEUE w') (Finished Raised)) other)
      /\ queue_file w' = file_of_text overlaid (TDump q0)
  end.
Proof.
  cbv zeta. unfold locked_queue, on_dict.
  cbn [file_of_text queue_file DEFAULT_QUEUE run step get_proc set_proc
       at_stage p_stage p_block p_default proc1 proc2 disk lock_holder
       read_queue].
  destruct (b (json_loads_filled (Some (pending q0)) (Some (approved q0))
                                 (Some (rejected q0))) d)
    as [[[n|] q'] d'] eqn:E.
  - cbn [set_default set_queue_file DEFAULT_QUEUE queue_file json_dumps
         p_stage p_block p_default proc1 proc2 disk lock_holder
         write_at_start].
    eexists. split; reflexivity.
  - cbn [set_default DEFAULT_QUEUE queue_file]. split; reflexivity.
Qed.

(** One process after the other, for any two blocks that return: the
    second reads what the first has written. *)
Lemma first_then_second_run (overlaid : queue -> ftext -> qfile)
  (b1 b2 : qdict -> queue -> outcome nat * qdict * queue)
  (d1 d2 q0 : queue) (n1 n2 : nat) (q1 q2 : qdict) (d1' d2' : queue) :
  b1 (read_queue (file_of_text overlaid (TDump q0))) d1 = (Ret n1, q1, d1') ->
  b2 (read_queue (file_of_text overlaid (TDump (resolve d1' q1)))) d2
  = (Ret n2, q2, d2') ->
  run overlaid first_then_second
    (System (TDump q0) None (Process b1 d1 AtOpen) (Process b2 d2 AtOpen))
  = Some (System (TDump (resolve d2' q2)) None
            (Process b1 d1' (Finished (Ret n1)))
            (Process b2 d2' (Finished (Ret n2)))).
Proof.
  intros H1 H2. unfold first_then_second.
  cbn [run step get_proc set_proc at_stage p_stage p_block p_default proc1
       proc2 disk lock_holder].
  rewrite H1.
  cbn [run step get_proc set_proc at_stage p_stage p_block p_default proc1
       proc2 disk lock_holder write_at_start].
  rewrite H2. reflexivity.
Qed.

Lemma second_then_first_run (overlaid : queue -> ftext -> qfile)
  (b1 b2 : qdict -> queue -> outcome nat * qdict * queue)
  (d1 d2 q0 : queue) (n1 n2 : nat) (q1 q2 : qdict) (d1' d2' : queue) :
  b2 (read_queue (file_of_text overlaid (TDump q0))) d2 = (Ret n2, q2, d2') ->
  b1 (read_queue (file_of_text overlaid (TDump (resolve d2' q2)))) d1
  = (Ret n1, q1, d1') ->
  run overlaid second_then_first
    (System (TDump q0) None (Process b1 d1 AtOpen) (Process b2 d2 AtOpen))
  = Some (System (TDump (resolve d1' q1)) None
            (Process b1 d1' (Finished (Ret n1)))
            (Process b2 d2' (Finished (Ret n2)))).
Proof.
  intros H2 H1. unfold second_then_first.
  cbn [run step get_proc set_proc at_stage p_stage p_block p_default proc1
       proc2 disk lock_holder].
  rewrite H2.
  cbn [run step get_proc set_proc at_stage p_stage p_block p_default proc1
       proc2 disk lock_holder write_at_start].
  rewrite H1. reflexivity.
Qed.

(** The second process takes the lock between the release of the first
    and its close, for any two blocks that return: it reads the emptied
    file, so its block runs on [DEFAULT_QUEUE.copy()], and what it writes
    last is all that stays. *)
Lemma stale_read_run (overlaid : queue -> ftext -> qfile)
  (b1 b2 : qdict -> queue -> outcome nat * qdict * queue)
  (d1 d2 q0 : queue) (n1 n2 : nat) (q1 q2 : qdict) (d1' d2' : queue) :
  b1 (read_queue (file_of_text overlaid (TDump q0))) d1 = (Ret n1, q1, d1') ->
  b2 default_copy d2 = (Ret n2, q2, d2') ->
  run overlaid stale_read_schedule
    (System (TDump q0) None (Process b1 d1 AtOpen) (Process b2 d2 AtOpen))
  = Some (System (TDump (resolve d2' q2)) None
            (Process b1 d1' (Finished (Ret n1)))
            (Process b2 d2' (Finished (Ret n2)))).
Proof.
  intros H1 H2. unfold stale_read_schedule.
  cbn [run step get_proc set_proc at_stage p_stage p_block p_default proc1
       proc2 disk lock_holder].
  rewrite H1.
  cbn [run step get_proc set_proc at_stage p_stage p_block p_default proc1
       proc2 disk lock_holder write_at_start file_of_text read_queue].
  rewrite H2. reflexivity.
Qed.

(** While the first process holds the lock, the second cannot take it:
    the lock does keep the two blocks apart. *)
Lemma lock_excludes (overlaid : queue -> ftext -> qfile) (s : system)
  (i j : pid) :
  lock_holder s = Some j ->
  p_stage (get_proc i s) = AtLock ->
  step overlaid i s = None.
Proof. intros L S. unfold step. rewrite S, L. reflexivity. Qed.

Lemma mbid_in_other_singleton (m1 m2 : pystr) (x : item) :
  m1 <> m2 -> has_mbid m2 x -> mbid_in (list_to_set [m1]) x = false.
Proof.
  intros Hne Hx. unfold mbid_in. rewrite Hx. apply bool_decide_eq_false.
  rewrite elem_of_list_to_set. intros H.
  apply list_elem_of_singleton in H. congruence.
Qed.

(** One after the other, in either order, [approve_items([m1])] and
    [reject_items([m2])] both take effect. *)
Lemma serial_schedules_keep_both_updates
  (overlaid : queue -> ftext -> qfile) (q0 : queue) (m1 m2 : pystr)
  (x1 x2 : item) (schedule : list pid) :
  mbids_hashable (pending q0) = true ->
  x1 ∈ pending q0 -> has_mbid m1 x1 ->
  x2 ∈ pending q0 -> has_mbid m2 x2 ->
  m1 <> m2 ->
  schedule = first_then_second \/ schedule = second_then_first ->
  exists s final,
    run overlaid schedule
      (System (TDump q0) None (approving [m1] empty_queue)
              (rejecting [m2] empty_queue))
    = Some s
    /\ disk s = TDump final
    /\ x1 ∈ approved final
    /\ m2 ∈ rejected final
    /\ (forall y, y ∈ pending final -> ~ has_mbid m1 y /\ ~ has_mbid m2 y).
Proof.
  intros Hh H1 M1 H2 M2 Hne Hs.
  assert (A1 : mbid_in (list_to_set [m1]) x1 = true)
    by (apply mbid_in_singleton, M1).
  assert (A2 : mbid_in (list_to_set [m2]) x2 = true)
    by (apply mbid_in_singleton, M2).
  assert (B1 : mbid_in (list_to_set [m2]) x1 = false)
    by (apply (mbid_in_other_singleton m2 m1); [congruence | exact M1]).
  assert (B2 : mbid_in (list_to_set [m1]) x2 = false)
    by (apply (mbid_in_other_singleton m1 m2); [exact Hne | exact M2]).
  assert (In1 : forall f, f x1 = true -> x1 ∈ List.filter f (pending q0)).
  { intros f Hf. apply list_elem_of_In, List.filter_In.
    split; [apply list_elem_of_In, H1 | exact Hf]. }
  assert (In2 : forall f, f x2 = true -> x2 ∈ List.filter f (pending q0)).
  { intros f Hf. apply list_elem_of_In, List.filter_In.
    split; [apply list_elem_of_In, H2 | exact Hf]. }
  assert (Gone : forall (m : pystr) (l : list item) z,
             z ∈ List.filter
                   (fun it => negb (mbid_in (list_to_set [m]) it)) l ->
             ~ has_mbid m z).
  { intros m l z Hz Hc. apply list_elem_of_In, List.filter_In in Hz.
    destruct Hz as [_ Hz]. rewrite (proj2 (mbid_in_singleton m z) Hc) in Hz.
    discriminate Hz. }
  unfold approving, rejecting. destruct Hs as [-> | ->].
  - eexists _, _. split.
    + eapply first_then_second_run.
      * cbn [file_of_text read_queue json_loads_filled default from_option id].
        apply approve_block_stored, Hh.
      * cbn [file_of_text read_queue json_loads_filled default from_option id
             resolve deref q_pending q_approved q_rejected pending approved
             rejected].
        apply reject_block_stored, mbids_hashable_filter, Hh.
    + cbn [disk resolve deref q_pending q_approved q_rejected pending approved
           rejected].
      split; [reflexivity|].
      cbn [resolve deref q_pending q_approved q_rejected pending approved
           rejected].
      split; [|split].
      * apply elem_of_app. right. apply In1, A1.
      * apply elem_of_elements, elem_of_union. right.
        apply elem_of_list_to_set, str_mbids_of_matches.
        split; [apply list_elem_of_singleton; reflexivity|].
        exists x2. split; [|exact M2].
        apply In2. rewrite B2. reflexivity.
      * intros y Hy. split.
        -- apply list_elem_of_In, List.filter_In in Hy. destruct Hy as [Hy _].
           apply (Gone m1 (pending q0)), list_elem_of_In, Hy.
        -- apply (Gone m2 _ y Hy).
  - eexists _, _. split.
    + eapply second_then_first_run.
      * cbn [file_of_text read_queue json_loads_filled default from_option id].
        apply reject_block_stored, Hh.
      * cbn [file_of_text read_queue json_loads_filled default from_option id
             resolve deref q_pending q_approved q_rejected pending approved
             rejected].
        apply approve_block_stored, mbids_hashable_filter, Hh.
    + cbn [disk resolve deref q_pending q_approved q_rejected pending approved
           rejected].
      split; [reflexivity|].
      cbn [resolve deref q_pending q_approved q_rejected pending approved
           rejected].
      split; [|split].
      * apply elem_of_app. right.
        apply list_elem_of_In, List.filter_In. split; [|exact A1].
        apply list_elem_of_In, In1. rewrite B1. reflexivity.
      * apply elem_of_elements, elem_of_union. right.
        apply elem_of_list_to_set, str_mbids_of_matches.
        split; [apply list_elem_of_singleton; reflexivity|].
        exists x2. split; [exact H2 | exact M2].
      * intros y Hy. split.
        -- apply (Gone m1 _ y Hy).
        -- apply list_elem_of_In, List.filter_In in Hy. destruct Hy as [Hy _].
           apply (Gone m2 (pending q0)), list_elem_of_In, Hy.
Qed.

(** C10 (a defect of [locked_queue]).  [locked_queue] gives the lock back
    before the file is closed, and the text of [json.dump] reaches the file
    only at the close, while [f.truncate()] has emptied it at once.  So two
    processes running [approve_items([m1])] and [reject_items([m2])], both
    mbids pending and different, can interleave, each step waiting for the
    lock where the code does, so that both calls return, the approval with
    the number of items it moved and the rejection with 0, and the file
    holds the empty queue afterwards: no item with m1 is approved, m2 is not
    rejected, and every other entry of the queue is gone as well. *)
Theorem unlock_before_close_loses_both_updates
  (overlaid : queue -> ftext -> qfile) (q0 : queue) (m1 m2 : pystr)
  (x1 x2 : item) :
  mbids_hashable (pending q0) = true ->
  x1 ∈ pending q0 -> has_mbid m1 x1 ->
  x2 ∈ pending q0 -> has_mbid m2 x2 ->
  m1 <> m2 ->
  exists n s,
    run overlaid stale_read_schedule
      (System (TDump q0) None (approving [m1] empty_queue)
              (rejecting [m2] empty_queue))
    = Some s
    /\ p_stage (proc1 s) = Finished (Ret n)
    /\ n = length (List.filter (mbid_in (list_to_set [m1])) (pending q0))
    /\ (1 <= n)%nat
    /\ p_stage (proc2 s) = Finished (Ret 0%nat)
    /\ lock_holder s = None
    /\ disk s = TDump empty_queue
    /\ (forall d wl,
          fst (load_queue (World d (file_of_text overlaid (disk s)) wl))
          = Ret empty_queue)
    /\ (forall d wl,
          fst (get_rejected_mbids
                 (World d (file_of_text overlaid (disk s)) wl))
          = Ret ∅).
Proof.
  intros Hh H1 M1 _ _ _.
  eexists _, _. split.
  - unfold approving, rejecting. eapply stale_read_run.
    + cbn [file_of_text read_queue json_loads_filled default from_option id].
      apply approve_block_stored, Hh.
    + apply reject_block_default.
  - cbn [p_stage proc1 proc2 lock_holder disk resolve deref q_pending
         q_approved q_rejected pending approved rejected empty_queue
         file_of_text default from_option id].
    split; [reflexivity|]. split; [reflexivity|]. split.
    { assert (In1 : x1 ∈ List.filter (mbid_in (list_to_set [m1]))
                                     (pending q0)).
      { apply list_elem_of_In, List.filter_In.
        split; [apply list_elem_of_In, H1 | apply mbid_in_singleton, M1]. }
      destruct (List.filter (mbid_in (list_to_set [m1])) (pending q0));
        [inversion In1 | cbn [length]; lia]. }
    split; [reflexivity|]. split; [reflexivity|]. split; [reflexivity|].
    split; intros [dp da dr] wl; reflexivity.
Qed.

Lemma unlock_before_close_loses_both_updates_witness :
  exists n s,
    run (fun _ _ => FCorrupt) stale_read_schedule
      (System (TDump (Queue [low_item; hey_what_item] [] [])) None
              (approving [py "m1"] empty_queue)
              (rejecting [py "m2"] empty_queue))
    = Some s
    /\ p_stage (proc1 s) = Finished (Ret n)
    /\ n = length (List.filter (mbid_in (list_to_set [py "m1"]))
                               [low_item; hey_what_item])
    /\ (1 <= n)%nat
    /\ p_stage (proc2 s) = Finished (Ret 0%nat)
    /\ lock_holder s = None
    /\ disk s = TDump empty_queue
    /\ (forall d wl,
          fst (load_queue
                 (World d (file_of_text (fun _ _ => FCorrupt) (disk s)) wl))
          = Ret empty_queue)
    /\ (forall d wl,
          fst (get_rejected_mbids
                 (World d (file_of_text (fun _ _ => FCorrupt) (disk s)) wl))
          = Ret ∅).
Proof.
  apply (unlock_before_close_loses_both_updates
           (fun _ _ => FCorrupt) (Queue [low_item; hey_what_item] [] [])
           (py "m1") (py "m2") low_item hey_what_item).
  - vm_compute. reflexivity.
  - apply elem_of_cons. left. reflexivity.
  - vm_compute. reflexivity.
  - apply elem_of_cons. right. apply elem_of_cons. left. reflexivity.
  - vm_compute. reflexivity.
  - intros H. vm_compute in H. discriminate H.
Defined.
